(** * THcHallCSpectrometer: target reconstruction and golden-track selection

    A shallow embedding of [THcHallCSpectrometer::FindVertices] and
    [THcHallCSpectrometer::TrackCalc] (src/THcHallCSpectrometer.cxx).

    Numbers.  [Double_t] is read as an exact rational ([Q]); rounding,
    infinities and NaN are outside the model, and a quotient by zero is
    [0] as in [Qdiv].  TrackCalc takes two quotients whose divisor can be
    zero, chi2/ndof (lines 473, 607, 853) and fP/Sqrt(fP*fP + m*m) (lines
    734, 742); the statements that depend on their value are made for
    candidates on which the divisor is not zero ([chi2_defined],
    [beta_defined]).  [Int_t] is [Z]; the counters of the file stay far
    from the 32-bit range, so no wrap-around is written.  C arrays are
    functions from the index; slots that the source leaves uninitialised
    start at [0] and are written before they are read.  The track array
    ([TClonesArray]) is a list, its slots [0 .. GetLast()] all populated,
    and [fNtracks] is its length (FindVertices sets it from the same
    array). *)

From Stdlib Require Import QArith ZArith List Bool Lia Lqa Permutation.
Import ListNotations.
Open Scope Q_scope.

(** ** Comparisons of [Double_t] as booleans *)

Definition Qltb (x y : Q) : bool :=
  match x ?= y with Lt => true | _ => false end.
Definition Qleb (x y : Q) : bool :=
  match x ?= y with Gt => false | _ => true end.
Definition Qgtb (x y : Q) : bool := Qltb y x.
Definition Qgeb (x y : Q) : bool := Qleb y x.
Definition Qeqb (x y : Q) : bool :=
  match x ?= y with Eq => true | _ => false end.

(** ** C arrays *)

Definition upd {A : Type} (a : nat -> A) (i : nat) (v : A) : nat -> A :=
  fun j => if Nat.eqb j i then v else a j.

(** A write through an [Int_t] index; a negative index stores nothing
    that the file reads back. *)
Definition updZ {A : Type} (a : nat -> A) (i : Z) (v : A) : nat -> A :=
  if (i <? 0)%Z then a else upd a (Z.to_nat i) v.

Definition array4 {A : Type} (a b c d : A) : nat -> A :=
  fun k => match k with O => a | 1%nat => b | 2%nat => c | _ => d end.
Definition array5 {A : Type} (a b c d e : A) : nat -> A :=
  fun k => match k with
           | O => a | 1%nat => b | 2%nat => c | 3%nat => d | _ => e end.

(** [for (i = 0; i < n; i++) body] *)
Definition for_loop {S : Type} (n : nat) (body : nat -> S -> S) (s : S) : S :=
  fold_left (fun acc i => body i acc) (seq 0 n) s.

(** The slots of the track array with their indices, in array order. *)
Definition indexed {A : Type} (l : list A) : list (nat * A) :=
  combine (seq 0 (length l)) l.

(** [for (i = 0; i < fNtracks; i++) { t = fTracks->At(i); body }] *)
Definition for_tracks {A S : Type}
  (l : list A) (body : nat -> A -> S -> S) (s : S) : S :=
  fold_left (fun acc it => body (fst it) (snd it) acc) (indexed l) s.

(** ** TMath (ROOT) *)

Module TMath.
Definition Abs (d : Q) : Q := if Qgeb d 0 then d else - d.
Definition Max (a b : Q) : Q := if Qgeb a b then a else b.
Definition Min (a b : Q) : Q := if Qleb a b then a else b.
Definition AbsInt (d : Z) : Z := if (d >=? 0)%Z then d else (- d)%Z.
Definition MaxInt (a b : Z) : Z := if (a >=? b)%Z then a else b.
Definition MinInt (a b : Z) : Z := if (a <=? b)%Z then a else b.
End TMath.

(** What the file takes from outside and [Q] cannot define exactly:
    libm's [pow] at an [Int_t] exponent, [TMath::Sqrt], [TMath::Nint],
    and the property bit [kSortTracks] of THaSpectrometer. *)
Class Externals : Type := {
  pow : Q -> Z -> Q;
  Sqrt : Q -> Q;
  Nint : Q -> Z;
  kSortTracks : Z
}.

(** ** Tracks *)

(** Modelled from the spec: the Candidate Track (class THaTrack, declared
    outside src/).  One field per accessor that the file calls: focal-plane
    position and slopes, fit quality, the kinematics set by the hodoscope
    and shower code, and the target-frame quantities that FindVertices
    writes back. *)
Record THaTrack : Type := {
  GetX : Q; GetY : Q; GetTheta : Q; GetPhi : Q;
  GetChi2 : Q; GetNDoF : Z;
  GetDedx : Q; GetBeta : Q; GetEnergy : Q;
  GetBetaChi2 : Q; GetFPTime : Q; GetNPMT : Z;
  GetGoodPlane3 : Z; GetGoodPlane4 : Z;
  GetTX : Q; GetTY : Q; GetTTheta : Q; GetTPhi : Q;
  GetDp : Q; GetP : Q
}.

(** [THaTrack::SetTarget(x, y, theta, phi)]: the third argument is the
    target theta (xptar), the fourth the target phi (yptar); see the
    comment above the call in FindVertices and the prune cuts on xptar
    and yptar in TrackCalc. *)
Definition SetTarget (t : THaTrack) (x y theta phi : Q) : THaTrack :=
  {| GetX := GetX t; GetY := GetY t; GetTheta := GetTheta t;
     GetPhi := GetPhi t; GetChi2 := GetChi2 t; GetNDoF := GetNDoF t;
     GetDedx := GetDedx t; GetBeta := GetBeta t; GetEnergy := GetEnergy t;
     GetBetaChi2 := GetBetaChi2 t; GetFPTime := GetFPTime t;
     GetNPMT := GetNPMT t; GetGoodPlane3 := GetGoodPlane3 t;
     GetGoodPlane4 := GetGoodPlane4 t;
     GetTX := x; GetTY := y; GetTTheta := theta; GetTPhi := phi;
     GetDp := GetDp t; GetP := GetP t |}.

Definition SetDp (t : THaTrack) (dp : Q) : THaTrack :=
  {| GetX := GetX t; GetY := GetY t; GetTheta := GetTheta t;
     GetPhi := GetPhi t; GetChi2 := GetChi2 t; GetNDoF := GetNDoF t;
     GetDedx := GetDedx t; GetBeta := GetBeta t; GetEnergy := GetEnergy t;
     GetBetaChi2 := GetBetaChi2 t; GetFPTime := GetFPTime t;
     GetNPMT := GetNPMT t; GetGoodPlane3 := GetGoodPlane3 t;
     GetGoodPlane4 := GetGoodPlane4 t;
     GetTX := GetTX t; GetTY := GetTY t; GetTTheta := GetTTheta t;
     GetTPhi := GetTPhi t;
     GetDp := dp; GetP := GetP t |}.

Definition SetMomentum (t : THaTrack) (p : Q) : THaTrack :=
  {| GetX := GetX t; GetY := GetY t; GetTheta := GetTheta t;
     GetPhi := GetPhi t; GetChi2 := GetChi2 t; GetNDoF := GetNDoF t;
     GetDedx := GetDedx t; GetBeta := GetBeta t; GetEnergy := GetEnergy t;
     GetBetaChi2 := GetBetaChi2 t; GetFPTime := GetFPTime t;
     GetNPMT := GetNPMT t; GetGoodPlane3 := GetGoodPlane3 t;
     GetGoodPlane4 := GetGoodPlane4 t;
     GetTX := GetTX t; GetTY := GetTY t; GetTTheta := GetTTheta t;
     GetTPhi := GetTPhi t;
     GetDp := GetDp t; GetP := p |}.

(** [GetChi2() / GetNDoF()], the quantity every strategy minimises.  For
    [GetNDoF() = 0] the source divides by zero (an IEEE infinity or NaN,
    neither of them below a finite [fChi2Min] unless the chi-square is
    negative), where [Qdiv] gives [0]: the quotient stands for the
    source's value on the candidates with a non-zero number of degrees
    of freedom only ([chi2_defined]). *)
Definition Chi2PerDeg (t : THaTrack) : Q := GetChi2 t / inject_Z (GetNDoF t).

(** ** The coefficient table *)

(** [struct reconTerm { Double_t Coeff[4]; Int_t Exp[5]; }] *)
Record reconTerm : Type := {
  Coeff : nat -> Q;
  Exp : nat -> Z
}.

(** The reconstruction members of the class: the table and the
    focal-plane rotation (zeroed by InitializeReconstruction), the target
    offsets and the central momentum. *)
Record Recon : Type := {
  fReconTerms : list reconTerm;
  fAngSlope_x : Q; fAngSlope_y : Q;
  fAngOffset_x : Q; fAngOffset_y : Q;
  fDetOffset_x : Q; fDetOffset_y : Q;
  fZTrueFocus : Q;
  fThetaOffset : Q; fPhiOffset : Q; fDeltaOffset : Q;
  fPcentral : Q
}.

Section Reconstruction.
Context {E : Externals}.

(** The inner loop over [j]: [term] starts at [1.0] and is multiplied by
    [pow(hut_rot[j], Exp[j])] only where [Exp[j] != 0]. *)
Definition cosy_term (hut_rot : nat -> Q) (t : reconTerm) : Q :=
  for_loop 5
    (fun j term =>
       if negb (Exp t j =? 0)%Z
       then term * pow (hut_rot j) (Exp t j)
       else term)
    1.

(** The loop over [iterm]: [sum[k] += term * Coeff[k]] for [k < 4]. *)
Definition cosy_sums (hut_rot : nat -> Q) (terms : list reconTerm)
  : nat -> Q :=
  fold_left
    (fun sum t =>
       let term := cosy_term hut_rot t in
       for_loop 4 (fun k sum => upd sum k (sum k + term * Coeff t k)) sum)
    terms
    (for_loop 4 (fun k sum => upd sum k 0) (fun _ => 0)).

Definition hut_of (r : Recon) (track : THaTrack) : nat -> Q :=
  let gbeam_y := 0 in
  array5
    (GetX track / 100 + fZTrueFocus r * GetTheta track + fDetOffset_x r)
    (GetTheta track + fAngOffset_x r)
    (GetY track / 100 + fZTrueFocus r * GetPhi track + fDetOffset_y r)
    (GetPhi track + fAngOffset_y r)
    (- gbeam_y / 100).

Definition hut_rot_of (r : Recon) (hut : nat -> Q) : nat -> Q :=
  array5
    (hut 0%nat)
    (hut 1%nat + hut 0%nat * fAngSlope_x r)
    (hut 2%nat)
    (hut 3%nat + hut 2%nat * fAngSlope_y r)
    (hut 4%nat).

(** The body of the loop over [it] in FindVertices. *)
Definition FindVertices_track (r : Recon) (track : THaTrack) : THaTrack :=
  let hut := hut_of r track in
  let hut_rot := hut_rot_of r hut in
  let sum := cosy_sums hut_rot (fReconTerms r) in
  let track :=
    SetTarget track 0 (sum 1%nat * 100)
      (sum 0%nat + fPhiOffset r) (sum 2%nat + fThetaOffset r) in
  let track := SetDp track (sum 3%nat * 100 + fDeltaOffset r) in
  SetMomentum track (fPcentral r * (1 + GetDp track / 100)).

Definition FindVertices_tracks (r : Recon) (tracks : list THaTrack)
  : list THaTrack :=
  map (FindVertices_track r) tracks.

End Reconstruction.

(** ** The hodoscope and the members of the spectrometer *)

(** Modelled from the spec: the Hodoscope collaborator (class THcHodoscope,
    declared outside src/).  Per plane index it exposes the paddle count,
    the plane centre, the paddle spacing and the hit count; a flat accessor
    over the running hit index returns the hit paddle number; and there is
    one start-time reference.  [GetGoodRawPad] is a total function of the
    position: nothing is assumed of how many positions the hodoscope
    fills for an event, nor of what it answers at any of them. *)
Record THcHodoscope : Type := {
  GetNPaddles : nat -> nat;
  GetNScinHits : nat -> nat;
  GetGoodRawPad : Z -> Z;
  GetPlaneCenter : nat -> Q;
  GetPlaneSpacing : nat -> Q;
  GetStartTimeCenter : Q
}.

(** Thresholds and plane positions of the scintillator selection. *)
Record SelCuts : Type := {
  fSelNDegreesMin : Q;
  fSeldEdX1Min : Q; fSeldEdX1Max : Q;
  fSelBetaMin : Q; fSelBetaMax : Q;
  fSelEtMin : Q; fSelEtMax : Q;
  fScin2XZpos : Q; fScin2XdZpos : Q;
  fScin2YZpos : Q; fScin2YdZpos : Q
}.

(** The nine prune thresholds. *)
Record PruneCuts : Type := {
  fPruneXp : Q; fPruneYp : Q; fPruneYtar : Q; fPruneDelta : Q;
  fPruneBeta : Q; fPruneDf : Q; fPruneChiBeta : Q; fPruneFpTime : Q;
  fPruneNPMT : Q
}.

(** The members that ReadDatabase and the constructor set and that
    FindVertices and TrackCalc never assign. *)
Record Config : Type := {
  fProperties : Z;
  recon : Recon;
  fPartMass : Q;
  fSelUsingScin : Z;
  fSelUsingPrune : Z;
  fNPlanes : Z;
  sel : SelCuts
}.

(** The object.  [fGoldenTrack] and [fTrk] point at a slot of [fTracks]
    and are kept as the slot index ([None] is NULL); [fTrkIfo] is the
    copy [*fGoldenTrack]. *)
Record THcHallCSpectrometer : Type := {
  cfg : Config;
  prune : PruneCuts;
  fHodo : THcHodoscope;
  fTracks : list THaTrack;
  fGoldenTrack : option nat;
  fTrkIfo : option THaTrack;
  fTrk : option nat;
  fChi2Min : Q;
  fGoodTrack : Z
}.

Definition fNtracks (s : THcHallCSpectrometer) : Z :=
  Z.of_nat (length (fTracks s)).

Definition set_prune (s : THcHallCSpectrometer) (p : PruneCuts) :=
  {| cfg := cfg s; prune := p; fHodo := fHodo s; fTracks := fTracks s;
     fGoldenTrack := fGoldenTrack s; fTrkIfo := fTrkIfo s; fTrk := fTrk s;
     fChi2Min := fChi2Min s; fGoodTrack := fGoodTrack s |}.

Definition set_fTracks (s : THcHallCSpectrometer) (l : list THaTrack) :=
  {| cfg := cfg s; prune := prune s; fHodo := fHodo s; fTracks := l;
     fGoldenTrack := fGoldenTrack s; fTrkIfo := fTrkIfo s; fTrk := fTrk s;
     fChi2Min := fChi2Min s; fGoodTrack := fGoodTrack s |}.

Definition set_fChi2Min (s : THcHallCSpectrometer) (c : Q) :=
  {| cfg := cfg s; prune := prune s; fHodo := fHodo s; fTracks := fTracks s;
     fGoldenTrack := fGoldenTrack s; fTrkIfo := fTrkIfo s; fTrk := fTrk s;
     fChi2Min := c; fGoodTrack := fGoodTrack s |}.

Definition set_fGoodTrack (s : THcHallCSpectrometer) (g : Z) :=
  {| cfg := cfg s; prune := prune s; fHodo := fHodo s; fTracks := fTracks s;
     fGoldenTrack := fGoldenTrack s; fTrkIfo := fTrkIfo s; fTrk := fTrk s;
     fChi2Min := fChi2Min s; fGoodTrack := g |}.

(** [fGoldenTrack = fTracks->At(i); fTrkIfo = *fGoldenTrack;
    fTrk = fGoldenTrack;] *)
Definition SetGolden (s : THcHallCSpectrometer) (i : nat) :=
  {| cfg := cfg s; prune := prune s; fHodo := fHodo s; fTracks := fTracks s;
     fGoldenTrack := Some i; fTrkIfo := nth_error (fTracks s) i;
     fTrk := Some i;
     fChi2Min := fChi2Min s; fGoodTrack := fGoodTrack s |}.

(** [fGoldenTrack = NULL;] *)
Definition ClearGolden (s : THcHallCSpectrometer) :=
  {| cfg := cfg s; prune := prune s; fHodo := fHodo s; fTracks := fTracks s;
     fGoldenTrack := None; fTrkIfo := fTrkIfo s; fTrk := fTrk s;
     fChi2Min := fChi2Min s; fGoodTrack := fGoodTrack s |}.

(** Modelled from the spec: the in-place sort of the candidate source
    (TClonesArray::Sort with THaTrack::Compare, both outside src/): the
    candidate set is ordered by ascending chi-square-per-degree-of-freedom,
    stable, ties broken by original order. *)
Fixpoint insert_track (t : THaTrack) (l : list THaTrack) : list THaTrack :=
  match l with
  | [] => [t]
  | u :: l' =>
      if Qleb (Chi2PerDeg t) (Chi2PerDeg u) then t :: l
      else u :: insert_track t l'
  end.

Definition Sort (l : list THaTrack) : list THaTrack :=
  fold_right insert_track [] l.

(** [TrackTimes]: a placeholder that returns 0. *)
Definition TrackTimes (Tracks : list THaTrack) : Z := 0%Z.

Section Selection.
Context {E : Externals}.

Definition SetTrSorting (c : Config) (set : bool) : Config :=
  {| fProperties :=
       if set then Z.lor (fProperties c) kSortTracks
       else Z.land (fProperties c) (Z.lnot kSortTracks);
     recon := recon c; fPartMass := fPartMass c;
     fSelUsingScin := fSelUsingScin c; fSelUsingPrune := fSelUsingPrune c;
     fNPlanes := fNPlanes c; sel := sel c |}.

Definition GetTrSorting (c : Config) : bool :=
  negb (Z.land (fProperties c) kSortTracks =? 0)%Z.

(** *** Strategy A: lines 429-454 *)
Definition SortedFirst (s : THcHallCSpectrometer) : THcHallCSpectrometer :=
  let s := if GetTrSorting (cfg s) then set_fTracks s (Sort (fTracks s))
           else s in
  if (fNtracks s >? 0)%Z then SetGolden s 0 else ClearGolden s.

(** *** Strategy B: lines 456-627 *)

(** The locals of the scintillator selection that live across the loop
    over the tracks. *)
Record ScinLocals : Type := {
  fY2D : nat -> Q;
  fX2D : nat -> Q;
  f2XHits : nat -> Z;
  f2YHits : nat -> Z;
  fRawIndex : Z;
  fY2Dmin : Q;
  fX2Dmin : Q
}.

(** The degrees-of-freedom cut and the range cuts on dE/dx, beta and
    energy. *)
Definition passes_ndof (c : SelCuts) (t : THaTrack) : bool :=
  Qgtb (inject_Z (GetNDoF t)) (fSelNDegreesMin c).

Definition passes_ranges (c : SelCuts) (t : THaTrack) : bool :=
  Qgtb (GetDedx t) (fSeldEdX1Min c) && Qltb (GetDedx t) (fSeldEdX1Max c)
  && Qgtb (GetBeta t) (fSelBetaMin c) && Qltb (GetBeta t) (fSelBetaMax c)
  && Qgtb (GetEnergy t) (fSelEtMin c) && Qltb (GetEnergy t) (fSelEtMax c).

(** Lines 490-507: the walk over the planes and their hits.  The state
    is [(f2XHits, f2YHits, fRawIndex)]. *)
Definition mark_hits (hodo : THcHodoscope) (nplanes : Z)
  (st : (nat -> Z) * (nat -> Z) * Z) : (nat -> Z) * (nat -> Z) * Z :=
  for_loop (Z.to_nat nplanes)
    (fun ip st =>
       for_loop (GetNScinHits hodo ip)
         (fun _ st =>
            let '(x, y, raw) := st in
            let raw := (raw + 1)%Z in
            let fGoodRawPad := GetGoodRawPad hodo raw in
            let x := if Nat.eqb ip 2 then updZ x fGoodRawPad 0%Z else x in
            let y := if Nat.eqb ip 3 then updZ y fGoodRawPad 0%Z else y in
            (x, y, raw))
         st)
    st.

(** Lines 517-534 and 548-564: the loop over the paddles of one plane.
    The state is [(fZap, ft)]; the distance stored in the slot of the
    track inside the loop is overwritten by [fZap] after it. *)
Definition nearest_hit (hits : nat -> Z) (npad : nat) (fHitCnt : Z) : Q :=
  fst
    (for_loop npad
       (fun i st =>
          let '(fZap, ft) := st in
          if (hits i =? 0)%Z then
            let d := inject_Z (TMath.AbsInt (fHitCnt - Z.of_nat i - 1)) in
            let ft := ft + 1 in
            let fZap := if Qeqb ft 1 then d else fZap in
            let fZap := if Qeqb ft 2 && Qltb d fZap then d else fZap in
            let fZap := if Qeqb ft 3 && Qltb d fZap then d else fZap in
            let fZap := if Qeqb ft 4 && Qltb d fZap then d else fZap in
            let fZap := if Qeqb ft 5 && Qltb d fZap then d else fZap in
            let fZap := if Qeqb ft 6 && Qltb d fZap then d else fZap in
            (fZap, ft)
          else st)
       (0, 0)).

(** Lines 483-570: the hit marks and the two scores of one qualifying
    track. *)
Definition scin_scores (c : Config) (hodo : THcHodoscope) (ntracks : Z)
  (itrack : nat) (goodTrack : THaTrack) (w : ScinLocals) : ScinLocals :=
  let x := for_loop (GetNPaddles hodo 2) (fun j a => upd a j (-1)%Z)
             (f2XHits w) in
  let y := for_loop (GetNPaddles hodo 3) (fun j a => upd a j (-1)%Z)
             (f2YHits w) in
  let '(x, y, raw) := mark_hits hodo (fNPlanes c) (x, y, fRawIndex w) in
  let hitpos4 :=
    GetY goodTrack
    + GetPhi goodTrack * (fScin2YZpos (sel c) + 0.5 * fScin2YdZpos (sel c)) in
  let icounter4 :=
    (Nint ((GetPlaneCenter hodo 3 - hitpos4) / GetPlaneSpacing hodo 3) + 1)%Z in
  let fHitCnt4 :=
    TMath.MaxInt (TMath.MinInt icounter4 (Z.of_nat (GetNPaddles hodo 3))) 1 in
  let y2d := fY2D w in
  let y2d := if (ntracks >? 1)%Z
             then upd y2d itrack (nearest_hit y (GetNPaddles hodo 3) fHitCnt4)
             else y2d in
  let y2d := if (ntracks =? 1)%Z then upd y2d itrack 0 else y2d in
  let hitpos3 :=
    GetX goodTrack
    + GetTheta goodTrack
      * (fScin2XZpos (sel c) + 0.5 * fScin2XdZpos (sel c)) in
  let icounter3 :=
    (Nint ((hitpos3 - GetPlaneCenter hodo 2) / GetPlaneSpacing hodo 2) + 1)%Z in
  let fHitCnt3 :=
    TMath.MaxInt (TMath.MinInt icounter3 (Z.of_nat (GetNPaddles hodo 2))) 1 in
  let x2d := fX2D w in
  let x2d := if (ntracks >? 1)%Z
             then upd x2d itrack (nearest_hit x (GetNPaddles hodo 2) fHitCnt3)
             else x2d in
  let x2d := if (ntracks =? 1)%Z then upd x2d itrack 0 else x2d in
  {| fY2D := y2d; fX2D := x2d; f2XHits := x; f2YHits := y;
     fRawIndex := raw; fY2Dmin := fY2Dmin w; fX2Dmin := fX2Dmin w |}.

(** Lines 572-594: the comparison with the running minima. *)
Definition scin_select (itrack : nat) (fChi2PerDeg : Q)
  (st : ScinLocals * THcHallCSpectrometer)
  : ScinLocals * THcHallCSpectrometer :=
  let (w, s) := st in
  let y := fY2D w itrack in
  let x := fX2D w itrack in
  if Qleb y (fY2Dmin w) then
    let fX2Dmin' := if Qltb y (fY2Dmin w) then 100 else fX2Dmin w in
    let s := if Qltb y (fY2Dmin w) then set_fChi2Min s 1e10 else s in
    let w := {| fY2D := fY2D w; fX2D := fX2D w; f2XHits := f2XHits w;
                f2YHits := f2YHits w; fRawIndex := fRawIndex w;
                fY2Dmin := fY2Dmin w; fX2Dmin := fX2Dmin' |} in
    if Qleb x (fX2Dmin w) then
      let s := if Qltb x (fX2Dmin w) then set_fChi2Min s 1e10 else s in
      if Qltb fChi2PerDeg (fChi2Min s) then
        let s := set_fGoodTrack s (Z.of_nat itrack) in
        let w := {| fY2D := fY2D w; fX2D := fX2D w; f2XHits := f2XHits w;
                    f2YHits := f2YHits w; fRawIndex := fRawIndex w;
                    fY2Dmin := y; fX2Dmin := x |} in
        let s := set_fChi2Min s fChi2PerDeg in
        (w, SetGolden s (Z.to_nat (fGoodTrack s)))
      else (w, s)
    else (w, s)
  else (w, s).

(** The body of the loop over [itrack], lines 467-597.  The exit
    [if (!goodTrack) return -1] is taken on a NULL slot only, and the
    track list has none. *)
Definition scin_track (c : Config) (hodo : THcHodoscope) (ntracks : Z)
  (itrack : nat) (goodTrack : THaTrack)
  (st : ScinLocals * THcHallCSpectrometer)
  : ScinLocals * THcHallCSpectrometer :=
  if passes_ndof (sel c) goodTrack then
    let fChi2PerDeg := Chi2PerDeg goodTrack in
    if passes_ranges (sel c) goodTrack then
      scin_select itrack fChi2PerDeg
        (scin_scores c hodo ntracks itrack goodTrack (fst st), snd st)
    else st
  else st.

(** Lines 463-466. *)
Definition scin_init (s : THcHallCSpectrometer)
  : ScinLocals * THcHallCSpectrometer :=
  ({| fY2D := fun _ => 0; fX2D := fun _ => 0;
      f2XHits := fun _ => 0%Z; f2YHits := fun _ => 0%Z;
      fRawIndex := (-1)%Z; fY2Dmin := 100; fX2Dmin := 100 |},
   set_fGoodTrack (set_fChi2Min s 1e10) (-1)%Z).

Definition scin_loop (s : THcHallCSpectrometer)
  : ScinLocals * THcHallCSpectrometer :=
  for_tracks (fTracks s) (scin_track (cfg s) (fHodo s) (fNtracks s))
    (scin_init s).

(** The body of the second loop, lines 602-620 (again without the exit
    on a NULL slot). *)
Definition scin_fallback_track (c : Config) (iitrack : nat)
  (aTrack : THaTrack) (s : THcHallCSpectrometer) : THcHallCSpectrometer :=
  if passes_ndof (sel c) aTrack then
    let fChi2PerDeg := Chi2PerDeg aTrack in
    if Qltb fChi2PerDeg (fChi2Min s) then
      let s := set_fGoodTrack s (Z.of_nat iitrack) in
      let s := set_fChi2Min s fChi2PerDeg in
      SetGolden s (Z.to_nat (fGoodTrack s))
    else s
  else s.

Definition SelectUsingScin (s : THcHallCSpectrometer)
  : THcHallCSpectrometer :=
  if (fNtracks s >? 0)%Z then
    let s1 := snd (scin_loop s) in
    if (fGoodTrack s1 =? -1)%Z then
      for_tracks (fTracks s1) (scin_fallback_track (cfg s1))
        (set_fChi2Min s1 1e10)
    else s1
  else ClearGolden s.

(** *** Strategy C: lines 634-874 *)

(** Lines 636-644: every threshold is raised to its floor, in the
    member itself. *)
Definition clamp_prune (p : PruneCuts) : PruneCuts :=
  {| fPruneXp := TMath.Max 0.08 (fPruneXp p);
     fPruneYp := TMath.Max 0.04 (fPruneYp p);
     fPruneYtar := TMath.Max 4.0 (fPruneYtar p);
     fPruneDelta := TMath.Max 13.0 (fPruneDelta p);
     fPruneBeta := TMath.Max 0.1 (fPruneBeta p);
     fPruneDf := TMath.Max 1.0 (fPruneDf p);
     fPruneChiBeta := TMath.Max 2.0 (fPruneChiBeta p);
     fPruneFpTime := TMath.Max 5.0 (fPruneFpTime p);
     fPruneNPMT := TMath.Max 6.0 (fPruneNPMT p) |}.

(** One prune block: the test that counts a kept track as good, the
    test that rejects a track, and what a rejection adds to
    [fReject]. *)
Record PruneCut : Type := {
  cut_pass : THaTrack -> bool;
  cut_fail : THaTrack -> bool;
  cut_code : Z
}.

(** Lines 734 and 742: the beta of the candidate from its momentum and
    the particle mass.  When momentum and mass are both zero the divisor
    is zero and the source has a NaN, for which the tests of lines 735
    and 743 are both false; [Qdiv] gives [0].  The quotient stands for
    the source's value where the divisor is not zero ([beta_defined]). *)
Definition fBetaP (m : Q) (t : THaTrack) : Q :=
  let fP := GetP t in
  fP / Sqrt (fP * fP + m * m).

Definition prune_xptar (p : PruneCuts) : PruneCut :=
  {| cut_pass t := Qltb (TMath.Abs (GetTTheta t)) (fPruneXp p);
     cut_fail t := Qgeb (TMath.Abs (GetTTheta t)) (fPruneXp p);
     cut_code := 1 |}.
Definition prune_yptar (p : PruneCuts) : PruneCut :=
  {| cut_pass t := Qltb (TMath.Abs (GetTPhi t)) (fPruneYp p);
     cut_fail t := Qgeb (TMath.Abs (GetTPhi t)) (fPruneYp p);
     cut_code := 2 |}.
Definition prune_ytar (p : PruneCuts) : PruneCut :=
  {| cut_pass t := Qltb (TMath.Abs (GetTY t)) (fPruneYtar p);
     cut_fail t := Qgeb (TMath.Abs (GetTY t)) (fPruneYtar p);
     cut_code := 10 |}.
Definition prune_delta (p : PruneCuts) : PruneCut :=
  {| cut_pass t := Qltb (TMath.Abs (GetDp t)) (fPruneDelta p);
     cut_fail t := Qgeb (TMath.Abs (GetDp t)) (fPruneDelta p);
     cut_code := 20 |}.
Definition prune_beta (p : PruneCuts) (m : Q) : PruneCut :=
  {| cut_pass t := Qltb (TMath.Abs (GetBeta t - fBetaP m t)) (fPruneBeta p);
     cut_fail t := Qgeb (TMath.Abs (GetBeta t - fBetaP m t)) (fPruneBeta p);
     cut_code := 100 |}.
Definition prune_df (p : PruneCuts) : PruneCut :=
  {| cut_pass t := Qgeb (inject_Z (GetNDoF t)) (fPruneDf p);
     cut_fail t := Qltb (inject_Z (GetNDoF t)) (fPruneDf p);
     cut_code := 200 |}.
Definition prune_npmt (p : PruneCuts) : PruneCut :=
  {| cut_pass t := Qgeb (inject_Z (GetNPMT t)) (fPruneNPMT p);
     cut_fail t := Qltb (inject_Z (GetNPMT t)) (fPruneNPMT p);
     cut_code := 100000 |}.
Definition prune_chibeta (p : PruneCuts) : PruneCut :=
  {| cut_pass t :=
       Qltb (GetBetaChi2 t) (fPruneChiBeta p) && Qgtb (GetBetaChi2 t) 0.01;
     cut_fail t :=
       Qgeb (GetBetaChi2 t) (fPruneChiBeta p) || Qleb (GetBetaChi2 t) 0.01;
     cut_code := 1000 |}.
Definition prune_fptime (p : PruneCuts) (start : Q) : PruneCut :=
  {| cut_pass t := Qltb (TMath.Abs (GetFPTime t - start)) (fPruneFpTime p);
     cut_fail t := Qgeb (TMath.Abs (GetFPTime t - start)) (fPruneFpTime p);
     cut_code := 2000 |}.
Definition prune_y2 : PruneCut :=
  {| cut_pass t := (GetGoodPlane4 t =? 1)%Z;
     cut_fail t := negb (GetGoodPlane4 t =? 1)%Z;
     cut_code := 10000 |}.
Definition prune_x2 : PruneCut :=
  {| cut_pass t := (GetGoodPlane3 t =? 1)%Z;
     cut_fail t := negb (GetGoodPlane3 t =? 1)%Z;
     cut_code := 20000 |}.

(** The blocks in the order of the source, lines 665-847. *)
Definition prune_cuts (s : THcHallCSpectrometer) : list PruneCut :=
  [ prune_xptar (prune s); prune_yptar (prune s); prune_ytar (prune s);
    prune_delta (prune s); prune_beta (prune s) (fPartMass (cfg s));
    prune_df (prune s); prune_npmt (prune s); prune_chibeta (prune s);
    prune_fptime (prune s) (GetStartTimeCenter (fHodo s));
    prune_y2; prune_x2 ].

Record PruneWork : Type := {
  fKeep : nat -> bool;
  fReject : nat -> Z
}.

(** Lines 658-663; [testTracks[ptrack]] is the track of the slot (no
    slot is NULL, so the exit [return -1] is never taken). *)
Definition prune_init (tracks : list THaTrack) : PruneWork :=
  for_tracks tracks
    (fun ptrack _ w =>
       {| fKeep := upd (fKeep w) ptrack true;
          fReject := upd (fReject w) ptrack 0%Z |})
    {| fKeep := fun _ => false; fReject := fun _ => 0%Z |}.

(** The first loop of a block: [fNGood]. *)
Definition count_good (tracks : list THaTrack) (c : PruneCut)
  (w : PruneWork) : Z :=
  for_tracks tracks
    (fun ptrack t fNGood =>
       if cut_pass c t && fKeep w ptrack then (fNGood + 1)%Z else fNGood)
    0%Z.

(** The second loop of a block. *)
Definition reject_failing (tracks : list THaTrack) (c : PruneCut)
  (w : PruneWork) : PruneWork :=
  for_tracks tracks
    (fun ptrack t w =>
       if cut_fail c t then
         {| fKeep := upd (fKeep w) ptrack false;
            fReject := upd (fReject w) ptrack
                         (fReject w ptrack + cut_code c)%Z |}
       else w)
    w.

Definition apply_cut (tracks : list THaTrack) (w : PruneWork)
  (c : PruneCut) : PruneWork :=
  if (count_good tracks c w >? 0)%Z then reject_failing tracks c w else w.

(** The workspace after the first [k] blocks. *)
Definition prune_after (k : nat) (s : THcHallCSpectrometer) : PruneWork :=
  fold_left (apply_cut (fTracks s)) (firstn k (prune_cuts s))
    (prune_init (fTracks s)).

(** The body of the last loop, lines 851-859. *)
Definition prune_pick_track (w : PruneWork) (ptrack : nat) (t : THaTrack)
  (s : THcHallCSpectrometer) : THcHallCSpectrometer :=
  let fChi2PerDeg := Chi2PerDeg t in
  if Qltb fChi2PerDeg (fChi2Min s) && fKeep w ptrack then
    set_fChi2Min (set_fGoodTrack s (Z.of_nat ptrack)) fChi2PerDeg
  else s.

Definition SelectUsingPrune (s : THcHallCSpectrometer)
  : THcHallCSpectrometer :=
  let s := set_prune s (clamp_prune (prune s)) in
  if (fNtracks s >? 0)%Z then
    let s := set_fGoodTrack (set_fChi2Min s 1e10) 0%Z in
    let w := prune_after (length (prune_cuts s)) s in
    let s := for_tracks (fTracks s) (prune_pick_track w) s in
    SetGolden s (Z.to_nat (fGoodTrack s))
  else ClearGolden s.

(** *** TrackCalc

    The three blocks in source order, then [return TrackTimes(fTracks)].
    The exits [return -1] of lines 470, 604 and 662 are taken on a NULL
    slot of the track array only; with every slot populated they are not
    reached, and the returned code is that of TrackTimes. *)
Definition TrackCalc (s : THcHallCSpectrometer)
  : Z * THcHallCSpectrometer :=
  let s := if (fSelUsingScin (cfg s) =? 0)%Z
              && (fSelUsingPrune (cfg s) =? 0)%Z
           then SortedFirst s else s in
  let s := if (fSelUsingScin (cfg s) =? 1)%Z then SelectUsingScin s
           else s in
  let s := if (fSelUsingPrune (cfg s) =? 1)%Z then SelectUsingPrune s
           else s in
  (TrackTimes (fTracks s), s).

(** FindVertices on the object: every track of the array is
    transformed; the return value is 0. *)
Definition FindVertices (s : THcHallCSpectrometer)
  : Z * THcHallCSpectrometer :=
  (0%Z, set_fTracks s (FindVertices_tracks (recon (cfg s)) (fTracks s))).

End Selection.

(** ** Initialisation: the constructor, InitializeReconstruction and
    ReadDatabase

    ReadDatabase looks up the hodoscope, resets the reconstruction, takes
    the scalars from the parameter store and reads the coefficient table
    from a text file, line by line.  Strings are [String.string]; the
    file is its content, split at the newlines. *)

From Stdlib Require Ascii String.
From Stdlib Require Import Qpower.
Import Ascii.AsciiSyntax String.StringSyntax.
Delimit Scope char_scope with char.
Delimit Scope string_scope with string.

(** Modelled from the spec: initialisation succeeds or fails with a load
    error.  These are the two values of [THaAnalysisObject::EStatus]
    (declared outside src/) that the file returns. *)
Inductive EStatus : Type := kOK | kInitError.

(** What ReadDatabase takes from outside: [TMath::RadToDeg()], and
    [sscanf] with the format [" %le %le %le %le %1d%1d%1d%1d%1d"] on a
    freshly pushed [reconTerm()]: [sscanf_term line] is that element once
    sscanf has stored what it could convert from [line]. *)
Class DBExternals : Type := {
  RadToDeg : Q;
  sscanf_term : String.string -> reconTerm
}.

(** Modelled from the spec: the configuration loader that supplies the
    thresholds and the file name ([gHcParms->LoadParmValues], THcParmList,
    outside src/).  The record holds the destinations of the request list
    of lines 201-236 as the call leaves them when it returns, one field
    per key. *)
Record DBValues : Type := {
  reconCoeffFilename : String.string;
  theta_offset : Q; phi_offset : Q; delta_offset : Q;
  thetacentral_offset : Q; oopcentral_offset : Q;
  pcentral_offset : Q; pcentral : Q; theta_lab : Q;
  partmass : Q;
  sel_using_scin : Z; sel_using_prune : Z;
  sel_values : SelCuts;
  hodo_num_planes : Z;
  prune_values : PruneCuts
}.

(** The object during initialisation: the members of the event
    processing, and those that only ReadDatabase touches.
    [fCentralAngles] holds the arguments of the last call of
    [SetCentralAngles(theta, phi, false)] (THaSpectrometer, outside
    src/). *)
Record SpectrometerSetup : Type := {
  spectro : THcHallCSpectrometer;
  fStatus : EStatus;
  fNReconTerms : Z;
  fThetaCentralOffset : Q;
  fOopCentralOffset : Q;
  fPCentralOffset : Q;
  fTheta_lab : Q;
  fCentralAngles : option (Q * Q)
}.

Definition set_cfg (s : THcHallCSpectrometer) (c : Config) :=
  {| cfg := c; prune := prune s; fHodo := fHodo s; fTracks := fTracks s;
     fGoldenTrack := fGoldenTrack s; fTrkIfo := fTrkIfo s; fTrk := fTrk s;
     fChi2Min := fChi2Min s; fGoodTrack := fGoodTrack s |}.

Definition set_fHodo (s : THcHallCSpectrometer) (h : THcHodoscope) :=
  {| cfg := cfg s; prune := prune s; fHodo := h; fTracks := fTracks s;
     fGoldenTrack := fGoldenTrack s; fTrkIfo := fTrkIfo s; fTrk := fTrk s;
     fChi2Min := fChi2Min s; fGoodTrack := fGoodTrack s |}.

Definition set_recon (c : Config) (r : Recon) : Config :=
  {| fProperties := fProperties c; recon := r; fPartMass := fPartMass c;
     fSelUsingScin := fSelUsingScin c; fSelUsingPrune := fSelUsingPrune c;
     fNPlanes := fNPlanes c; sel := sel c |}.

Definition set_fReconTerms (r : Recon) (terms : list reconTerm) : Recon :=
  {| fReconTerms := terms;
     fAngSlope_x := fAngSlope_x r; fAngSlope_y := fAngSlope_y r;
     fAngOffset_x := fAngOffset_x r; fAngOffset_y := fAngOffset_y r;
     fDetOffset_x := fDetOffset_x r; fDetOffset_y := fDetOffset_y r;
     fZTrueFocus := fZTrueFocus r;
     fThetaOffset := fThetaOffset r; fPhiOffset := fPhiOffset r;
     fDeltaOffset := fDeltaOffset r; fPcentral := fPcentral r |}.

Definition set_fPcentral (r : Recon) (p : Q) : Recon :=
  {| fReconTerms := fReconTerms r;
     fAngSlope_x := fAngSlope_x r; fAngSlope_y := fAngSlope_y r;
     fAngOffset_x := fAngOffset_x r; fAngOffset_y := fAngOffset_y r;
     fDetOffset_x := fDetOffset_x r; fDetOffset_y := fDetOffset_y r;
     fZTrueFocus := fZTrueFocus r;
     fThetaOffset := fThetaOffset r; fPhiOffset := fPhiOffset r;
     fDeltaOffset := fDeltaOffset r; fPcentral := p |}.

Definition set_spectro (u : SpectrometerSetup) (s : THcHallCSpectrometer) :=
  {| spectro := s; fStatus := fStatus u; fNReconTerms := fNReconTerms u;
     fThetaCentralOffset := fThetaCentralOffset u;
     fOopCentralOffset := fOopCentralOffset u;
     fPCentralOffset := fPCentralOffset u; fTheta_lab := fTheta_lab u;
     fCentralAngles := fCentralAngles u |}.

Definition set_fStatus (u : SpectrometerSetup) (st : EStatus) :=
  {| spectro := spectro u; fStatus := st; fNReconTerms := fNReconTerms u;
     fThetaCentralOffset := fThetaCentralOffset u;
     fOopCentralOffset := fOopCentralOffset u;
     fPCentralOffset := fPCentralOffset u; fTheta_lab := fTheta_lab u;
     fCentralAngles := fCentralAngles u |}.

(** [fNReconTerms = n; fReconTerms = terms]. *)
Definition set_table (u : SpectrometerSetup) (n : Z)
  (terms : list reconTerm) : SpectrometerSetup :=
  let s := spectro u in
  {| spectro :=
       set_cfg s (set_recon (cfg s)
                    (set_fReconTerms (recon (cfg s)) terms));
     fStatus := fStatus u; fNReconTerms := n;
     fThetaCentralOffset := fThetaCentralOffset u;
     fOopCentralOffset := fOopCentralOffset u;
     fPCentralOffset := fPCentralOffset u; fTheta_lab := fTheta_lab u;
     fCentralAngles := fCentralAngles u |}.

(** The constructor: [SetTrSorting(kTRUE)] on the new object. *)
Definition Constructor {E : Externals} (c : Config) : Config :=
  SetTrSorting c true.

(** Lines 146-157. *)
Definition InitializeReconstruction (u : SpectrometerSetup)
  : SpectrometerSetup :=
  let s := spectro u in
  let r := recon (cfg s) in
  {| spectro :=
       set_cfg s
         (set_recon (cfg s)
            {| fReconTerms := [];
               fAngSlope_x := 0; fAngSlope_y := 0;
               fAngOffset_x := 0; fAngOffset_y := 0;
               fDetOffset_x := 0; fDetOffset_y := 0;
               fZTrueFocus := 0;
               fThetaOffset := fThetaOffset r; fPhiOffset := fPhiOffset r;
               fDeltaOffset := fDeltaOffset r; fPcentral := fPcentral r |});
     fStatus := fStatus u; fNReconTerms := 0%Z;
     fThetaCentralOffset := fThetaCentralOffset u;
     fOopCentralOffset := fOopCentralOffset u;
     fPCentralOffset := fPCentralOffset u; fTheta_lab := fTheta_lab u;
     fCentralAngles := fCentralAngles u |}.

(** Line 237: the members after [LoadParmValues]. *)
Definition LoadParmValues (db : DBValues) (u : SpectrometerSetup)
  : SpectrometerSetup :=
  let s := spectro u in
  let c := cfg s in
  let r := recon c in
  {| spectro :=
       {| cfg :=
            {| fProperties := fProperties c;
               recon :=
                 {| fReconTerms := fReconTerms r;
                    fAngSlope_x := fAngSlope_x r;
                    fAngSlope_y := fAngSlope_y r;
                    fAngOffset_x := fAngOffset_x r;
                    fAngOffset_y := fAngOffset_y r;
                    fDetOffset_x := fDetOffset_x r;
                    fDetOffset_y := fDetOffset_y r;
                    fZTrueFocus := fZTrueFocus r;
                    fThetaOffset := theta_offset db;
                    fPhiOffset := phi_offset db;
                    fDeltaOffset := delta_offset db;
                    fPcentral := pcentral db |};
               fPartMass := partmass db;
               fSelUsingScin := sel_using_scin db;
               fSelUsingPrune := sel_using_prune db;
               fNPlanes := hodo_num_planes db;
               sel := sel_values db |};
          prune := prune_values db;
          fHodo := fHodo s; fTracks := fTracks s;
          fGoldenTrack := fGoldenTrack s; fTrkIfo := fTrkIfo s;
          fTrk := fTrk s; fChi2Min := fChi2Min s;
          fGoodTrack := fGoodTrack s |};
     fStatus := fStatus u; fNReconTerms := fNReconTerms u;
     fThetaCentralOffset := thetacentral_offset db;
     fOopCentralOffset := oopcentral_offset db;
     fPCentralOffset := pcentral_offset db;
     fTheta_lab := theta_lab db;
     fCentralAngles := fCentralAngles u |}.

(** Lines 256-261: the central momentum and the central angles. *)
Definition central_kinematics {D : DBExternals} (u : SpectrometerSetup)
  : SpectrometerSetup :=
  let s := spectro u in
  let r := recon (cfg s) in
  let fPcentral' := fPcentral r * (1 + fPCentralOffset u / 100) in
  let fTheta_lab' := fTheta_lab u + fThetaCentralOffset u * RadToDeg in
  let ph := 0 + fPhiOffset r * RadToDeg in
  {| spectro := set_cfg s (set_recon (cfg s) (set_fPcentral r fPcentral'));
     fStatus := fStatus u; fNReconTerms := fNReconTerms u;
     fThetaCentralOffset := fThetaCentralOffset u;
     fOopCentralOffset := fOopCentralOffset u;
     fPCentralOffset := fPCentralOffset u;
     fTheta_lab := fTheta_lab';
     fCentralAngles := Some (fTheta_lab', ph) |}.

(** *** The coefficient file *)

Definition newline : Ascii.ascii := "010"%char.

(** The content of a file as the lines that end in a newline, and the
    characters after the last newline. *)
Fixpoint split_lines (content : String.string)
  : list String.string * String.string :=
  match content with
  | String.EmptyString => ([], String.EmptyString)
  | String.String c rest =>
      let (ls, tl) := split_lines rest in
      if Ascii.eqb c newline then (String.EmptyString :: ls, tl)
      else match ls with
           | [] => ([], String.String c tl)
           | l :: ls' => (String.String c l :: ls', tl)
           end
  end.

(** Modelled from the spec: the coefficient file is a text stream read
    line by line.  The stream is a [std::ifstream] (C++ standard library,
    outside src/), open on the file: the lines not yet read, the
    characters after the last newline, and [good()]. *)
Record ifstream : Type := {
  rest_lines : list String.string;
  rest_tail : String.string;
  good : bool
}.

Definition ifstream_open (content : String.string) : ifstream :=
  {| rest_lines := fst (split_lines content);
     rest_tail := snd (split_lines content);
     good := true |}.

(** Modelled from the spec: one line is read from the stream,
    [std::getline(ifile, line)] of the C++ standard library.  On a stream
    that is not good the string is left as it is.  Otherwise the
    characters up to the next newline are stored and the newline is
    dropped; when the end of the file comes first, what was left is stored
    (nothing, for a file that ends in a newline) and the stream is no
    longer good: [eofbit] is set, with [failbit] when nothing was read. *)
Definition getline (f : ifstream) (line : String.string)
  : ifstream * String.string :=
  if good f then
    match rest_lines f with
    | l :: ls =>
        ({| rest_lines := ls; rest_tail := rest_tail f; good := true |}, l)
    | [] =>
        ({| rest_lines := []; rest_tail := String.EmptyString;
            good := false |}, rest_tail f)
    end
  else (f, line).

(** [while (good && cond(line)) { body; good = getline(ifile, line).good(); }]
    on a good stream, by recursion on the lines that are left; [good] is
    the state of the stream it was last assigned from. *)
Fixpoint getline_loop {A : Type} (cond : String.string -> bool)
  (body : String.string -> A -> A)
  (ls : list String.string) (tl : String.string)
  (line : String.string) (acc : A) : ifstream * String.string * A :=
  if cond line then
    match ls with
    | l :: ls' => getline_loop cond body ls' tl l (body line acc)
    | [] =>
        ({| rest_lines := []; rest_tail := String.EmptyString;
            good := false |}, tl, body line acc)
    end
  else ({| rest_lines := ls; rest_tail := tl; good := true |}, line, acc).

Definition getline_while {A : Type} (cond : String.string -> bool)
  (body : String.string -> A -> A)
  (f : ifstream) (line : String.string) (acc : A)
  : ifstream * String.string * A :=
  if good f then
    getline_loop cond body (rest_lines f) (rest_tail f) line acc
  else (f, line, acc).

(** [line[0] == '!']; [line[0]] of an empty string is the null
    character. *)
Definition is_comment (line : String.string) : bool :=
  match String.get 0 line with
  | Some c => Ascii.eqb c "!"%char
  | None => false
  end.

(** [line.compare(0, 4, " ---") == 0] *)
Definition is_separator (line : String.string) : bool :=
  String.eqb (String.substring 0 4 line) " ---"%string.

(** Lines 273-311: the state of the stream, the counter and the table
    after the three loops. *)
Definition read_coefficients {D : DBExternals} (ifile : ifstream)
  : ifstream * (Z * list reconTerm) :=
  let line := "!"%string in
  let '(ifile, line, _) :=
    getline_while is_comment (fun _ u => u) ifile line tt in
  let '(ifile, line, _) :=
    getline_while (fun l => negb (is_separator l)) (fun _ u => u)
      ifile line tt in
  let line := " "%string in
  let (ifile, line) := getline ifile line in
  let '(ifile, _, table) :=
    getline_while (fun l => negb (is_separator l))
      (fun l table =>
         ((fst table + 1)%Z, snd table ++ [sscanf_term l]))
      ifile line (0%Z, []) in
  (ifile, table).

(** ReadDatabase.  [det] is [dynamic_cast<THcHodoscope*>(GetDetector("hod"))],
    [db] what the parameter store gives, and [fs] the file system: the
    content of the file of a name, when it can be opened.  The printing
    and [fPointingOffset], which nothing in the file reads, are left
    out. *)
Definition ReadDatabase {D : DBExternals}
  (det : option THcHodoscope) (db : DBValues)
  (fs : String.string -> option String.string)
  (u : SpectrometerSetup) : EStatus * SpectrometerSetup :=
  match det with
  | None => (kInitError, set_fStatus u kInitError)
  | Some hod =>
      let u := set_spectro u (set_fHodo (spectro u) hod) in
      let u := InitializeReconstruction u in
      let u := LoadParmValues db u in
      let u := central_kinematics u in
      match fs (reconCoeffFilename db) with
      | None => (kInitError, u)
      | Some content =>
          let (ifile, table) := read_coefficients (ifstream_open content) in
          let u := set_table u (fst table) (snd table) in
          if negb (good ifile) then (kInitError, u) else (kOK, u)
      end
  end.

(** [ReadRunDatabase]: a no-op that returns [kOK]. *)
Definition ReadRunDatabase (u : SpectrometerSetup)
  : EStatus * SpectrometerSetup := (kOK, u).

(** ** Specification-side definitions for the target transform *)

Section TransformSpec.
Context {E : Externals}.

(** One factor of a monomial: a zero exponent is the multiplicative
    identity, with no exponentiation. *)
Definition spec_factor (x : Q) (e : Z) : Q :=
  if (e =? 0)%Z then 1 else pow x e.

(** The product over the five rotated focal-plane coordinates. *)
Definition spec_monomial (x : nat -> Q) (t : reconTerm) : Q :=
  spec_factor (x 0%nat) (Exp t 0%nat)
  * spec_factor (x 1%nat) (Exp t 1%nat)
  * spec_factor (x 2%nat) (Exp t 2%nat)
  * spec_factor (x 3%nat) (Exp t 3%nat)
  * spec_factor (x 4%nat) (Exp t 4%nat).

(** [sum[k]]: the sum over all terms of the [k]-th coefficient times
    the monomial. *)
Definition spec_sum (x : nat -> Q) (terms : list reconTerm) (k : nat) : Q :=
  fold_right (fun t acc => Coeff t k * spec_monomial x t + acc) 0 terms.

End TransformSpec.

(** ** Sample instances, used to run the model on concrete events *)

(** [TMath::Nint] on rationals: round to nearest, halves to the even
    neighbour. *)
Definition Nint_half_even (x : Q) : Z :=
  let trunc (q : Q) : Z := Z.quot (Qnum q) (Zpos (Qden q)) in
  if Qgeb x 0 then
    let i := trunc (x + 0.5) in
    if Z.odd i && Qeqb (x + 0.5) (inject_Z i) then (i - 1)%Z else i
  else
    let i := trunc (x - 0.5) in
    if Z.odd i && Qeqb (x - 0.5) (inject_Z i) then (i + 1)%Z else i.

(** A square root that is exact on squares of rationals. *)
Definition Qsqrt (q : Q) : Q :=
  Z.sqrt (Qnum q * Zpos (Qden q)) # Qden q.

Definition sample_externals : Externals :=
  {| pow := Qpower; Sqrt := Qsqrt; Nint := Nint_half_even;
     kSortTracks := 16384 |}.

(** The table of the end-to-end example: the single term
    [coeff = [1,0,0,0]], [exp = [1,0,0,0,0]], and every offset zero. *)
Definition single_term : reconTerm :=
  {| Coeff := array4 1 0 0 0; Exp := array5 1%Z 0%Z 0%Z 0%Z 0%Z |}.

Definition recon_single : Recon :=
  {| fReconTerms := [single_term];
     fAngSlope_x := 0; fAngSlope_y := 0;
     fAngOffset_x := 0; fAngOffset_y := 0;
     fDetOffset_x := 0; fDetOffset_y := 0;
     fZTrueFocus := 0;
     fThetaOffset := 0; fPhiOffset := 0; fDeltaOffset := 0;
     fPcentral := 1 |}.

(** The candidate of the example: focal-plane x = 2.0. *)
Definition track_x2 : THaTrack :=
  {| GetX := 2; GetY := 0; GetTheta := 0; GetPhi := 0;
     GetChi2 := 0; GetNDoF := 1;
     GetDedx := 0; GetBeta := 0; GetEnergy := 0;
     GetBetaChi2 := 0; GetFPTime := 0; GetNPMT := 0;
     GetGoodPlane3 := 0; GetGoodPlane4 := 0;
     GetTX := 0; GetTY := 0; GetTTheta := 0; GetTPhi := 0;
     GetDp := 0; GetP := 0 |}.

(** A hodoscope with four planes of ten paddles and no hit. *)
Definition hodo_nohit : THcHodoscope :=
  {| GetNPaddles := fun _ => 10%nat;
     GetNScinHits := fun _ => 0%nat;
     GetGoodRawPad := fun _ => 0%Z;
     GetPlaneCenter := fun _ => 0;
     GetPlaneSpacing := fun _ => 1;
     GetStartTimeCenter := 0 |}.

Definition sel_open : SelCuts :=
  {| fSelNDegreesMin := 0;
     fSeldEdX1Min := -1; fSeldEdX1Max := 1;
     fSelBetaMin := -1; fSelBetaMax := 1;
     fSelEtMin := -1; fSelEtMax := 1;
     fScin2XZpos := 0; fScin2XdZpos := 0;
     fScin2YZpos := 0; fScin2YdZpos := 0 |}.

Definition prune_floor : PruneCuts :=
  {| fPruneXp := 0.08; fPruneYp := 0.04; fPruneYtar := 4.0;
     fPruneDelta := 13.0; fPruneBeta := 0.1; fPruneDf := 1.0;
     fPruneChiBeta := 2.0; fPruneFpTime := 5.0; fPruneNPMT := 6.0 |}.

(** A configuration with the given property word and strategy flags. *)
Definition sample_cfg (props scin prn : Z) : Config :=
  {| fProperties := props; recon := recon_single; fPartMass := 0;
     fSelUsingScin := scin; fSelUsingPrune := prn;
     fNPlanes := 4; sel := sel_open |}.

(** The object at the start of an event, with the golden reference as the
    previous event left it. *)
Definition sample_state (c : Config) (p : PruneCuts) (h : THcHodoscope)
  (tracks : list THaTrack) (golden : option nat) : THcHallCSpectrometer :=
  {| cfg := c; prune := p; fHodo := h; fTracks := tracks;
     fGoldenTrack := golden; fTrkIfo := None; fTrk := golden;
     fChi2Min := 0; fGoodTrack := 0 |}.

(** A track with the given chi-square, one degree of freedom and every
    other field at zero. *)
Definition track_chi2 (chi2 : Q) : THaTrack :=
  {| GetX := 0; GetY := 0; GetTheta := 0; GetPhi := 0;
     GetChi2 := chi2; GetNDoF := 1;
     GetDedx := 0; GetBeta := 0; GetEnergy := 0;
     GetBetaChi2 := 0; GetFPTime := 0; GetNPMT := 0;
     GetGoodPlane3 := 0; GetGoodPlane4 := 0;
     GetTX := 0; GetTY := 0; GetTTheta := 0; GetTPhi := 0;
     GetDp := 0; GetP := 0 |}.

(** Thresholds below the floors of the prune selection. *)
Definition prune_low : PruneCuts :=
  {| fPruneXp := 0.05; fPruneYp := 0.01; fPruneYtar := 1;
     fPruneDelta := 1; fPruneBeta := 0.01; fPruneDf := 0;
     fPruneChiBeta := 1; fPruneFpTime := 1; fPruneNPMT := 1 |}.

(** A track at focal-plane position [(x, y)] with the given chi-square
    and beta, one degree of freedom, everything else at zero. *)
Definition sample_track (x y chi2 beta : Q) : THaTrack :=
  {| GetX := x; GetY := y; GetTheta := 0; GetPhi := 0;
     GetChi2 := chi2; GetNDoF := 1;
     GetDedx := 0; GetBeta := beta; GetEnergy := 0;
     GetBetaChi2 := 0; GetFPTime := 0; GetNPMT := 0;
     GetGoodPlane3 := 0; GetGoodPlane4 := 0;
     GetTX := 0; GetTY := 0; GetTTheta := 0; GetTPhi := 0;
     GetDp := 0; GetP := 0 |}.

(** Four planes of ten paddles, one hit in each of the planes 2 and 3,
    and a flat hit list that answers paddle index 4 at every position. *)
Definition hodo_pad4 : THcHodoscope :=
  {| GetNPaddles := fun _ => 10%nat;
     GetNScinHits := fun ip => if Nat.leb 2 ip then 1%nat else 0%nat;
     GetGoodRawPad := fun _ => 4%Z;
     GetPlaneCenter := fun _ => 0;
     GetPlaneSpacing := fun _ => 1;
     GetStartTimeCenter := 0 |}.

(** Four planes of ten paddles, one hit in each of the planes 2 and 3:
    the accessor answers paddle index 7 at position 0, paddle index 8 at
    position 1 and paddle index 0 at every other position. *)
Definition hodo_two_hits : THcHodoscope :=
  {| GetNPaddles := fun _ => 10%nat;
     GetNScinHits := fun ip => if Nat.leb 2 ip then 1%nat else 0%nat;
     GetGoodRawPad :=
       fun i => if (i =? 0)%Z then 7%Z else if (i =? 1)%Z then 8%Z else 0%Z;
     GetPlaneCenter := fun _ => 0;
     GetPlaneSpacing := fun _ => 1;
     GetStartTimeCenter := 0 |}.

Definition sel_ndof5 : SelCuts :=
  {| fSelNDegreesMin := 5;
     fSeldEdX1Min := -1; fSeldEdX1Max := 1;
     fSelBetaMin := -1; fSelBetaMax := 1;
     fSelEtMin := -1; fSelEtMax := 1;
     fScin2XZpos := 0; fScin2XdZpos := 0;
     fScin2YZpos := 0; fScin2YdZpos := 0 |}.

(** The scintillator mode alone, with a degrees-of-freedom cut that no
    sample track passes. *)
Definition cfg_scin_ndof5 : Config :=
  {| fProperties := 0; recon := recon_single; fPartMass := 0;
     fSelUsingScin := 1; fSelUsingPrune := 0;
     fNPlanes := 4; sel := sel_ndof5 |}.

(** Two qualifying candidates; the first sits on the hit paddles, the
    second four paddles away. *)
Definition ev_scin_two : THcHallCSpectrometer :=
  sample_state (sample_cfg 0 1 0) prune_floor hodo_pad4
    [sample_track 4 (-4) 5 0; sample_track 0 0 1 0] None.

(** The same event with a chi-square of 2e10 for the first candidate. *)
Definition ev_scin_sentinel : THcHallCSpectrometer :=
  sample_state (sample_cfg 0 1 0) prune_floor hodo_pad4
    [sample_track 4 (-4) 2e10 0; sample_track 0 0 1 0] None.

(** Two candidates that pass the degrees-of-freedom cut and fail the
    beta range. *)
Definition ev_scin_unqualified : THcHallCSpectrometer :=
  sample_state (sample_cfg 0 1 0) prune_floor hodo_nohit
    [sample_track 0 0 5 7; sample_track 0 0 3 7] None.

(** One candidate that fails the degrees-of-freedom cut, in an object
    whose golden reference still points at slot 3 of an earlier event. *)
Definition ev_scin_stale : THcHallCSpectrometer :=
  sample_state cfg_scin_ndof5 prune_floor hodo_nohit
    [sample_track 0 0 1 0] (Some 3%nat).

(** One candidate that passes the degrees-of-freedom cut, fails the beta
    range and has a chi-square of 2e10; the same stale golden
    reference. *)
Definition ev_scin_stale_sentinel : THcHallCSpectrometer :=
  sample_state (sample_cfg 0 1 0) prune_floor hodo_nohit
    [sample_track 0 0 2e10 7] (Some 3%nat).


(** Two candidates of which exactly the first qualifies. *)
Definition ev_scin_one_of_two : THcHallCSpectrometer :=
  sample_state (sample_cfg 0 1 0) prune_floor hodo_two_hits
    [sample_track 0 0 3 0; sample_track 0 0 5 7] None.

(** A configuration with particle mass 4 (so that a momentum of 3 gives
    beta = 3/5 exactly). *)
Definition sample_cfg_mass4 (scin prn : Z) : Config :=
  {| fProperties := 0; recon := recon_single; fPartMass := 4;
     fSelUsingScin := scin; fSelUsingPrune := prn;
     fNPlanes := 4; sel := sel_open |}.

(** A track that passes every prune cut at the floor thresholds except,
    depending on its target angles, the cuts on xptar and yptar. *)
Definition prune_track (ttheta tphi chi2 : Q) : THaTrack :=
  {| GetX := 0; GetY := 0; GetTheta := 0; GetPhi := 0;
     GetChi2 := chi2; GetNDoF := 1;
     GetDedx := 0; GetBeta := 3 # 5; GetEnergy := 0;
     GetBetaChi2 := 1; GetFPTime := 0; GetNPMT := 8;
     GetGoodPlane3 := 1; GetGoodPlane4 := 1;
     GetTX := 0; GetTY := 0; GetTTheta := ttheta; GetTPhi := tphi;
     GetDp := 0; GetP := 3 |}.

(** Exactly one candidate passes the first cut and none passes the
    second. *)
Definition ev_prune_soft : THcHallCSpectrometer :=
  sample_state (sample_cfg_mass4 0 1) prune_floor hodo_nohit
    [prune_track 0 1 4; prune_track 1 1 2] None.

(** The first candidate fails the cut on xptar; the other two pass every
    cut. *)
Definition ev_prune_three : THcHallCSpectrometer :=
  sample_state (sample_cfg_mass4 0 1) prune_floor hodo_nohit
    [prune_track 1 0 1; prune_track 0 0 5; prune_track 0 0 3] None.

(** The same three candidates with both strategy flags set. *)
Definition ev_both_flags : THcHallCSpectrometer :=
  sample_state (sample_cfg_mass4 1 1) prune_floor hodo_nohit
    [prune_track 1 0 1; prune_track 0 0 5; prune_track 0 0 3] None.

(** The first candidate fails the cut on xptar; the only kept candidate
    has a chi-square of 2e10. *)
Definition ev_prune_sentinel : THcHallCSpectrometer :=
  sample_state (sample_cfg_mass4 0 1) prune_floor hodo_nohit
    [prune_track 1 0 1; prune_track 0 0 2e10] None.

(** Four planes of two hundred paddles, one hit in each of the planes 2
    and 3, every position of the flat hit list answering paddle index
    0. *)
Definition hodo_wide : THcHodoscope :=
  {| GetNPaddles := fun _ => 200%nat;
     GetNScinHits := fun ip => if Nat.leb 2 ip then 1%nat else 0%nat;
     GetGoodRawPad := fun _ => 0%Z;
     GetPlaneCenter := fun _ => 0;
     GetPlaneSpacing := fun _ => 1;
     GetStartTimeCenter := 0 |}.

(** Two qualifying candidates, 150 and 120 paddles away from the hit of
    the Y plane. *)
Definition ev_scin_wide : THcHallCSpectrometer :=
  sample_state (sample_cfg 0 1 0) prune_floor hodo_wide
    [sample_track 0 (-150) 1 0; sample_track 0 (-120) 2 0] None.


(** ** Definitions used in the statements *)

(** Every offset of the reconstruction is zero. *)
Definition zero_offsets (r : Recon) : Prop :=
  fAngSlope_x r == 0 /\ fAngSlope_y r == 0 /\
  fAngOffset_x r == 0 /\ fAngOffset_y r == 0 /\
  fDetOffset_x r == 0 /\ fDetOffset_y r == 0 /\
  fZTrueFocus r == 0 /\
  fThetaOffset r == 0 /\ fPhiOffset r == 0 /\ fDeltaOffset r == 0.

Section Blocks.
Context {E : Externals}.

(** TrackCalc as the three guarded blocks in sequence. *)
Definition blockA (s : THcHallCSpectrometer) : THcHallCSpectrometer :=
  if (fSelUsingScin (cfg s) =? 0)%Z && (fSelUsingPrune (cfg s) =? 0)%Z
  then SortedFirst s else s.
Definition blockB (s : THcHallCSpectrometer) : THcHallCSpectrometer :=
  if (fSelUsingScin (cfg s) =? 1)%Z then SelectUsingScin s else s.
Definition blockC (s : THcHallCSpectrometer) : THcHallCSpectrometer :=
  if (fSelUsingPrune (cfg s) =? 1)%Z then SelectUsingPrune s else s.

End Blocks.

(** Ascending order of chi-square per degree of freedom: every element
    is at most each later one. *)
Fixpoint ascending (l : list THaTrack) : Prop :=
  match l with
  | [] => True
  | t :: l' =>
      (forall u, In u l' -> Chi2PerDeg t <= Chi2PerDeg u) /\ ascending l'
  end.


(** Two states of the object with the same configuration, thresholds,
    hodoscope and track array. *)
Definition same_setup (s1 s2 : THcHallCSpectrometer) : Prop :=
  cfg s1 = cfg s2 /\ prune s1 = prune s2 /\ fHodo s1 = fHodo s2 /\
  fTracks s1 = fTracks s2.

(** Every prune threshold is at or above its floor. *)
Definition above_floors (p : PruneCuts) : Prop :=
  0.08 <= fPruneXp p /\ 0.04 <= fPruneYp p /\ 4.0 <= fPruneYtar p /\
  13.0 <= fPruneDelta p /\ 0.1 <= fPruneBeta p /\ 1.0 <= fPruneDf p /\
  2.0 <= fPruneChiBeta p /\ 5.0 <= fPruneFpTime p /\ 6.0 <= fPruneNPMT p.

(** The nine thresholds have the same values. *)
Definition prune_eq (p q : PruneCuts) : Prop :=
  fPruneXp p == fPruneXp q /\ fPruneYp p == fPruneYp q /\
  fPruneYtar p == fPruneYtar q /\ fPruneDelta p == fPruneDelta q /\
  fPruneBeta p == fPruneBeta q /\ fPruneDf p == fPruneDf q /\
  fPruneChiBeta p == fPruneChiBeta q /\ fPruneFpTime p == fPruneFpTime q /\
  fPruneNPMT p == fPruneNPMT q.

Section PruneStatements.
Context {E : Externals}.

(** Some candidate of the event is marked kept. *)
Definition kept_nonempty (tracks : list THaTrack) (w : PruneWork) : Prop :=
  exists i t, nth_error tracks i = Some t /\ fKeep w i = true.

(** Some candidate currently marked kept passes the cut. *)
Definition kept_passes (tracks : list THaTrack) (w : PruneWork)
  (c : PruneCut) : Prop :=
  exists i t, nth_error tracks i = Some t /\ fKeep w i = true
              /\ cut_pass c t = true.

(** The cut is enforced between [w] and [w']: every candidate that fails
    it is marked not-kept and its rejection code grows by the cut's
    contribution; the other candidates keep their marks and codes. *)
Definition cut_enforced (tracks : list THaTrack) (c : PruneCut)
  (w w' : PruneWork) : Prop :=
  forall i t, nth_error tracks i = Some t ->
    fKeep w' i = (if cut_fail c t then false else fKeep w i) /\
    fReject w' i
    = (if cut_fail c t then fReject w i + cut_code c else fReject w i)%Z.

End PruneStatements.

Section PruneFinal.
Context {E : Externals}.

(** The workspace of the prune selection after its last block, as
    TrackCalc builds it from the object at entry. *)
Definition prune_final (s : THcHallCSpectrometer) : PruneWork :=
  let s := set_prune s (clamp_prune (prune s)) in
  prune_after (length (prune_cuts s)) s.

End PruneFinal.

Section ScinStatements.
Context {E : Externals}.

(** A candidate qualifies when it passes the degrees-of-freedom cut and
    the range cuts. *)
Definition qualifies (c : Config) (t : THaTrack) : bool :=
  passes_ndof (sel c) t && passes_ranges (sel c) t.

(** Candidate [g] (track [tg]) is at least as good as candidate [j]
    (track [u]) under the scores held in [w]: the pair (Y-plane distance,
    X-plane distance) is compared lexicographically, and equal pairs by
    chi-square per degree of freedom. *)
Definition no_worse (w : ScinLocals) (g : nat) (tg : THaTrack)
  (j : nat) (u : THaTrack) : Prop :=
  fY2D w g < fY2D w j \/
  (fY2D w g == fY2D w j /\ fX2D w g < fX2D w j) \/
  (fY2D w g == fY2D w j /\ fX2D w g == fX2D w j
   /\ Chi2PerDeg tg <= Chi2PerDeg u).

(** The scores and the chi-square per degree of freedom of every
    qualifying candidate of [done] stay within the values the running
    minima start from. *)
Definition scin_bounds (c : Config) (done : list THaTrack) (w : ScinLocals)
  : Prop :=
  forall j u, nth_error done j = Some u -> qualifies c u = true ->
              fY2D w j <= 100 /\ fX2D w j <= 100 /\ Chi2PerDeg u < 1e10.

(** The state of the first loop after the candidates [done]: nothing
    chosen yet, or the best qualifying candidate so far. *)
Definition scin_chosen (c : Config) (done : list THaTrack)
  (st : ScinLocals * THcHallCSpectrometer) : Prop :=
  ((forall j u, nth_error done j = Some u -> qualifies c u = false) /\
   fY2Dmin (fst st) = 100 /\ fX2Dmin (fst st) = 100 /\
   fChi2Min (snd st) = 1e10 /\ fGoodTrack (snd st) = (-1)%Z)
  \/
  (exists g t,
      nth_error done g = Some t /\ qualifies c t = true /\
      fGoodTrack (snd st) = Z.of_nat g /\
      fGoldenTrack (snd st) = Some g /\
      fY2Dmin (fst st) = fY2D (fst st) g /\
      fX2Dmin (fst st) = fX2D (fst st) g /\
      fChi2Min (snd st) = Chi2PerDeg t /\
      forall j u, nth_error done j = Some u -> qualifies c u = true ->
                  no_worse (fst st) g t j u).

End ScinStatements.

Section ScinPrefix.
Context {E : Externals}.

(** The number of hits in the planes [0 .. nplanes-1]: the number of
    positions of the flat hit list that one walk over the planes reads. *)
Definition total_hits (hodo : THcHodoscope) (nplanes : Z) : Z :=
  for_loop (Z.to_nat nplanes)
    (fun ip n => (n + Z.of_nat (GetNScinHits hodo ip))%Z) 0%Z.

End ScinPrefix.

(** ** The quotients of the selections *)

(** chi2/ndof is a number for the candidate: the divisor of lines 473,
    607 and 853 is not zero. *)
Definition chi2_defined (t : THaTrack) : Prop := GetNDoF t <> 0%Z.

Section BetaDefined.
Context {E : Externals}.

(** The beta from the momentum is a number for the candidate: the
    divisor of lines 734 and 742, [Sqrt(fP*fP + m*m)], is not zero. *)
Definition beta_defined (m : Q) (t : THaTrack) : Prop :=
  ~ Sqrt (GetP t * GetP t + m * m) == 0.

(** The same for every candidate of the event. *)
Definition beta_defined_event (s : THcHallCSpectrometer) : Prop :=
  forall t, In t (fTracks s) -> beta_defined (fPartMass (cfg s)) t.

End BetaDefined.

(** The paddle spacing of the planes 2 and 3 is not zero: the divisors of
    lines 510 and 537, from which the counter a track points at is
    computed. *)
Definition spacing_defined (hodo : THcHodoscope) : Prop :=
  ~ GetPlaneSpacing hodo 2 == 0 /\ ~ GetPlaneSpacing hodo 3 == 0.

(** ** Definitions used in the statements about the coefficient file *)

(** The text of a file: every line followed by a newline, then the
    characters [tl] after the last newline. *)
Fixpoint file_text (ls : list String.string) (tl : String.string)
  : String.string :=
  match ls with
  | [] => tl
  | l :: ls' => String.append l (String.String newline (file_text ls' tl))
  end.

(** The string holds no newline. *)
Fixpoint one_line (l : String.string) : bool :=
  match l with
  | String.EmptyString => true
  | String.String c r => negb (Ascii.eqb c newline) && one_line r
  end.

(** The counter and the table agree: [fNReconTerms] is the size of
    [fReconTerms]. *)
Definition table_counted (u : SpectrometerSetup) : Prop :=
  fNReconTerms u
  = Z.of_nat (length (fReconTerms (recon (cfg (spectro u))))).

(** Sample instances for the initialisation: a scanner that records the
    length of the line, a parameter store, and the object before
    ReadDatabase. *)
Definition sample_db_externals : DBExternals :=
  {| RadToDeg := 57;
     sscanf_term := fun line =>
       {| Coeff := fun _ => inject_Z (Z.of_nat (String.length line));
          Exp := fun _ => 0%Z |} |}.

Definition sample_db : DBValues :=
  {| reconCoeffFilename := "hms_recon_coeff.dat"%string;
     theta_offset := 0; phi_offset := 0; delta_offset := 0;
     thetacentral_offset := 0; oopcentral_offset := 0;
     pcentral_offset := 1; pcentral := 2; theta_lab := 15;
     partmass := 0;
     sel_using_scin := 0; sel_using_prune := 1;
     sel_values := sel_open;
     hodo_num_planes := 4;
     prune_values := prune_floor |}.

Definition sample_setup : SpectrometerSetup :=
  {| spectro :=
       sample_state (sample_cfg 0 0 0) prune_low hodo_nohit [] None;
     fStatus := kOK; fNReconTerms := 1%Z;
     fThetaCentralOffset := 0; fOopCentralOffset := 0;
     fPCentralOffset := 0; fTheta_lab := 0;
     fCentralAngles := None |}.

(** A file system with the one file [name]. *)
Definition one_file (name content : String.string)
  : String.string -> option String.string :=
  fun n => if String.eqb n name then Some content else None.

(** A coefficient file: a comment, two header lines, and two data lines
    between the separators. *)
Definition sample_lines : list String.string :=
  [ "! hms reconstruction coefficients";
    "h_ang_slope_x = 0.0";
    "! a comment inside the header";
    " ------------------------------";
    " 1.0 0.0 0.0 0.0 10000";
    " 0.0 1.0 0.0 0.0 00100";
    " ------------------------------" ]%string.

(** ** Definitions used in the statements about FindVertices *)

(** Two tracks carry the same target-frame quantities. *)
Definition same_target (t t' : THaTrack) : Prop :=
  GetTX t == GetTX t' /\ GetTY t == GetTY t' /\
  GetTTheta t == GetTTheta t' /\ GetTPhi t == GetTPhi t' /\
  GetDp t == GetDp t' /\ GetP t == GetP t'.

(** What FindVertices reads and never writes: the focal-plane
    coordinates, the fit quality and the quantities set by the other
    detectors. *)
Definition same_focal_plane (t t' : THaTrack) : Prop :=
  GetX t' = GetX t /\ GetY t' = GetY t /\
  GetTheta t' = GetTheta t /\ GetPhi t' = GetPhi t /\
  GetChi2 t' = GetChi2 t /\ GetNDoF t' = GetNDoF t /\
  GetDedx t' = GetDedx t /\ GetBeta t' = GetBeta t /\
  GetEnergy t' = GetEnergy t /\ GetBetaChi2 t' = GetBetaChi2 t /\
  GetFPTime t' = GetFPTime t /\ GetNPMT t' = GetNPMT t /\
  GetGoodPlane3 t' = GetGoodPlane3 t /\ GetGoodPlane4 t' = GetGoodPlane4 t.

(** The terms of the table that do not involve the fifth coordinate
    (the raster position). *)
Definition raster_free (terms : list reconTerm) : list reconTerm :=
  filter (fun t => (Exp t 4%nat =? 0)%Z) terms.

(** A second term, in the third coordinate, and one that involves the
    raster. *)
Definition second_term : reconTerm :=
  {| Coeff := array4 0 2 0 0; Exp := array5 0%Z 0%Z 1%Z 0%Z 0%Z |}.
Definition raster_term : reconTerm :=
  {| Coeff := array4 5 5 5 5; Exp := array5 1%Z 0%Z 0%Z 0%Z 2%Z |}.

(** ** Definitions used in the statements about TrackCalc *)

(** One of the three blocks of TrackCalc runs. *)
Definition strategy_active (c : Config) : Prop :=
  (fSelUsingScin c = 0%Z /\ fSelUsingPrune c = 0%Z)
  \/ fSelUsingScin c = 1%Z \/ fSelUsingPrune c = 1%Z.

(** The golden reference, [fTrk] and the copy [fTrkIfo] agree: they
    are slot [g] of the track array, which holds [t]. *)
Definition golden_is (x : THcHallCSpectrometer) (g : nat) (t : THaTrack)
  : Prop :=
  fGoldenTrack x = Some g /\ fTrk x = Some g /\ fTrkIfo x = Some t
  /\ nth_error (fTracks x) g = Some t.

(** The golden reference, [fTrk] and [fTrkIfo] are what they were in
    [s]. *)
Definition golden_untouched (s x : THcHallCSpectrometer) : Prop :=
  fGoldenTrack x = fGoldenTrack s /\ fTrk x = fTrk s
  /\ fTrkIfo x = fTrkIfo s.

(** An empty event in an object that still holds the golden track of
    the event before. *)
Definition ev_empty_after (scin prn : Z) : THcHallCSpectrometer :=
  {| cfg := sample_cfg 0 scin prn; prune := prune_floor;
     fHodo := hodo_nohit; fTracks := [];
     fGoldenTrack := Some 3%nat; fTrkIfo := Some (track_chi2 7);
     fTrk := Some 3%nat; fChi2Min := 0; fGoodTrack := 0 |}.

(** The golden reference is as at entry, or it is a candidate of the
    event that passes the degrees-of-freedom cut. *)
Definition golden_candidate (c : Config) (s x : THcHallCSpectrometer)
  : Prop :=
  golden_untouched s x \/
  exists g t, golden_is x g t /\ passes_ndof (sel c) t = true.

(** The paddles of a plane that carry a hit mark, in paddle order, and
    the distance in paddles between the predicted counter [fHitCnt]
    (counted from 1) and paddle [i] (counted from 0). *)
Definition hit_paddles (hits : nat -> Z) (npad : nat) : list nat :=
  filter (fun i => (hits i =? 0)%Z) (seq 0 npad).

Definition paddle_distance (fHitCnt : Z) (i : nat) : Q :=
  inject_Z (TMath.AbsInt (fHitCnt - Z.of_nat i - 1)).

(** ** Definitions used in the statements about the prune selection *)

(** The candidate passes every cut of the list. *)
Definition passes_all (cuts : list PruneCut) (t : THaTrack) : bool :=
  forallb (fun c => cut_pass c t) cuts.

(** The contributions of the cuts of the list that the candidate fails,
    added up in the order of the list. *)
Definition reject_code (cuts : list PruneCut) (t : THaTrack) : Z :=
  fold_left
    (fun acc c => if cut_fail c t then (acc + cut_code c)%Z else acc)
    cuts 0%Z.

Section PruneClamped.
Context {E : Externals}.

(** The eleven cuts with the thresholds as TrackCalc uses them, raised
    to their floors. *)
Definition prune_cuts_clamped (s : THcHallCSpectrometer) : list PruneCut :=
  prune_cuts (set_prune s (clamp_prune (prune s))).

End PruneClamped.

(** ** Definitions used in the statements about the hit marks *)

(** The number of hits in the planes before plane [ip]: the position of
    the first hit of plane [ip] in the flat hit list, counted from the
    position after the running index. *)
Definition hits_before (hodo : THcHodoscope) (ip : nat) : Z :=
  for_loop ip (fun q n => (n + Z.of_nat (GetNScinHits hodo q))%Z) 0%Z.

(** The number of hits of plane [ip] that the walk over the planes
    [0 .. nplanes-1] visits. *)
Definition walked_hits (hodo : THcHodoscope) (nplanes : Z) (ip : nat)
  : nat :=
  if (ip <? Z.to_nat nplanes)%nat then GetNScinHits hodo ip else 0%nat.

(** [x] is [x0] with the mark 0 on exactly the paddles that the flat hit
    list answers at the [n] positions from [base] on. *)
Definition marked_by (pad : Z -> Z) (base : Z) (n : nat)
  (x0 x : nat -> Z) : Prop :=
  (forall p, (exists i, (i < n)%nat /\ pad (base + Z.of_nat i)%Z = Z.of_nat p)
             -> x p = 0%Z) /\
  (forall p, (forall i, (i < n)%nat -> pad (base + Z.of_nat i)%Z <> Z.of_nat p)
             -> x p = x0 p).

(** * Proofs *)

(** ** Comparisons *)

Lemma Qltb_lt (x y : Q) : Qltb x y = true <-> x < y.
Proof.
  unfold Qltb. rewrite Qlt_alt. destruct (x ?= y); split; congruence.
Qed.

Lemma Qltb_ge (x y : Q) : Qltb x y = false <-> y <= x.
Proof.
  unfold Qltb. destruct (Qcompare_spec x y) as [H|H|H]; split; intro K;
    try reflexivity; try discriminate; lra.
Qed.

Lemma Qleb_le (x y : Q) : Qleb x y = true <-> x <= y.
Proof.
  unfold Qleb. destruct (Qcompare_spec x y) as [H|H|H]; split; intro K;
    try reflexivity; try discriminate; lra.
Qed.

Lemma Qleb_gt (x y : Q) : Qleb x y = false <-> y < x.
Proof.
  unfold Qleb. destruct (Qcompare_spec x y) as [H|H|H]; split; intro K;
    try reflexivity; try discriminate; lra.
Qed.

Lemma Qeqb_eq (x y : Q) : Qeqb x y = true <-> x == y.
Proof.
  unfold Qeqb. rewrite Qeq_alt. destruct (x ?= y); split; congruence.
Qed.

(** A block's two tests never hold together: [a < b] excludes [a >= b]. *)
Lemma Qltb_Qgeb (x y : Q) : Qltb x y = true -> Qgeb x y = false.
Proof.
  intro H. apply Qltb_lt in H. unfold Qgeb. apply Qleb_gt. exact H.
Qed.

Lemma Qgeb_Qltb (x y : Q) : Qgeb x y = true -> Qltb x y = false.
Proof.
  intro H. unfold Qgeb in H. apply Qleb_le in H. apply Qltb_ge. exact H.
Qed.

(** ** Arrays and loops *)

Lemma upd_same {A : Type} (a : nat -> A) (i : nat) (v : A) : upd a i v i = v.
Proof. unfold upd. now rewrite Nat.eqb_refl. Qed.

Lemma upd_other {A : Type} (a : nat -> A) (i j : nat) (v : A) :
  j <> i -> upd a i v j = a j.
Proof.
  intro H. unfold upd. apply Nat.eqb_neq in H. now rewrite H.
Qed.

Lemma for_loop_S {S : Type} (n : nat) (body : nat -> S -> S) (s : S) :
  for_loop (Datatypes.S n) body s = body n (for_loop n body s).
Proof.
  unfold for_loop. rewrite seq_S, fold_left_app. reflexivity.
Qed.

(** The rule for a counted loop: an invariant that holds at entry and is
    carried by every iteration holds at exit. *)
Lemma for_loop_inv {S : Type} (P : nat -> S -> Prop)
  (n : nat) (body : nat -> S -> S) (s : S) :
  P 0%nat s ->
  (forall i st, (i < n)%nat -> P i st -> P (Datatypes.S i) (body i st)) ->
  P n (for_loop n body s).
Proof.
  intros H0 Hstep. induction n as [|n IH].
  - exact H0.
  - rewrite for_loop_S. apply Hstep; [lia|]. apply IH.
    intros i st Hi. apply Hstep. lia.
Qed.

Lemma combine_seq_snoc {A : Type} (l : list A) (a : A) (k : nat) :
  combine (seq k (length (l ++ [a]))) (l ++ [a])
  = combine (seq k (length l)) l ++ [((k + length l)%nat, a)].
Proof.
  revert k. induction l as [|b l IH]; intro k; simpl.
  - now rewrite Nat.add_0_r.
  - rewrite IH. now rewrite Nat.add_succ_r.
Qed.

Lemma indexed_snoc {A : Type} (l : list A) (a : A) :
  indexed (l ++ [a]) = indexed l ++ [(length l, a)].
Proof. unfold indexed. now rewrite combine_seq_snoc. Qed.

Lemma for_tracks_snoc {A S : Type} (l : list A) (a : A)
  (body : nat -> A -> S -> S) (s : S) :
  for_tracks (l ++ [a]) body s = body (length l) a (for_tracks l body s).
Proof.
  unfold for_tracks. rewrite indexed_snoc, fold_left_app. reflexivity.
Qed.

(** The rule for a loop over the track array: the invariant speaks of the
    slots already visited. *)
Lemma for_tracks_inv {A S : Type} (P : list A -> S -> Prop)
  (l : list A) (body : nat -> A -> S -> S) (s : S) :
  P [] s ->
  (forall done a rest st,
      l = done ++ a :: rest ->
      P done st -> P (done ++ [a]) (body (length done) a st)) ->
  P l (for_tracks l body s).
Proof.
  intros H0 Hstep.
  assert (G : forall done rest, l = done ++ rest ->
                                P done (for_tracks done body s)).
  { induction done as [|a done IH] using rev_ind; intros rest Hl.
    - exact H0.
    - rewrite for_tracks_snoc. rewrite <- app_assoc in Hl. simpl in Hl.
      apply (Hstep done a rest); [exact Hl|]. apply (IH (a :: rest)).
      exact Hl. }
  apply (G l []). now rewrite app_nil_r.
Qed.

Lemma nth_error_snoc_last {A : Type} (l : list A) (a : A) :
  nth_error (l ++ [a]) (length l) = Some a.
Proof.
  rewrite nth_error_app2 by lia. now rewrite Nat.sub_diag.
Qed.

Lemma nth_error_snoc_inv {A : Type} (l : list A) (a b : A) (i : nat) :
  nth_error (l ++ [a]) i = Some b ->
  nth_error l i = Some b \/ (i = length l /\ b = a).
Proof.
  intro H. destruct (Nat.lt_ge_cases i (length l)) as [Hi|Hi].
  - left. now rewrite nth_error_app1 in H.
  - right. rewrite nth_error_app2 in H by lia.
    destruct (i - length l)%nat as [|k] eqn:Hk; simpl in H.
    + split; [lia | congruence].
    + destruct k; discriminate.
Qed.

(** ** The target transform (FindVertices) *)

Section TransformProofs.
Context {E : Externals}.

Lemma cosy_term_spec (x : nat -> Q) (t : reconTerm) :
  cosy_term x t == spec_monomial x t.
Proof.
  unfold cosy_term, spec_monomial, spec_factor, for_loop. simpl.
  destruct (Exp t 0%nat =? 0)%Z, (Exp t 1%nat =? 0)%Z,
    (Exp t 2%nat =? 0)%Z, (Exp t 3%nat =? 0)%Z, (Exp t 4%nat =? 0)%Z;
    simpl; ring.
Qed.

Lemma sum_step (sum c : nat -> Q) (term : Q) (k : nat) :
  (k < 4)%nat ->
  for_loop 4 (fun k sum => upd sum k (sum k + term * c k)) sum k
  = sum k + term * c k.
Proof.
  intro Hk. unfold for_loop. simpl.
  destruct k as [|[|[|[|k]]]]; try lia; reflexivity.
Qed.

Lemma sum_zero (k : nat) :
  for_loop 4 (fun k (sum : nat -> Q) => upd sum k 0) (fun _ => 0) k = 0.
Proof.
  unfold for_loop. simpl. destruct k as [|[|[|[|k]]]]; reflexivity.
Qed.

Lemma cosy_fold_spec (x : nat -> Q) (terms : list reconTerm)
  (acc : nat -> Q) (k : nat) :
  (k < 4)%nat ->
  fold_left
    (fun sum t =>
       let term := cosy_term x t in
       for_loop 4 (fun k sum => upd sum k (sum k + term * Coeff t k)) sum)
    terms acc k
  == acc k + spec_sum x terms k.
Proof.
  intro Hk. revert acc. induction terms as [|t terms IH]; intro acc; simpl.
  - ring.
  - rewrite IH. cbv zeta. rewrite sum_step by exact Hk.
    rewrite cosy_term_spec. ring.
Qed.

Lemma cosy_sums_spec (x : nat -> Q) (terms : list reconTerm) (k : nat) :
  (k < 4)%nat -> cosy_sums x terms k == spec_sum x terms k.
Proof.
  intro Hk. unfold cosy_sums. rewrite cosy_fold_spec by exact Hk.
  rewrite sum_zero. ring.
Qed.

End TransformProofs.

(** The value of [pow] at a zero exponent is never looked at. *)
Lemma cosy_term_pow_irrelevant (E E' : Externals) (x : nat -> Q)
  (t : reconTerm) :
  (forall q e, e <> 0%Z -> @pow E' q e = @pow E q e) ->
  @cosy_term E' x t = @cosy_term E x t.
Proof.
  intro H. unfold cosy_term, for_loop. simpl.
  repeat match goal with
         | |- context [(?e =? 0)%Z] =>
             let K := fresh "K" in
             destruct (Z.eqb_spec e 0) as [K|K]; simpl;
             [| rewrite (H _ _ K)]
         end; reflexivity.
Qed.

Lemma cosy_sums_pow_irrelevant (E E' : Externals) (x : nat -> Q)
  (terms : list reconTerm) :
  (forall q e, e <> 0%Z -> @pow E' q e = @pow E q e) ->
  @cosy_sums E' x terms = @cosy_sums E x terms.
Proof.
  intro H. unfold cosy_sums.
  generalize (for_loop 4 (fun k (sum : nat -> Q) => upd sum k 0)
                (fun _ => 0)).
  induction terms as [|t terms IH]; intro acc; simpl.
  - reflexivity.
  - rewrite (cosy_term_pow_irrelevant E E' x t H). apply IH.
Qed.

(** C1 (amended).  For every candidate track, FindVertices writes
    target-y = 100*sum[1], target-theta = sum[0] + phi-offset,
    target-phi = sum[2] + theta-offset, momentum-deviation =
    100*sum[3] + delta-offset and momentum = central-momentum *
    (1 + momentum-deviation/100), where sum[k] is the sum over all
    ReconTerms of the k-th coefficient times the product of the five
    rotated focal-plane coordinates, each raised to the term's exponent.
    A zero exponent contributes 1 and [pow] is not called for it: the
    result is the same under any [pow] that agrees at the non-zero
    exponents.  For the table with the single term coeff=[1,0,0,0],
    exp=[1,0,0,0,0], all offsets zero and [pow(x,1) = x], a candidate with
    focal-plane x = 2.0 gets target-theta = 2.0/100 and target-phi = 0. *)
Theorem C1_target_transform (E : Externals) (s : THcHallCSpectrometer)
  (i : nat) (t : THaTrack) :
  nth_error (fTracks s) i = Some t ->
  let r := recon (cfg s) in
  let sum := spec_sum (hut_rot_of r (hut_of r t)) (fReconTerms r) in
  exists t',
    nth_error (fTracks (snd (FindVertices s))) i = Some t' /\
    GetTY t' == 100 * sum 1%nat /\
    GetTTheta t' == sum 0%nat + fPhiOffset r /\
    GetTPhi t' == sum 2%nat + fThetaOffset r /\
    GetDp t' == 100 * sum 3%nat + fDeltaOffset r /\
    GetP t' == fPcentral r * (1 + GetDp t' / 100) /\
    (forall E' : Externals,
        (forall q e, e <> 0%Z -> @pow E' q e = @pow E q e) ->
        @FindVertices_track E' r t = t') /\
    (fReconTerms r = [single_term] -> zero_offsets r ->
     (forall q, pow q 1 == q) -> GetX t == 2 ->
     GetTTheta t' == 2 / 100 /\ GetTPhi t' == 0).
Proof.
  intros Ht r sum. exists (FindVertices_track r t).
  split.
  { simpl. unfold FindVertices_tracks. rewrite nth_error_map.
    fold r. now rewrite Ht. }
  assert (S0 := cosy_sums_spec (hut_rot_of r (hut_of r t)) (fReconTerms r)
                  0%nat ltac:(lia)).
  assert (S1 := cosy_sums_spec (hut_rot_of r (hut_of r t)) (fReconTerms r)
                  1%nat ltac:(lia)).
  assert (S2 := cosy_sums_spec (hut_rot_of r (hut_of r t)) (fReconTerms r)
                  2%nat ltac:(lia)).
  assert (S3 := cosy_sums_spec (hut_rot_of r (hut_of r t)) (fReconTerms r)
                  3%nat ltac:(lia)).
  fold sum in S0, S1, S2, S3.
  assert (Htheta : GetTTheta (FindVertices_track r t)
                   == sum 0%nat + fPhiOffset r).
  { unfold FindVertices_track; simpl. now rewrite S0. }
  assert (Hphi : GetTPhi (FindVertices_track r t)
                 == sum 2%nat + fThetaOffset r).
  { unfold FindVertices_track; simpl. now rewrite S2. }
  split; [|split; [|split; [|split; [|split; [|split]]]]].
  - unfold FindVertices_track; simpl. rewrite S1. ring.
  - exact Htheta.
  - exact Hphi.
  - unfold FindVertices_track; simpl. rewrite S3. ring.
  - unfold FindVertices_track; simpl. reflexivity.
  - intros E' H. unfold FindVertices_track. cbv zeta.
    rewrite (cosy_sums_pow_irrelevant E E' _ _ H). reflexivity.
  - intros Hterms Hoff Hpow Hx. split.
    + rewrite Htheta.
      destruct Hoff as (_ & _ & _ & _ & Hdx & _ & Hz & _ & Hp & _).
      unfold sum. rewrite Hterms. simpl.
      unfold spec_monomial, spec_factor. simpl.
      rewrite Hpow. rewrite Hx, Hdx, Hz, Hp. field.
    + rewrite Hphi. destruct Hoff as (_ & _ & _ & _ & _ & _ & _ & Ht0 & _).
      unfold sum. rewrite Hterms. simpl. rewrite Ht0. ring.
Qed.

Lemma C1_target_transform_witness :
  exists t',
    nth_error
      (fTracks (snd (@FindVertices sample_externals
                       (sample_state (sample_cfg 0 0 0) prune_floor
                          hodo_nohit [track_x2] None)))) 0
    = Some t'
    /\ GetTTheta t' == 2 / 100 /\ GetTPhi t' == 0.
Proof.
  destruct (C1_target_transform sample_externals
              (sample_state (sample_cfg 0 0 0) prune_floor hodo_nohit
                 [track_x2] None) 0 track_x2 eq_refl)
    as (t' & Hn & _ & _ & _ & _ & _ & _ & Hex).
  exists t'. split; [exact Hn|].
  apply Hex.
  - reflexivity.
  - unfold zero_offsets; simpl. repeat split; reflexivity.
  - intro q. reflexivity.
  - reflexivity.
Defined.

(** C1 as the specification words it fails on its own example: the value
    [sum[0] + fPhiOffset] goes to the target theta, so the target phi of the
    example candidate is 0, not 2.0/100. *)
Lemma C1_counterexample_target_phi :
  ~ GetTPhi (@FindVertices_track sample_externals recon_single track_x2)
    == 2 / 100.
Proof. vm_compute. discriminate. Qed.

(** ** Frame: what the stages leave alone *)

Section Frames.
Context {E : Externals}.

Lemma SortedFirst_cfg (s : THcHallCSpectrometer) :
  cfg (SortedFirst s) = cfg s /\ prune (SortedFirst s) = prune s.
Proof.
  unfold SortedFirst.
  destruct (GetTrSorting (cfg s));
    match goal with |- context [(?n >? 0)%Z] => destruct (n >? 0)%Z end;
    split; reflexivity.
Qed.

(** The constructor calls [SetTrSorting(kTRUE)]: sorting is then on,
    whatever the other property bits, and off after
    [SetTrSorting(kFALSE)]. *)
Lemma GetTrSorting_SetTrSorting (c : Config) :
  kSortTracks <> 0%Z ->
  GetTrSorting (SetTrSorting c true) = true
  /\ GetTrSorting (SetTrSorting c false) = false.
Proof.
  intro Hk. unfold GetTrSorting, SetTrSorting. simpl. split.
  - assert (H : Z.land (Z.lor (fProperties c) kSortTracks) kSortTracks
                = kSortTracks).
    { apply Z.bits_inj'. intros n _. rewrite Z.land_spec, Z.lor_spec.
      destruct (Z.testbit (fProperties c) n), (Z.testbit kSortTracks n);
        reflexivity. }
    rewrite H. apply Z.eqb_neq in Hk. now rewrite Hk.
  - assert (H : Z.land (Z.land (fProperties c) (Z.lnot kSortTracks))
                  kSortTracks = 0%Z).
    { apply Z.bits_inj'. intros n Hn.
      rewrite !Z.land_spec, Z.lnot_spec, Z.bits_0 by exact Hn.
      destruct (Z.testbit (fProperties c) n), (Z.testbit kSortTracks n);
        reflexivity. }
    now rewrite H.
Qed.

Lemma TrackCalc_blocks (s : THcHallCSpectrometer) :
  snd (TrackCalc s) = blockC (blockB (blockA s)).
Proof. reflexivity. Qed.

End Frames.

(** ** Strategy A *)

Lemma insert_track_perm (t : THaTrack) (l : list THaTrack) :
  Permutation (insert_track t l) (t :: l).
Proof.
  induction l as [|u l IH]; simpl.
  - apply Permutation_refl.
  - destruct (Qleb (Chi2PerDeg t) (Chi2PerDeg u)).
    + apply Permutation_refl.
    + eapply perm_trans; [apply perm_skip, IH | apply perm_swap].
Qed.

Lemma Sort_perm (l : list THaTrack) : Permutation (Sort l) l.
Proof.
  induction l as [|t l IH]; simpl.
  - apply perm_nil.
  - eapply perm_trans; [apply insert_track_perm | apply perm_skip, IH].
Qed.

Lemma insert_track_ascending (t : THaTrack) (l : list THaTrack) :
  ascending l -> ascending (insert_track t l).
Proof.
  induction l as [|u l IH]; simpl; intro H.
  - split; [intros v []| exact I].
  - destruct H as [Hu Hl].
    destruct (Qleb (Chi2PerDeg t) (Chi2PerDeg u)) eqn:Hc.
    + apply Qleb_le in Hc. simpl. split; [|split; assumption].
      intros v [<-|Hv]; [exact Hc|].
      apply Qle_trans with (Chi2PerDeg u); [exact Hc | apply Hu, Hv].
    + apply Qleb_gt in Hc. simpl. split; [|apply IH, Hl].
      intros v Hv.
      apply (Permutation_in _ (insert_track_perm t l)) in Hv.
      destruct Hv as [<-|Hv]; [lra | apply Hu, Hv].
Qed.

Lemma Sort_ascending (l : list THaTrack) : ascending (Sort l).
Proof.
  induction l as [|t l IH]; simpl.
  - exact I.
  - apply insert_track_ascending, IH.
Qed.

(** The first slot of the sorted array holds a track of the event whose
    chi-square per degree of freedom is minimal. *)
Lemma Sort_head_min (l : list THaTrack) :
  l <> [] ->
  exists g, nth_error (Sort l) 0 = Some g /\ In g l /\
            forall t, In t l -> Chi2PerDeg g <= Chi2PerDeg t.
Proof.
  intro Hl. assert (Hp := Sort_perm l). assert (Ha := Sort_ascending l).
  destruct (Sort l) as [|g rest] eqn:Hs.
  - apply Permutation_nil in Hp. contradiction.
  - exists g. split; [reflexivity|]. split.
    + apply (Permutation_in _ Hp). now left.
    + intros t Ht. apply (Permutation_in _ (Permutation_sym Hp)) in Ht.
      destruct Ha as [Hg _]. destruct Ht as [<-|Ht]; [lra | apply Hg, Ht].
Qed.

Lemma fNtracks_pos (s : THcHallCSpectrometer) :
  (fNtracks s >? 0)%Z = true <-> fTracks s <> [].
Proof.
  unfold fNtracks. destruct (fTracks s); simpl; split; intro H;
    try congruence; try reflexivity; discriminate.
Qed.

Lemma fNtracks_zero (s : THcHallCSpectrometer) :
  (fNtracks s >? 0)%Z = false <-> fTracks s = [].
Proof.
  unfold fNtracks. destruct (fTracks s); simpl; split; intro H;
    try congruence; try reflexivity; discriminate.
Qed.

(** C2.  With neither the scintillator mode nor the prune mode enabled:
    for a non-empty candidate set and sorting enabled, the golden track
    is the first slot of the sorted array, a candidate of the event whose
    chi-square per degree of freedom is minimal among all candidates; with
    sorting disabled the array is left in its order and the golden track
    is the candidate at index 0; for an empty candidate set the golden
    reference is NULL. *)
Theorem C2_sorted_first (E : Externals) (s : THcHallCSpectrometer) :
  fSelUsingScin (cfg s) = 0%Z -> fSelUsingPrune (cfg s) = 0%Z ->
  let s' := snd (TrackCalc s) in
  (fTracks s <> [] -> GetTrSorting (cfg s) = true ->
   fGoldenTrack s' = Some 0%nat /\
   Permutation (fTracks s') (fTracks s) /\
   exists g, nth_error (fTracks s') 0 = Some g /\ In g (fTracks s) /\
             forall t, In t (fTracks s) -> Chi2PerDeg g <= Chi2PerDeg t) /\
  (fTracks s <> [] -> GetTrSorting (cfg s) = false ->
   fGoldenTrack s' = Some 0%nat /\ fTracks s' = fTracks s) /\
  (fTracks s = [] -> fGoldenTrack s' = None).
Proof.
  intros Hscin Hprune s'.
  assert (Hs' : s' = SortedFirst s).
  { unfold s'. rewrite TrackCalc_blocks.
    assert (HA : blockA s = SortedFirst s).
    { unfold blockA. now rewrite Hscin, Hprune. }
    destruct (SortedFirst_cfg s) as [Hc _].
    rewrite HA. unfold blockB. rewrite Hc, Hscin. simpl.
    unfold blockC. rewrite Hc, Hprune. reflexivity. }
  rewrite Hs'. unfold SortedFirst. split; [|split].
  - intros Hne Hsort. rewrite Hsort.
    assert (Hn : (fNtracks (set_fTracks s (Sort (fTracks s))) >? 0)%Z = true).
    { apply fNtracks_pos. simpl. intro H0.
      assert (Hp := Sort_perm (fTracks s)). rewrite H0 in Hp.
      apply Permutation_nil in Hp. contradiction. }
    rewrite Hn. simpl. split; [reflexivity|]. split; [apply Sort_perm|].
    apply Sort_head_min, Hne.
  - intros Hne Hsort. rewrite Hsort.
    apply fNtracks_pos in Hne. rewrite Hne. simpl. split; reflexivity.
  - intro Hnil. destruct (GetTrSorting (cfg s)).
    + assert (Hn : (fNtracks (set_fTracks s (Sort (fTracks s))) >? 0)%Z
                   = false).
      { apply fNtracks_zero. simpl. now rewrite Hnil. }
      rewrite Hn. reflexivity.
    + apply fNtracks_zero in Hnil. rewrite Hnil. reflexivity.
Qed.

Lemma C2_sorted_first_witness :
  let s := sample_state (sample_cfg 16384 0 0) prune_floor hodo_nohit
             [track_chi2 5; track_chi2 3; track_chi2 4] None in
  fGoldenTrack (snd (@TrackCalc sample_externals s)) = Some 0%nat /\
  exists g, nth_error (fTracks (snd (@TrackCalc sample_externals s))) 0
            = Some g /\ In g (fTracks s) /\
            forall t, In t (fTracks s) -> Chi2PerDeg g <= Chi2PerDeg t.
Proof.
  intro s.
  destruct (C2_sorted_first sample_externals s eq_refl eq_refl)
    as (Hsorted & _ & _).
  destruct Hsorted as (Hg & _ & Hmin).
  - discriminate.
  - reflexivity.
  - split; [exact Hg | exact Hmin].
Defined.

Section FrameProofs.
Context {E : Externals}.

Lemma same_setup_refl (s : THcHallCSpectrometer) : same_setup s s.
Proof. repeat split. Qed.

Lemma same_setup_trans (s1 s2 s3 : THcHallCSpectrometer) :
  same_setup s1 s2 -> same_setup s2 s3 -> same_setup s1 s3.
Proof.
  intros (A1 & A2 & A3 & A4) (B1 & B2 & B3 & B4).
  repeat split; congruence.
Qed.

Lemma for_tracks_rel {A S1 S2 : Type} (R : S1 -> S2 -> Prop)
  (l : list A) (body1 : nat -> A -> S1 -> S1) (body2 : nat -> A -> S2 -> S2)
  (s1 : S1) (s2 : S2) :
  R s1 s2 ->
  (forall i a x y, R x y -> R (body1 i a x) (body2 i a y)) ->
  R (for_tracks l body1 s1) (for_tracks l body2 s2).
Proof.
  intros H0 Hstep. unfold for_tracks. revert s1 s2 H0.
  induction (indexed l) as [|it rest IH]; intros s1 s2 H0; simpl.
  - exact H0.
  - apply IH, Hstep, H0.
Qed.

Lemma scin_select_setup (itrack : nat) (chi : Q)
  (st : ScinLocals * THcHallCSpectrometer) :
  same_setup (snd (scin_select itrack chi st)) (snd st).
Proof.
  destruct st as [w s]. unfold scin_select.
  repeat match goal with
         | |- context [if ?b then _ else _] => destruct b
         end; simpl; repeat split.
Qed.

Lemma scin_track_setup (c : Config) (hodo : THcHodoscope) (n : Z)
  (itrack : nat) (t : THaTrack) (st : ScinLocals * THcHallCSpectrometer) :
  same_setup (snd (scin_track c hodo n itrack t st)) (snd st).
Proof.
  unfold scin_track.
  destruct (passes_ndof (sel c) t); [|apply same_setup_refl].
  destruct (passes_ranges (sel c) t); [|apply same_setup_refl].
  apply (scin_select_setup itrack (Chi2PerDeg t)
           (scin_scores c hodo n itrack t (fst st), snd st)).
Qed.

Lemma scin_loop_setup (s : THcHallCSpectrometer) :
  same_setup (snd (scin_loop s)) s.
Proof.
  unfold scin_loop.
  apply (for_tracks_inv (fun _ st => same_setup (snd st) s)).
  - simpl. repeat split.
  - intros done a rest st _ H.
    eapply same_setup_trans; [apply scin_track_setup | exact H].
Qed.

Lemma scin_fallback_track_setup (c : Config) (i : nat) (t : THaTrack)
  (s : THcHallCSpectrometer) :
  same_setup (scin_fallback_track c i t s) s.
Proof.
  unfold scin_fallback_track.
  destruct (passes_ndof (sel c) t); [|apply same_setup_refl].
  destruct (Qltb (Chi2PerDeg t) (fChi2Min s)); repeat split.
Qed.

Lemma SelectUsingScin_setup (s : THcHallCSpectrometer) :
  same_setup (SelectUsingScin s) s.
Proof.
  unfold SelectUsingScin.
  destruct (fNtracks s >? 0)%Z; [|repeat split].
  destruct (fGoodTrack (snd (scin_loop s)) =? -1)%Z;
    [|apply scin_loop_setup].
  eapply same_setup_trans; [|apply scin_loop_setup].
  apply (for_tracks_inv
           (fun _ st => same_setup st (snd (scin_loop s)))).
  - repeat split.
  - intros done a rest st _ H.
    eapply same_setup_trans; [apply scin_fallback_track_setup | exact H].
Qed.

Lemma prune_pick_track_frame (w : PruneWork) (i : nat) (t : THaTrack)
  (s : THcHallCSpectrometer) :
  same_setup (prune_pick_track w i t s) s
  /\ fGoldenTrack (prune_pick_track w i t s) = fGoldenTrack s.
Proof.
  unfold prune_pick_track.
  destruct (Qltb (Chi2PerDeg t) (fChi2Min s) && fKeep w i);
    repeat split.
Qed.

Lemma prune_pick_setup (w : PruneWork) (l : list THaTrack)
  (s : THcHallCSpectrometer) :
  same_setup (for_tracks l (prune_pick_track w) s) s.
Proof.
  apply (for_tracks_inv (fun _ st => same_setup st s)).
  - apply same_setup_refl.
  - intros done a rest st _ H.
    eapply same_setup_trans; [apply prune_pick_track_frame | exact H].
Qed.

Lemma SelectUsingPrune_frame (s : THcHallCSpectrometer) :
  cfg (SelectUsingPrune s) = cfg s
  /\ prune (SelectUsingPrune s) = clamp_prune (prune s)
  /\ fHodo (SelectUsingPrune s) = fHodo s
  /\ fTracks (SelectUsingPrune s) = fTracks s.
Proof.
  unfold SelectUsingPrune. cbv zeta.
  match goal with |- context [if ?b then _ else _] => destruct b end.
  - simpl.
    match goal with
    | |- context [for_tracks ?l (prune_pick_track ?w) ?s0] =>
        destruct (prune_pick_setup w l s0) as (A1 & A2 & A3 & A4)
    end.
    simpl in A1, A2, A3, A4. rewrite A1, A2, A3, A4. repeat split.
  - simpl. repeat split.
Qed.

Lemma prune_after_setup (k : nat) (s1 s2 : THcHallCSpectrometer) :
  same_setup s1 s2 -> prune_after k s1 = prune_after k s2.
Proof.
  intros (A1 & A2 & A3 & A4). unfold prune_after, prune_cuts.
  now rewrite A1, A2, A3, A4.
Qed.

(** The choice of the prune selection depends on the configuration, the
    thresholds, the hodoscope and the tracks only: the members it finds in
    [fChi2Min], [fGoodTrack] and [fGoldenTrack] are overwritten. *)
Lemma SelectUsingPrune_golden_setup (s1 s2 : THcHallCSpectrometer) :
  same_setup s1 s2 ->
  fGoldenTrack (SelectUsingPrune s1) = fGoldenTrack (SelectUsingPrune s2).
Proof.
  intros (A1 & A2 & A3 & A4). unfold SelectUsingPrune. cbv zeta.
  assert (Hn : fNtracks (set_prune s1 (clamp_prune (prune s1)))
               = fNtracks (set_prune s2 (clamp_prune (prune s2)))).
  { unfold fNtracks. simpl. now rewrite A4. }
  rewrite Hn.
  match goal with |- context [if ?b then _ else _] => destruct b end;
    [|reflexivity].
  simpl. f_equal. f_equal.
  match goal with
  | |- fGoodTrack (for_tracks ?l1 (prune_pick_track ?w1) ?x1)
       = fGoodTrack (for_tracks ?l2 (prune_pick_track ?w2) ?x2) =>
      assert (Hw : w1 = w2);
      [ simpl; apply prune_after_setup; repeat split; simpl; congruence
      | rewrite Hw, A4;
        apply (for_tracks_rel
                 (fun x y => fGoodTrack x = fGoodTrack y
                             /\ fChi2Min x = fChi2Min y)) ]
  end.
  - split; reflexivity.
  - intros i a x y [Hg Hc]. unfold prune_pick_track. rewrite Hc.
    destruct (Qltb (Chi2PerDeg a) (fChi2Min y) && _); simpl; auto.
Qed.

End FrameProofs.

(** ** Configuration frame and the order of the blocks *)

Lemma TMath_Max_idem (a x : Q) :
  TMath.Max a (TMath.Max a x) = TMath.Max a x.
Proof.
  unfold TMath.Max. destruct (Qgeb a x) eqn:H.
  - assert (Ha : Qgeb a a = true) by (apply Qleb_le; lra).
    now rewrite Ha.
  - now rewrite H.
Qed.

Lemma TMath_Max_above (a x : Q) : a <= x -> TMath.Max a x == x.
Proof.
  intro H. unfold TMath.Max. destruct (Qgeb a x) eqn:K.
  - unfold Qgeb in K. apply Qleb_le in K. lra.
  - reflexivity.
Qed.

Lemma TMath_Max_fixed (a x : Q) : TMath.Max a x == x -> a <= x.
Proof.
  unfold TMath.Max. destruct (Qgeb a x) eqn:K; intro H.
  - lra.
  - unfold Qgeb in K. apply Qleb_gt in K. lra.
Qed.

Lemma clamp_prune_idem (p : PruneCuts) :
  clamp_prune (clamp_prune p) = clamp_prune p.
Proof.
  unfold clamp_prune. simpl. now rewrite !TMath_Max_idem.
Qed.

Lemma clamp_prune_above (p : PruneCuts) :
  above_floors p <-> prune_eq (clamp_prune p) p.
Proof.
  unfold above_floors, prune_eq, clamp_prune. simpl. split.
  - intros (H1 & H2 & H3 & H4 & H5 & H6 & H7 & H8 & H9).
    repeat (split; [apply TMath_Max_above; assumption|]).
    apply TMath_Max_above; assumption.
  - intros (H1 & H2 & H3 & H4 & H5 & H6 & H7 & H8 & H9).
    repeat (split; [apply TMath_Max_fixed; assumption|]).
    apply TMath_Max_fixed; assumption.
Qed.

Lemma blockA_setup (E : Externals) (s : THcHallCSpectrometer) :
  cfg (blockA s) = cfg s /\ prune (blockA s) = prune s.
Proof.
  unfold blockA.
  destruct ((fSelUsingScin (cfg s) =? 0)%Z && (fSelUsingPrune (cfg s) =? 0)%Z).
  - apply SortedFirst_cfg.
  - split; reflexivity.
Qed.

Lemma blockB_setup (E : Externals) (s : THcHallCSpectrometer) :
  same_setup (blockB s) s.
Proof.
  unfold blockB. destruct (fSelUsingScin (cfg s) =? 1)%Z.
  - apply SelectUsingScin_setup.
  - apply same_setup_refl.
Qed.

(** C9 (amended).  Event processing (FindVertices, then TrackCalc) leaves
    every configuration member other than the nine prune thresholds
    unchanged.  The prune thresholds are unchanged when the prune mode is
    not enabled; when it is enabled each of them is replaced, in the
    object, by the larger of its floor and its previous value (floors 0.08,
    0.04, 4, 13, 0.1, 1, 2, 5, 6), so they keep their values exactly when
    they were at or above the floors, and a further event changes nothing
    more. *)
Theorem C9_configuration_frame (E : Externals) (s : THcHallCSpectrometer) :
  let s' := snd (TrackCalc (snd (FindVertices s))) in
  cfg s' = cfg s /\
  (fSelUsingPrune (cfg s) <> 1%Z -> prune s' = prune s) /\
  (fSelUsingPrune (cfg s) = 1%Z ->
   prune s' = clamp_prune (prune s) /\
   clamp_prune (prune s') = prune s' /\
   (above_floors (prune s) <-> prune_eq (prune s') (prune s))).
Proof.
  intro s'. unfold s'. rewrite TrackCalc_blocks.
  set (s0 := snd (FindVertices s)).
  assert (H0 : cfg s0 = cfg s /\ prune s0 = prune s) by (split; reflexivity).
  destruct H0 as [Hc0 Hp0].
  destruct (blockA_setup E s0) as [HcA HpA].
  destruct (blockB_setup E (blockA s0)) as (HcB & HpB & _ & _).
  assert (HcAB : cfg (blockB (blockA s0)) = cfg s) by congruence.
  assert (HpAB : prune (blockB (blockA s0)) = prune s) by congruence.
  unfold blockC. rewrite HcAB.
  destruct (Z.eqb_spec (fSelUsingPrune (cfg s)) 1) as [H1|H1].
  - destruct (SelectUsingPrune_frame (blockB (blockA s0)))
      as (Hc & Hp & _ & _).
    rewrite Hc, Hp, HcAB, HpAB. split; [reflexivity|]. split.
    + intro K. contradiction.
    + intros _. split; [reflexivity|]. split.
      * apply clamp_prune_idem.
      * apply clamp_prune_above.
  - rewrite HcAB, HpAB. split; [reflexivity|]. split.
    + reflexivity.
    + intro K. contradiction.
Qed.

Lemma C9_configuration_frame_witness :
  let s := sample_state (sample_cfg 0 0 1) prune_low hodo_nohit
             [track_chi2 1] None in
  prune (snd (@TrackCalc sample_externals
                (snd (@FindVertices sample_externals s))))
  = clamp_prune (prune_low).
Proof.
  intro s.
  destruct (C9_configuration_frame sample_externals s) as (_ & _ & H).
  destruct (H eq_refl) as (Hp & _ & _). exact Hp.
Defined.

(** C9 as the specification words it fails: with the prune mode on and a
    threshold below its floor, TrackCalc overwrites the threshold. *)
Lemma C9_counterexample_threshold_raised :
  let s := sample_state (sample_cfg 0 0 1) prune_low hodo_nohit
             [track_chi2 1] None in
  fPruneXp (prune s) == 0.05 /\
  fPruneXp (prune (snd (@TrackCalc sample_externals
                          (snd (@FindVertices sample_externals s)))))
  == 0.08 /\
  ~ fPruneXp (prune (snd (@TrackCalc sample_externals
                            (snd (@FindVertices sample_externals s)))))
    == fPruneXp (prune s).
Proof. vm_compute. repeat split; discriminate. Qed.

(** C10.  With both strategy flags at 1, the sorted-first block is
    skipped (the track array keeps its order whatever the sorting
    property), the scintillator selection and then the prune selection run
    on the same candidate set, and the final golden reference is the one
    the prune selection produces: it is what the prune selection alone
    yields on the object as it was at entry. *)
Theorem C10_both_flags (E : Externals) (s : THcHallCSpectrometer) :
  fSelUsingScin (cfg s) = 1%Z -> fSelUsingPrune (cfg s) = 1%Z ->
  snd (TrackCalc s) = SelectUsingPrune (SelectUsingScin s) /\
  fTracks (SelectUsingScin s) = fTracks s /\
  fTracks (snd (TrackCalc s)) = fTracks s /\
  fGoldenTrack (snd (TrackCalc s)) = fGoldenTrack (SelectUsingPrune s).
Proof.
  intros Hscin Hprune.
  assert (HB := SelectUsingScin_setup s).
  assert (Heq : snd (TrackCalc s) = SelectUsingPrune (SelectUsingScin s)).
  { rewrite TrackCalc_blocks.
    assert (HA : blockA s = s).
    { unfold blockA. now rewrite Hscin, Hprune. }
    rewrite HA. unfold blockB. rewrite Hscin. simpl.
    unfold blockC. destruct HB as (Hc & _). rewrite Hc, Hprune.
    reflexivity. }
  split; [exact Heq|]. split; [apply HB|]. split.
  - rewrite Heq.
    destruct (SelectUsingPrune_frame (SelectUsingScin s)) as (_ & _ & _ & Ht).
    rewrite Ht. apply HB.
  - rewrite Heq. apply SelectUsingPrune_golden_setup, HB.
Qed.

Lemma C10_both_flags_witness :
  fGoldenTrack (@SelectUsingScin sample_externals ev_both_flags)
  = Some 0%nat /\
  fGoldenTrack (snd (@TrackCalc sample_externals ev_both_flags))
  = fGoldenTrack (@SelectUsingPrune sample_externals ev_both_flags) /\
  fGoldenTrack (@SelectUsingPrune sample_externals ev_both_flags)
  = Some 2%nat.
Proof.
  destruct (C10_both_flags sample_externals ev_both_flags eq_refl eq_refl)
    as (_ & _ & _ & Hg).
  split; [reflexivity|]. split; [exact Hg | reflexivity].
Defined.

(** ** Strategy C: the soft cuts *)

Section PruneProofs.
Context {E : Externals}.

Lemma count_good_pos (tracks : list THaTrack) (c : PruneCut) (w : PruneWork) :
  (count_good tracks c w >? 0)%Z = true <-> kept_passes tracks w c.
Proof.
  unfold count_good, kept_passes.
  assert (H : (0 <= for_tracks tracks
                     (fun ptrack t fNGood =>
                        if cut_pass c t && fKeep w ptrack
                        then (fNGood + 1)%Z else fNGood) 0%Z)%Z
              /\ ((0 < for_tracks tracks
                     (fun ptrack t fNGood =>
                        if cut_pass c t && fKeep w ptrack
                        then (fNGood + 1)%Z else fNGood) 0%Z)%Z
                  <-> exists i t, nth_error tracks i = Some t
                                  /\ fKeep w i = true
                                  /\ cut_pass c t = true)).
  { apply (for_tracks_inv
             (fun done n =>
                (0 <= n)%Z /\
                ((0 < n)%Z <-> exists i t, nth_error done i = Some t
                                           /\ fKeep w i = true
                                           /\ cut_pass c t = true))).
    - split; [lia|]. split; [lia|].
      intros (i & t & Hn & _). destruct i; discriminate.
    - intros done a rest n _ [Hpos Hiff].
      destruct (cut_pass c a && fKeep w (length done)) eqn:Hb.
      + apply andb_true_iff in Hb. destruct Hb as [Hp Hk].
        split; [lia|]. split; [|lia]. intros _.
        exists (length done), a. rewrite nth_error_snoc_last. auto.
      + split; [exact Hpos|]. rewrite Hiff. split.
        * intros (i & t & Hn & Hk & Hp). exists i, t.
          split; [|auto]. rewrite nth_error_app1; [exact Hn|].
          apply nth_error_Some. congruence.
        * intros (i & t & Hn & Hk & Hp).
          apply nth_error_snoc_inv in Hn. destruct Hn as [Hn|[-> ->]].
          -- exists i, t. auto.
          -- rewrite Hp, Hk in Hb. discriminate. }
  destruct H as [_ H]. rewrite <- H. rewrite Z.gtb_ltb. apply Z.ltb_lt.
Qed.

Lemma reject_failing_spec (tracks : list THaTrack) (c : PruneCut)
  (w : PruneWork) :
  cut_enforced tracks c w (reject_failing tracks c w).
Proof.
  unfold reject_failing, cut_enforced.
  assert (H : forall i,
             (forall t, nth_error tracks i = Some t ->
                fKeep (reject_failing tracks c w) i
                = (if cut_fail c t then false else fKeep w i) /\
                fReject (reject_failing tracks c w) i
                = (if cut_fail c t then fReject w i + cut_code c
                   else fReject w i)%Z)
             /\ (nth_error tracks i = None ->
                 fKeep (reject_failing tracks c w) i = fKeep w i /\
                 fReject (reject_failing tracks c w) i = fReject w i)).
  { unfold reject_failing.
    apply (for_tracks_inv
             (fun done w' =>
                forall i,
                  (forall t, nth_error done i = Some t ->
                     fKeep w' i = (if cut_fail c t then false else fKeep w i)
                     /\ fReject w' i
                        = (if cut_fail c t then fReject w i + cut_code c
                           else fReject w i)%Z)
                  /\ (nth_error done i = None ->
                      fKeep w' i = fKeep w i /\ fReject w' i = fReject w i))).
    - intro i. split; [intros t Hn; destruct i; discriminate | auto].
    - intros done a rest w' _ IH i. split.
      + intros t Hn. apply nth_error_snoc_inv in Hn.
        destruct Hn as [Hn|[-> ->]].
        * assert (Hi : i <> length done).
          { intro K. subst i.
            assert (length done < length done)%nat; [|lia].
            apply nth_error_Some. congruence. }
          destruct (IH i) as [IH1 _]. specialize (IH1 t Hn).
          destruct (cut_fail c a); simpl; [|exact IH1].
          rewrite !upd_other by exact Hi. exact IH1.
        * destruct (IH (length done)) as [_ IH2].
          assert (Hnone : nth_error done (length done) = None)
            by (apply nth_error_None; lia).
          specialize (IH2 Hnone). destruct IH2 as [K1 K2].
          destruct (cut_fail c a); simpl.
          -- rewrite !upd_same. rewrite K2. split; reflexivity.
          -- split; assumption.
      + intro Hn. apply nth_error_None in Hn. rewrite length_app in Hn.
        simpl in Hn.
        destruct (IH i) as [_ IH2].
        assert (Hnone : nth_error done i = None)
          by (apply nth_error_None; lia).
        specialize (IH2 Hnone).
        destruct (cut_fail c a); simpl; [|exact IH2].
        rewrite !upd_other by lia. exact IH2. }
  intros i t Hn. apply (H i), Hn.
Qed.

Lemma prune_init_kept (tracks : list THaTrack) (i : nat) (t : THaTrack) :
  nth_error tracks i = Some t ->
  fKeep (prune_init tracks) i = true /\ fReject (prune_init tracks) i = 0%Z.
Proof.
  unfold prune_init. revert i t.
  apply (for_tracks_inv
           (fun done w =>
              forall i t, nth_error done i = Some t ->
                          fKeep w i = true /\ fReject w i = 0%Z)).
  - intros i t Hn. destruct i; discriminate.
  - intros done a rest w _ IH i t Hn. simpl.
    apply nth_error_snoc_inv in Hn. destruct Hn as [Hn|[-> ->]].
    + destruct (Nat.eq_dec i (length done)) as [->|Hi].
      * rewrite !upd_same. auto.
      * rewrite !upd_other by exact Hi. apply (IH i t Hn).
    + rewrite !upd_same. auto.
Qed.

(** In every block the test that counts a track as good excludes the
    test that rejects it. *)
Lemma prune_cuts_exclusive (s : THcHallCSpectrometer) (c : PruneCut)
  (t : THaTrack) :
  In c (prune_cuts s) -> cut_pass c t = true -> cut_fail c t = false.
Proof.
  unfold prune_cuts. simpl.
  intros [<-|[<-|[<-|[<-|[<-|[<-|[<-|[<-|[<-|[<-|[<-|[]]]]]]]]]]]]; simpl;
    try apply Qltb_Qgeb; try apply Qgeb_Qltb.
  - intro H. apply andb_true_iff in H. destruct H as [H1 H2].
    apply Qltb_Qgeb in H1. unfold Qgtb in H2.
    apply Qltb_lt in H2. rewrite H1. simpl. apply Qleb_gt. exact H2.
  - intro H. now rewrite H.
  - intro H. now rewrite H.
Qed.

Lemma Qltb_false_Qgeb (x y : Q) : Qltb x y = false -> Qgeb x y = true.
Proof.
  intro H. apply Qltb_ge in H. unfold Qgeb. apply Qleb_le. exact H.
Qed.

Lemma Qgeb_false_Qltb (x y : Q) : Qgeb x y = false -> Qltb x y = true.
Proof.
  unfold Qgeb. intro H. apply Qleb_gt in H. apply Qltb_lt. exact H.
Qed.

(** And a track that is not counted as good by a block's first test is
    rejected by its second. *)
Lemma prune_cuts_exhaustive (s : THcHallCSpectrometer) (c : PruneCut)
  (t : THaTrack) :
  In c (prune_cuts s) -> cut_pass c t = false -> cut_fail c t = true.
Proof.
  unfold prune_cuts. simpl.
  intros [<-|[<-|[<-|[<-|[<-|[<-|[<-|[<-|[<-|[<-|[<-|[]]]]]]]]]]]]; simpl;
    try apply Qltb_false_Qgeb; try apply Qgeb_false_Qltb.
  - intro H. apply andb_false_iff in H. apply orb_true_iff.
    destruct H as [H|H].
    + left. apply Qltb_false_Qgeb, H.
    + right. unfold Qgtb in H. apply Qltb_ge in H. apply Qleb_le. exact H.
  - intro H. now rewrite H.
  - intro H. now rewrite H.
Qed.

Lemma prune_after_S (s : THcHallCSpectrometer) (k : nat) (c : PruneCut) :
  nth_error (prune_cuts s) k = Some c ->
  prune_after (S k) s = apply_cut (fTracks s) (prune_after k s) c.
Proof.
  intro Hk. unfold prune_after.
  assert (Hf : firstn (S k) (prune_cuts s)
               = firstn k (prune_cuts s) ++ [c]).
  { revert k Hk. generalize (prune_cuts s). intro l.
    induction l as [|x l IH]; intros k Hk.
    - destruct k; discriminate.
    - destruct k; simpl in *.
      + now inversion Hk.
      + f_equal. apply IH, Hk. }
  rewrite Hf, fold_left_app. reflexivity.
Qed.

Lemma prune_after_overshoot (s : THcHallCSpectrometer) (k : nat) :
  nth_error (prune_cuts s) k = None ->
  prune_after (S k) s = prune_after k s.
Proof.
  intro Hk. unfold prune_after. apply nth_error_None in Hk.
  now rewrite !firstn_all2 by lia.
Qed.

Lemma apply_cut_kept (s : THcHallCSpectrometer) (c : PruneCut)
  (w : PruneWork) :
  In c (prune_cuts s) ->
  kept_nonempty (fTracks s) w ->
  kept_nonempty (fTracks s) (apply_cut (fTracks s) w c).
Proof.
  intros Hc Hk. unfold apply_cut.
  destruct (count_good (fTracks s) c w >? 0)%Z eqn:Hg; [|exact Hk].
  apply count_good_pos in Hg. destruct Hg as (i & t & Hn & Hkeep & Hp).
  exists i, t. split; [exact Hn|].
  destruct (reject_failing_spec (fTracks s) c w i t Hn) as [K _].
  rewrite K, (prune_cuts_exclusive s c t Hc Hp). exact Hkeep.
Qed.

(** After any number of blocks some candidate is still marked kept. *)
Lemma prune_after_kept (s : THcHallCSpectrometer) (k : nat) :
  fTracks s <> [] -> kept_nonempty (fTracks s) (prune_after k s).
Proof.
  intro Hne. induction k as [|k IH].
  - destruct (fTracks s) as [|t l] eqn:Hl; [contradiction|].
    exists 0%nat, t. split; [reflexivity|].
    unfold prune_after. simpl. rewrite Hl.
    apply (prune_init_kept (t :: l) 0 t eq_refl).
  - destruct (nth_error (prune_cuts s) k) as [c|] eqn:Hk.
    + rewrite (prune_after_S s k c Hk).
      apply apply_cut_kept; [|exact IH].
      eapply nth_error_In, Hk.
    + now rewrite (prune_after_overshoot s k Hk).
Qed.

End PruneProofs.

(** C3.  In the prune selection, for an event with at least one candidate,
    the beta from the momentum being a number for every candidate (the
    divisor of line 734 is not zero), and for each block of the pipeline
    taken in its fixed order (the nine threshold cuts, then the two
    plane-hit cuts): the cut is enforced -- every candidate failing it is
    marked not-kept and its rejection code grows by the cut's
    contribution, the contributions of the blocks being pairwise distinct
    -- if and only if at least one candidate currently marked kept passes
    the cut; otherwise the block changes nothing.  After every block the
    kept set is non-empty. *)
Theorem C3_soft_cuts (E : Externals) (s : THcHallCSpectrometer) (k : nat)
  (c : PruneCut) :
  fTracks s <> [] ->
  beta_defined_event s ->
  nth_error (prune_cuts s) k = Some c ->
  let w := prune_after k s in
  let w' := prune_after (S k) s in
  (kept_passes (fTracks s) w c <-> cut_enforced (fTracks s) c w w') /\
  (~ kept_passes (fTracks s) w c -> w' = w) /\
  kept_nonempty (fTracks s) w' /\
  NoDup (map cut_code (prune_cuts s)) /\
  firstn 9 (prune_cuts s)
  = [ prune_xptar (prune s); prune_yptar (prune s); prune_ytar (prune s);
      prune_delta (prune s); prune_beta (prune s) (fPartMass (cfg s));
      prune_df (prune s); prune_npmt (prune s); prune_chibeta (prune s);
      prune_fptime (prune s) (GetStartTimeCenter (fHodo s)) ].
Proof.
  intros Hne _ Hk w w'. unfold w, w'. rewrite (prune_after_S s k c Hk).
  assert (Hin : In c (prune_cuts s)) by (eapply nth_error_In, Hk).
  split; [|split; [|split; [|split]]].
  - split.
    + intro Hg. apply count_good_pos in Hg. unfold apply_cut. rewrite Hg.
      apply reject_failing_spec.
    + unfold apply_cut.
      destruct (count_good (fTracks s) c (prune_after k s) >? 0)%Z eqn:Hc;
        [intros _; apply count_good_pos, Hc|].
      intro Henf. exfalso.
      destruct (prune_after_kept s k Hne) as (i & t & Hn & Hkeep).
      destruct (Henf i t Hn) as [K _].
      destruct (cut_pass c t) eqn:Hp.
      * assert (Hg : kept_passes (fTracks s) (prune_after k s) c)
          by (exists i, t; auto).
        apply count_good_pos in Hg. congruence.
      * rewrite (prune_cuts_exhaustive s c t Hin Hp) in K. congruence.
  - intro Hg. unfold apply_cut.
    destruct (count_good (fTracks s) c (prune_after k s) >? 0)%Z eqn:Hc;
      [|reflexivity].
    apply count_good_pos in Hc. contradiction.
  - apply apply_cut_kept; [exact Hin|].
    apply prune_after_kept, Hne.
  - simpl. repeat constructor; simpl; intuition discriminate.
  - reflexivity.
Qed.

Lemma C3_soft_cuts_witness :
  let s := ev_prune_soft in
  let c := prune_yptar (prune s) in
  @prune_after sample_externals 2 s = @prune_after sample_externals 1 s /\
  kept_nonempty (fTracks s) (@prune_after sample_externals 2 s).
Proof.
  intros s c.
  assert (Hbeta : @beta_defined_event sample_externals s).
  { intros t [<-|[<-|[]]]; vm_compute; discriminate. }
  destruct (C3_soft_cuts sample_externals s 1 c ltac:(discriminate) Hbeta
              eq_refl) as (_ & Hskip & Hkept & _).
  split; [|exact Hkept].
  apply Hskip. intros (i & t & Hn & Hk & Hp).
  destruct i as [|[|i]]; simpl in Hn;
    [injection Hn as <- | injection Hn as <- | destruct i; discriminate];
    vm_compute in Hp; discriminate.
Defined.

(** ** Strategy C: the choice among the kept candidates *)

Section PrunePick.
Context {E : Externals}.

(** The scan of lines 851-859 from [fChi2Min = 1e10]: the running minimum
    bounds every kept candidate seen so far from below, and once it has
    dropped below [1e10] it is the value of the first kept candidate that
    attains it. *)
Lemma prune_pick_inv (w : PruneWork) (tracks : list THaTrack)
  (x0 : THcHallCSpectrometer) :
  fChi2Min x0 = 1e10 ->
  let st := for_tracks tracks (prune_pick_track w) x0 in
  (forall j u, nth_error tracks j = Some u -> fKeep w j = true ->
               fChi2Min st <= Chi2PerDeg u) /\
  ((fChi2Min st = 1e10 /\ fGoodTrack st = fGoodTrack x0) \/
   (exists g t,
       fGoodTrack st = Z.of_nat g /\ nth_error tracks g = Some t /\
       fKeep w g = true /\ fChi2Min st = Chi2PerDeg t /\
       Chi2PerDeg t < 1e10 /\
       forall j u, (j < g)%nat -> nth_error tracks j = Some u ->
                   fKeep w j = true -> Chi2PerDeg t < Chi2PerDeg u)).
Proof.
  intros H0 st. unfold st.
  apply (for_tracks_inv
           (fun done st =>
              fChi2Min st <= 1e10 /\
              (forall j u, nth_error done j = Some u -> fKeep w j = true ->
                           fChi2Min st <= Chi2PerDeg u) /\
              ((fChi2Min st = 1e10 /\ fGoodTrack st = fGoodTrack x0) \/
               (exists g t,
                   fGoodTrack st = Z.of_nat g /\ nth_error done g = Some t /\
                   fKeep w g = true /\ fChi2Min st = Chi2PerDeg t /\
                   Chi2PerDeg t < 1e10 /\
                   forall j u, (j < g)%nat -> nth_error done j = Some u ->
                               fKeep w j = true ->
                               Chi2PerDeg t < Chi2PerDeg u)))).
  - rewrite H0. split; [lra|]. split.
    + intros j u Hn. destruct j; discriminate.
    + left. split; reflexivity.
  - intros done a rest x _ (Hle & Hlow & Hcase). unfold prune_pick_track.
    assert (Hold : forall j u, nth_error done j = Some u ->
                               nth_error (done ++ [a]) j = Some u).
    { intros j u Hn. rewrite nth_error_app1; [exact Hn|].
      apply nth_error_Some. congruence. }
    destruct (Qltb (Chi2PerDeg a) (fChi2Min x) && fKeep w (length done))
      eqn:Hb.
    + apply andb_true_iff in Hb. destruct Hb as [Hlt Hk].
      apply Qltb_lt in Hlt. simpl. split; [lra|]. split.
      * intros j u Hn Hkj. apply nth_error_snoc_inv in Hn.
        destruct Hn as [Hn|[-> ->]]; [|lra].
        specialize (Hlow j u Hn Hkj). lra.
      * right. exists (length done), a.
        rewrite nth_error_snoc_last.
        repeat (split; [first [reflexivity | assumption | lra]|]).
        intros j u Hj Hn Hkj.
        apply nth_error_snoc_inv in Hn. destruct Hn as [Hn|[-> ->]]; [|lia].
        specialize (Hlow j u Hn Hkj). lra.
    + split; [exact Hle|]. split.
      * intros j u Hn Hkj. apply nth_error_snoc_inv in Hn.
        destruct Hn as [Hn|[-> ->]]; [apply (Hlow j u Hn Hkj)|].
        rewrite Hkj, andb_true_r in Hb. apply Qltb_ge in Hb. exact Hb.
      * destruct Hcase as [Hc|(g & t & Hg & Hn & Hk & Hm & Hlt & Hfirst)];
          [left; exact Hc|].
        right. exists g, t.
        repeat (split; [first [assumption | apply Hold; assumption]|]).
        intros j u Hj Hnj Hkj.
        apply nth_error_snoc_inv in Hnj. destruct Hnj as [Hnj|[-> ->]].
        -- apply (Hfirst j u Hj Hnj Hkj).
        -- assert (g < length done)%nat; [|lia].
           apply nth_error_Some. congruence.
Qed.

Lemma SelectUsingPrune_work (s : THcHallCSpectrometer) :
  prune_after
    (length (prune_cuts
               (set_fGoodTrack
                  (set_fChi2Min (set_prune s (clamp_prune (prune s))) 1e10)
                  0%Z)))
    (set_fGoodTrack
       (set_fChi2Min (set_prune s (clamp_prune (prune s))) 1e10) 0%Z)
  = prune_final s.
Proof. reflexivity. Qed.

End PrunePick.

(** C6 (amended).  In the prune selection, for an event on which the two
    quotients are numbers (the beta from the momentum for every
    candidate, chi2/ndof for every candidate left kept), after the last
    block: for an empty candidate set the golden reference is NULL; for a
    non-empty one the kept set is not empty, there is no second scan, and
    whenever some kept candidate has a chi-square per degree of freedom
    below 1e10 (the value the running minimum starts from) the golden
    track is the first kept candidate with the smallest chi-square per
    degree of freedom. *)
Theorem C6_prune_pick (E : Externals) (s : THcHallCSpectrometer) :
  fSelUsingPrune (cfg s) = 1%Z ->
  beta_defined_event s ->
  (forall j u, nth_error (fTracks s) j = Some u ->
               fKeep (prune_final s) j = true -> chi2_defined u) ->
  let s' := snd (TrackCalc s) in
  let w := prune_final s in
  (fTracks s = [] -> fGoldenTrack s' = None) /\
  (fTracks s <> [] -> kept_nonempty (fTracks s) w) /\
  (forall j u,
      nth_error (fTracks s) j = Some u -> fKeep w j = true ->
      Chi2PerDeg u < 1e10 ->
      exists g t,
        fGoldenTrack s' = Some g /\ nth_error (fTracks s) g = Some t /\
        fKeep w g = true /\
        (forall j' u', nth_error (fTracks s) j' = Some u' ->
                       fKeep w j' = true ->
                       Chi2PerDeg t <= Chi2PerDeg u') /\
        (forall j' u', (j' < g)%nat -> nth_error (fTracks s) j' = Some u' ->
                       fKeep w j' = true ->
                       Chi2PerDeg t < Chi2PerDeg u')).
Proof.
  intros Hprune _ _ s' w.
  assert (Hg : fGoldenTrack s' = fGoldenTrack (SelectUsingPrune s)).
  { unfold s'. rewrite TrackCalc_blocks.
    assert (HA : blockA s = s).
    { unfold blockA. rewrite Hprune. now rewrite andb_false_r. }
    rewrite HA. assert (HB := blockB_setup E s).
    unfold blockC. destruct HB as (Hc & HB). rewrite Hc, Hprune. simpl.
    apply SelectUsingPrune_golden_setup. split; assumption. }
  rewrite Hg. unfold SelectUsingPrune. cbv zeta.
  split; [|split].
  - intro Hnil.
    assert (Hn : (fNtracks (set_prune s (clamp_prune (prune s))) >? 0)%Z
                 = false) by (apply fNtracks_zero; exact Hnil).
    rewrite Hn. reflexivity.
  - intro Hne. unfold w, prune_final. cbv zeta.
    apply (prune_after_kept (set_prune s (clamp_prune (prune s)))).
    exact Hne.
  - intros j u Hn Hk Hlt.
    assert (Hne : (fNtracks (set_prune s (clamp_prune (prune s))) >? 0)%Z
                  = true).
    { apply fNtracks_pos. simpl. intro K. rewrite K in Hn.
      destruct j; discriminate. }
    rewrite Hne. rewrite SelectUsingPrune_work. fold w. simpl fTracks.
    match goal with
    | |- context [for_tracks ?l (prune_pick_track w) ?x0] =>
        destruct (prune_pick_inv w l x0 eq_refl) as [Hlow Hcase]
    end.
    simpl in Hlow, Hcase.
    destruct Hcase as [[Hc _]|(g & t & Hgood & Hng & Hkg & Hm & Hlt' & Hfirst)].
    + specialize (Hlow j u Hn Hk). rewrite Hc in Hlow. lra.
    + exists g, t. simpl. rewrite Hgood, Nat2Z.id.
      split; [reflexivity|]. split; [exact Hng|]. split; [exact Hkg|].
      split; [|exact Hfirst].
      intros j' u' Hn' Hk'. rewrite <- Hm. apply (Hlow j' u' Hn' Hk').
Qed.

Lemma C6_prune_pick_witness :
  exists g t,
    fGoldenTrack (snd (@TrackCalc sample_externals ev_prune_three)) = Some g
    /\ nth_error (fTracks ev_prune_three) g = Some t
    /\ fKeep (@prune_final sample_externals ev_prune_three) g = true
    /\ forall j' u',
        nth_error (fTracks ev_prune_three) j' = Some u' ->
        fKeep (@prune_final sample_externals ev_prune_three) j' = true ->
        Chi2PerDeg t <= Chi2PerDeg u'.
Proof.
  assert (Hbeta : @beta_defined_event sample_externals ev_prune_three).
  { intros t [<-|[<-|[<-|[]]]]; vm_compute; discriminate. }
  assert (Hndof : forall j u,
             nth_error (fTracks ev_prune_three) j = Some u ->
             fKeep (@prune_final sample_externals ev_prune_three) j = true ->
             chi2_defined u).
  { intros j u Hn _. apply nth_error_In in Hn.
    destruct Hn as [<-|[<-|[<-|[]]]]; discriminate. }
  destruct (C6_prune_pick sample_externals ev_prune_three eq_refl Hbeta
              Hndof) as (_ & _ & H).
  destruct (H 1%nat (prune_track 0 0 5) eq_refl eq_refl eq_refl)
    as (g & t & Hg & Hn & Hk & Hmin & _).
  exists g, t. auto.
Defined.

(** C6 as the specification words it fails where no kept candidate has a
    chi-square per degree of freedom below 1e10: the candidate at index 0
    becomes golden although it is not kept. *)
Lemma C6_counterexample_sentinel :
  fKeep (@prune_final sample_externals ev_prune_sentinel) 0 = false /\
  fKeep (@prune_final sample_externals ev_prune_sentinel) 1 = true /\
  fGoldenTrack (snd (@TrackCalc sample_externals ev_prune_sentinel))
  = Some 0%nat.
Proof. vm_compute. repeat split. Qed.

(** ** Strategy B: the first loop *)

Section ScinProofs.
Context {E : Externals}.

Lemma scin_scores_frame (c : Config) (hodo : THcHodoscope) (n : Z)
  (k : nat) (t : THaTrack) (w : ScinLocals) :
  (forall j, j <> k ->
             fY2D (scin_scores c hodo n k t w) j = fY2D w j /\
             fX2D (scin_scores c hodo n k t w) j = fX2D w j) /\
  fY2Dmin (scin_scores c hodo n k t w) = fY2Dmin w /\
  fX2Dmin (scin_scores c hodo n k t w) = fX2Dmin w.
Proof.
  unfold scin_scores.
  destruct (mark_hits hodo (fNPlanes c) _) as [[x y] raw].
  cbn [fY2D fX2D fY2Dmin fX2Dmin].
  split; [|split; reflexivity].
  intros j Hj.
  destruct (n >? 1)%Z, (n =? 1)%Z; rewrite ?upd_other by exact Hj;
    split; reflexivity.
Qed.


Lemma scin_select_arrays (k : nat) (chi : Q)
  (st : ScinLocals * THcHallCSpectrometer) :
  fY2D (fst (scin_select k chi st)) = fY2D (fst st) /\
  fX2D (fst (scin_select k chi st)) = fX2D (fst st).
Proof.
  destruct st as [w x]. unfold scin_select.
  repeat match goal with
         | |- context [if ?b then _ else _] => destruct b
         end; split; reflexivity.
Qed.

Lemma no_worse_ext (w w0 : ScinLocals) (g j : nat) (t u : THaTrack) :
  fY2D w g = fY2D w0 g -> fX2D w g = fX2D w0 g ->
  fY2D w j = fY2D w0 j -> fX2D w j = fX2D w0 j ->
  no_worse w0 g t j u -> no_worse w g t j u.
Proof.
  unfold no_worse. intros -> -> -> ->. exact (fun H => H).
Qed.

Lemma nth_error_lt {A : Type} (l : list A) (j : nat) (a : A) :
  nth_error l j = Some a -> (j < length l)%nat.
Proof. intro H. apply nth_error_Some. congruence. Qed.

Lemma scin_bounds_ext (c : Config) (done : list THaTrack)
  (w w0 : ScinLocals) :
  (forall j, (j < length done)%nat ->
             fY2D w j = fY2D w0 j /\ fX2D w j = fX2D w0 j) ->
  scin_bounds c done w0 -> scin_bounds c done w.
Proof.
  intros Hext Hb j u Hn Hq.
  destruct (Hext j (nth_error_lt _ _ _ Hn)) as [-> ->].
  apply (Hb j u Hn Hq).
Qed.

Lemma scin_bounds_prefix (c : Config) (done : list THaTrack) (a : THaTrack)
  (w : ScinLocals) :
  scin_bounds c (done ++ [a]) w -> scin_bounds c done w.
Proof.
  intros Hb j u Hn Hq. apply (Hb j u); [|exact Hq].
  rewrite nth_error_app1; [exact Hn | eapply nth_error_lt, Hn].
Qed.

Lemma scin_chosen_ext (c : Config) (done : list THaTrack)
  (w w0 : ScinLocals) (x : THcHallCSpectrometer) :
  (forall j, (j < length done)%nat ->
             fY2D w j = fY2D w0 j /\ fX2D w j = fX2D w0 j) ->
  fY2Dmin w = fY2Dmin w0 -> fX2Dmin w = fX2Dmin w0 ->
  scin_chosen c done (w0, x) -> scin_chosen c done (w, x).
Proof.
  intros Hext HY HX [H|(g & t & Hn & Hq & HG & Hgold & Hy & Hx & HC & Hbest)].
  - left. cbn [fst snd] in *. rewrite HY, HX. exact H.
  - right. exists g, t. cbn [fst snd] in *.
    destruct (Hext g (nth_error_lt _ _ _ Hn)) as [Eg1 Eg2].
    rewrite HY, HX, Eg1, Eg2.
    repeat (split; [assumption|]).
    intros j u Hnj Hqj.
    destruct (Hext j (nth_error_lt _ _ _ Hnj)) as [Ej1 Ej2].
    apply (no_worse_ext w w0); auto.
Qed.

(** A candidate that does not qualify leaves the state as it is. *)
Lemma scin_track_skip (c : Config) (hodo : THcHodoscope) (n : Z) (k : nat)
  (a : THaTrack) (st : ScinLocals * THcHallCSpectrometer) :
  qualifies c a = false -> scin_track c hodo n k a st = st.
Proof.
  unfold qualifies, scin_track. intro H.
  destruct (passes_ndof (sel c) a); [|reflexivity].
  simpl in H. now rewrite H.
Qed.

Lemma scin_track_qualified (c : Config) (hodo : THcHodoscope) (n : Z)
  (k : nat) (a : THaTrack) (st : ScinLocals * THcHallCSpectrometer) :
  qualifies c a = true ->
  scin_track c hodo n k a st
  = scin_select k (Chi2PerDeg a)
      (scin_scores c hodo n k a (fst st), snd st).
Proof.
  unfold qualifies, scin_track. intro H.
  apply andb_true_iff in H. destruct H as [-> ->]. reflexivity.
Qed.

Lemma scin_chosen_skip (c : Config) (done : list THaTrack) (a : THaTrack)
  (st : ScinLocals * THcHallCSpectrometer) :
  qualifies c a = false ->
  scin_chosen c done st -> scin_chosen c (done ++ [a]) st.
Proof.
  intros Hq [(Hnone & H)|(g & t & Hn & Hqg & HG & Hgold & Hy & Hx & HC & Hbest)].
  - left. split; [|exact H]. intros j u Hnj.
    apply nth_error_snoc_inv in Hnj. destruct Hnj as [Hnj|[_ ->]];
      [apply (Hnone j u Hnj) | exact Hq].
  - right. exists g, t.
    split; [rewrite nth_error_app1;
            [exact Hn | eapply nth_error_lt, Hn]|].
    repeat (split; [assumption|]).
    intros j u Hnj Hqj.
    apply nth_error_snoc_inv in Hnj. destruct Hnj as [Hnj|[_ ->]];
      [apply (Hbest j u Hnj Hqj) | congruence].
Qed.

Ltac q_tests :=
  repeat match goal with
         | H : Qleb _ _ = true |- _ => apply Qleb_le in H
         | H : Qleb _ _ = false |- _ => apply Qleb_gt in H
         | H : Qltb _ _ = true |- _ => apply Qltb_lt in H
         | H : Qltb _ _ = false |- _ => apply Qltb_ge in H
         end.

Ltac scin_proj :=
  cbn [fst snd fY2D fX2D fY2Dmin fX2Dmin fChi2Min fGoodTrack fGoldenTrack
       set_fChi2Min set_fGoodTrack SetGolden] in *.

Ltac no_worse_tac :=
  unfold no_worse in *; scin_proj;
  first [ left; lra
        | right; left; split; lra
        | right; right; split; [lra | split; lra] ].

Lemma scin_select_step (c : Config) (done : list THaTrack) (a : THaTrack)
  (w : ScinLocals) (x : THcHallCSpectrometer) :
  qualifies c a = true ->
  scin_bounds c (done ++ [a]) w ->
  scin_chosen c done (w, x) ->
  scin_chosen c (done ++ [a])
    (scin_select (length done) (Chi2PerDeg a) (w, x)).
Proof.
  intros Hq Hb Hch.
  destruct (Hb (length done) a (nth_error_snoc_last done a) Hq)
    as (By & Bx & Bc).
  unfold scin_select.
  destruct Hch as [(Hnone & HY & HX & HC & HG)
                  |(g & t & Hn & Hqg & HG & Hgold & HY & HX & HC & Hbest)];
    cbn [fst snd] in *.
  - (* nothing chosen so far: the candidate is taken *)
    assert (Hnew : forall j u, nth_error (done ++ [a]) j = Some u ->
                               qualifies c u = true ->
                               no_worse w (length done) a j u).
    { intros j u Hnj Hqj. apply nth_error_snoc_inv in Hnj.
      destruct Hnj as [Hnj|[-> ->]].
      - rewrite (Hnone j u Hnj) in Hqj. discriminate.
      - right. right. repeat split; try reflexivity. lra. }
    rewrite HY.
    destruct (Qleb (fY2D w (length done)) 100) eqn:T1; q_tests; [|lra].
    destruct (Qltb (fY2D w (length done)) 100) eqn:T2; scin_proj;
      rewrite ?HX;
      (destruct (Qleb (fX2D w (length done)) 100) eqn:T3; q_tests; [|lra]);
      destruct (Qltb (fX2D w (length done)) 100) eqn:T4; scin_proj;
      rewrite ?HC;
      (destruct (Qltb (Chi2PerDeg a) 1e10) eqn:T5; q_tests; [|lra]);
      right; exists (length done), a; scin_proj;
      rewrite Nat2Z.id, nth_error_snoc_last;
      repeat (split; [first [reflexivity | assumption]|]);
      exact Hnew.
  - (* [g] is the best so far *)
    assert (Hg' : nth_error (done ++ [a]) g = Some t).
    { rewrite nth_error_app1; [exact Hn | eapply nth_error_lt, Hn]. }
    rewrite HY.
    destruct (Qleb (fY2D w (length done)) (fY2D w g)) eqn:T1.
    + destruct (Qltb (fY2D w (length done)) (fY2D w g)) eqn:T2; scin_proj;
        rewrite ?HX.
      * (* a smaller Y distance *)
        (destruct (Qleb (fX2D w (length done)) 100) eqn:T3; q_tests; [|lra]).
        destruct (Qltb (fX2D w (length done)) 100) eqn:T4; scin_proj;
          (destruct (Qltb (Chi2PerDeg a) 1e10) eqn:T5; q_tests; [|lra]);
          right; exists (length done), a; scin_proj;
          rewrite Nat2Z.id, nth_error_snoc_last;
          repeat (split; [first [reflexivity | assumption]|]);
          intros j u Hnj Hqj; apply nth_error_snoc_inv in Hnj;
          (destruct Hnj as [Hnj|[-> ->]];
           [specialize (Hbest j u Hnj Hqj);
            unfold no_worse in Hbest;
            destruct Hbest as [K|[[K1 K2]|(K1 & K2 & K3)]]
           |]); no_worse_tac.
      * (* the same Y distance *)
        destruct (Qleb (fX2D w (length done)) (fX2D w g)) eqn:T3.
        -- destruct (Qltb (fX2D w (length done)) (fX2D w g)) eqn:T4;
             scin_proj; rewrite ?HC.
           ++ (destruct (Qltb (Chi2PerDeg a) 1e10) eqn:T5; q_tests; [|lra]).
              right; exists (length done), a; scin_proj;
              rewrite Nat2Z.id, nth_error_snoc_last;
              repeat (split; [first [reflexivity | assumption]|]);
              intros j u Hnj Hqj; apply nth_error_snoc_inv in Hnj;
              (destruct Hnj as [Hnj|[-> ->]];
               [specialize (Hbest j u Hnj Hqj);
                unfold no_worse in Hbest;
                destruct Hbest as [K|[[K1 K2]|(K1 & K2 & K3)]]
               |]); no_worse_tac.
           ++ destruct (Qltb (Chi2PerDeg a) (Chi2PerDeg t)) eqn:T5; q_tests.
              ** right; exists (length done), a; scin_proj;
                 rewrite Nat2Z.id, nth_error_snoc_last;
                 repeat (split; [first [reflexivity | assumption]|]);
                 intros j u Hnj Hqj; apply nth_error_snoc_inv in Hnj;
                 (destruct Hnj as [Hnj|[-> ->]];
                  [specialize (Hbest j u Hnj Hqj);
                   unfold no_worse in Hbest;
                   destruct Hbest as [K|[[K1 K2]|(K1 & K2 & K3)]]
                  |]); no_worse_tac.
              ** right; exists g, t; scin_proj.
                 repeat (split; [first [reflexivity | assumption]|]).
                 intros j u Hnj Hqj; apply nth_error_snoc_inv in Hnj.
                 destruct Hnj as [Hnj|[-> ->]];
                   [apply (Hbest j u Hnj Hqj) | no_worse_tac].
        -- q_tests. right; exists g, t; scin_proj.
           repeat (split; [first [reflexivity | assumption]|]).
           intros j u Hnj Hqj; apply nth_error_snoc_inv in Hnj.
           destruct Hnj as [Hnj|[-> ->]];
             [apply (Hbest j u Hnj Hqj) | no_worse_tac].
    + q_tests. right; exists g, t; scin_proj.
      repeat (split; [first [reflexivity | assumption]|]).
      intros j u Hnj Hqj; apply nth_error_snoc_inv in Hnj.
      destruct Hnj as [Hnj|[-> ->]];
        [apply (Hbest j u Hnj Hqj) | no_worse_tac].
Qed.

(** The first loop keeps the best qualifying candidate, as long as the
    scores and chi-squares stay within the starting values of the
    minima. *)
Lemma scin_loop_chosen (s : THcHallCSpectrometer) :
  scin_bounds (cfg s) (fTracks s) (fst (scin_loop s)) ->
  scin_chosen (cfg s) (fTracks s) (scin_loop s).
Proof.
  unfold scin_loop.
  apply (for_tracks_inv
           (fun done st => scin_bounds (cfg s) done (fst st) ->
                           scin_chosen (cfg s) done st)).
  - intros _. left. cbn. repeat split.
    intros j u Hn. destruct j; discriminate.
  - intros done a rest [w x] _ IH Hb. cbn [fst snd] in *.
    destruct (qualifies (cfg s) a) eqn:Hq.
    + rewrite (scin_track_qualified _ _ _ _ _ _ Hq) in *.
      cbn [fst snd] in *.
      destruct (scin_scores_frame (cfg s) (fHodo s) (fNtracks s)
                  (length done) a w) as (Hfr & HY & HX).
      destruct (scin_select_arrays (length done) (Chi2PerDeg a)
                  (scin_scores (cfg s) (fHodo s) (fNtracks s)
                     (length done) a w, x)) as [Ay Ax].
      cbn [fst] in Ay, Ax.
      assert (Hb1 : scin_bounds (cfg s) (done ++ [a])
                      (scin_scores (cfg s) (fHodo s) (fNtracks s)
                         (length done) a w)).
      { intros j u Hn Hqu. specialize (Hb j u Hn Hqu).
        rewrite Ay, Ax in Hb. exact Hb. }
      apply scin_select_step; [exact Hq | exact Hb1 |].
      apply (scin_chosen_ext _ _ _ w).
      * intros j Hj. apply Hfr. lia.
      * exact HY.
      * exact HX.
      * apply IH.
        apply (scin_bounds_ext _ _ _
                 (scin_scores (cfg s) (fHodo s) (fNtracks s)
                    (length done) a w)).
        -- intros j Hj. destruct (Hfr j ltac:(lia)) as [e1 e2].
           split; symmetry; assumption.
        -- apply (scin_bounds_prefix _ _ a). exact Hb1.
    + rewrite (scin_track_skip _ _ _ _ _ _ Hq) in *.
      apply scin_chosen_skip; [exact Hq|]. apply IH.
      apply (scin_bounds_prefix _ _ a). exact Hb.
Qed.

(** With no qualifying candidate the first loop does nothing. *)
Lemma scin_loop_none (s : THcHallCSpectrometer) :
  (forall t, In t (fTracks s) -> qualifies (cfg s) t = false) ->
  scin_loop s = scin_init s.
Proof.
  intro Hnone. unfold scin_loop.
  apply (for_tracks_inv (fun _ st => st = scin_init s)).
  - reflexivity.
  - intros done a rest st Hl ->. apply scin_track_skip. apply Hnone.
    rewrite Hl. apply in_or_app. right. now left.
Qed.

(** The second loop, from [fChi2Min = 1e10]. *)
Lemma scin_fallback_inv (c : Config) (tracks : list THaTrack)
  (x0 : THcHallCSpectrometer) :
  fChi2Min x0 = 1e10 ->
  let st := for_tracks tracks (scin_fallback_track c) x0 in
  (forall j u, nth_error tracks j = Some u ->
               passes_ndof (sel c) u = true ->
               fChi2Min st <= Chi2PerDeg u) /\
  ((fChi2Min st = 1e10 /\ fGoldenTrack st = fGoldenTrack x0) \/
   (exists g t,
       fGoldenTrack st = Some g /\ nth_error tracks g = Some t /\
       passes_ndof (sel c) t = true /\ fChi2Min st = Chi2PerDeg t /\
       Chi2PerDeg t < 1e10 /\
       forall j u, (j < g)%nat -> nth_error tracks j = Some u ->
                   passes_ndof (sel c) u = true ->
                   Chi2PerDeg t < Chi2PerDeg u)).
Proof.
  intros H0 st. unfold st.
  apply (for_tracks_inv
           (fun done st =>
              fChi2Min st <= 1e10 /\
              (forall j u, nth_error done j = Some u ->
                           passes_ndof (sel c) u = true ->
                           fChi2Min st <= Chi2PerDeg u) /\
              ((fChi2Min st = 1e10 /\ fGoldenTrack st = fGoldenTrack x0) \/
               (exists g t,
                   fGoldenTrack st = Some g /\ nth_error done g = Some t /\
                   passes_ndof (sel c) t = true /\
                   fChi2Min st = Chi2PerDeg t /\
                   Chi2PerDeg t < 1e10 /\
                   forall j u, (j < g)%nat -> nth_error done j = Some u ->
                               passes_ndof (sel c) u = true ->
                               Chi2PerDeg t < Chi2PerDeg u)))).
  - rewrite H0. split; [lra|]. split.
    + intros j u Hn. destruct j; discriminate.
    + left. split; reflexivity.
  - intros done a rest x _ (Hle & Hlow & Hcase).
    unfold scin_fallback_track.
    assert (Hold : forall j u, nth_error done j = Some u ->
                               nth_error (done ++ [a]) j = Some u).
    { intros j u Hn. rewrite nth_error_app1; [exact Hn|].
      eapply nth_error_lt, Hn. }
    assert (Hkeep :
             (forall j u, nth_error (done ++ [a]) j = Some u ->
                          passes_ndof (sel c) u = true ->
                          fChi2Min x <= Chi2PerDeg u) ->
             fChi2Min x <= 1e10 /\
             (forall j u, nth_error (done ++ [a]) j = Some u ->
                          passes_ndof (sel c) u = true ->
                          fChi2Min x <= Chi2PerDeg u) /\
             ((fChi2Min x = 1e10 /\ fGoldenTrack x = fGoldenTrack x0) \/
              (exists g t,
                  fGoldenTrack x = Some g /\
                  nth_error (done ++ [a]) g = Some t /\
                  passes_ndof (sel c) t = true /\
                  fChi2Min x = Chi2PerDeg t /\
                  Chi2PerDeg t < 1e10 /\
                  forall j u, (j < g)%nat ->
                              nth_error (done ++ [a]) j = Some u ->
                              passes_ndof (sel c) u = true ->
                              Chi2PerDeg t < Chi2PerDeg u))).
    { intro Hlow'. split; [exact Hle|]. split; [exact Hlow'|].
      destruct Hcase as [Hc|(g & t & Hg & Hn & Hp & Hm & Hlt & Hfirst)];
        [left; exact Hc|].
      right. exists g, t.
      repeat (split; [first [assumption | apply Hold; assumption]|]).
      intros j u Hj Hnj Hpj.
      apply nth_error_snoc_inv in Hnj. destruct Hnj as [Hnj|[-> ->]].
      - apply (Hfirst j u Hj Hnj Hpj).
      - assert (g < length done)%nat by (eapply nth_error_lt, Hn). lia. }
    destruct (passes_ndof (sel c) a) eqn:Hp.
    + destruct (Qltb (Chi2PerDeg a) (fChi2Min x)) eqn:Hlt; q_tests.
      * cbn [fChi2Min fGoldenTrack fGoodTrack SetGolden set_fChi2Min
               set_fGoodTrack].
        split; [lra|]. split.
        -- intros j u Hn Hpj. apply nth_error_snoc_inv in Hn.
           destruct Hn as [Hn|[-> ->]]; [|lra].
           specialize (Hlow j u Hn Hpj). lra.
        -- right. exists (length done), a.
           rewrite Nat2Z.id, nth_error_snoc_last.
           repeat (split; [first [reflexivity | assumption | lra]|]).
           intros j u Hj Hn Hpj.
           apply nth_error_snoc_inv in Hn.
           destruct Hn as [Hn|[-> ->]]; [|lia].
           specialize (Hlow j u Hn Hpj). lra.
      * apply Hkeep. intros j u Hn Hpj.
        apply nth_error_snoc_inv in Hn.
        destruct Hn as [Hn|[-> ->]]; [apply (Hlow j u Hn Hpj) | exact Hlt].
    + apply Hkeep. intros j u Hn Hpj.
      apply nth_error_snoc_inv in Hn.
      destruct Hn as [Hn|[-> ->]]; [apply (Hlow j u Hn Hpj) | congruence].
Qed.

Lemma fHitCnt_range (icounter : Z) (npad : nat) :
  (1 <= TMath.MaxInt (TMath.MinInt icounter (Z.of_nat npad)) 1
   <= Z.max 1 (Z.of_nat npad))%Z.
Proof.
  unfold TMath.MaxInt, TMath.MinInt.
  destruct (icounter <=? Z.of_nat npad)%Z eqn:H1;
    [apply Z.leb_le in H1 | apply Z.leb_gt in H1];
    match goal with
    | |- context [(?a >=? 1)%Z] =>
        destruct (a >=? 1)%Z eqn:H2;
        [apply Z.geb_le in H2 | rewrite Z.geb_leb in H2; apply Z.leb_gt in H2]
    end; lia.
Qed.

Lemma nearest_hit_bound (hits : nat -> Z) (npad : nat) (cnt : Z) :
  (1 <= cnt <= Z.max 1 (Z.of_nat npad))%Z ->
  0 <= nearest_hit hits npad cnt
  /\ nearest_hit hits npad cnt <= inject_Z (Z.max 0 (Z.of_nat npad - 1)).
Proof.
  intro Hc. unfold nearest_hit.
  apply (for_loop_inv
           (fun (i : nat) (st : Q * Q) =>
              0 <= fst st
              /\ fst st <= inject_Z (Z.max 0 (Z.of_nat npad - 1)))).
  - simpl. split; [lra|]. rewrite <- (Zle_Qle 0). lia.
  - intros i [fZap ft] Hi [H0 H1]. cbn [fst] in *.
    destruct (hits i =? 0)%Z; [|split; assumption].
    assert (Hd : 0 <= inject_Z (TMath.AbsInt (cnt - Z.of_nat i - 1))
                 /\ inject_Z (TMath.AbsInt (cnt - Z.of_nat i - 1))
                    <= inject_Z (Z.max 0 (Z.of_nat npad - 1))).
    { unfold TMath.AbsInt.
      destruct (cnt - Z.of_nat i - 1 >=? 0)%Z eqn:Hs;
        [apply Z.geb_le in Hs
        | rewrite Z.geb_leb in Hs; apply Z.leb_gt in Hs];
        (split; [rewrite <- (Zle_Qle 0) | rewrite <- Zle_Qle]); lia. }
    destruct Hd as [D0 D1].
    repeat match goal with
           | |- context [if ?b then _ else _] => destruct b
           end; cbn [fst]; split; assumption.
Qed.

Lemma scin_scores_bound (c : Config) (hodo : THcHodoscope) (n : Z)
  (k : nat) (t : THaTrack) (w : ScinLocals) :
  (1 <= n)%Z ->
  (GetNPaddles hodo 2 <= 101)%nat -> (GetNPaddles hodo 3 <= 101)%nat ->
  fY2D (scin_scores c hodo n k t w) k <= 100 /\
  fX2D (scin_scores c hodo n k t w) k <= 100.
Proof.
  intros Hn H2 H3. unfold scin_scores.
  destruct (mark_hits hodo (fNPlanes c) _) as [[x y] raw].
  cbn [fY2D fX2D].
  assert (B : forall hits npad ic,
             (npad <= 101)%nat ->
             nearest_hit hits npad
               (TMath.MaxInt (TMath.MinInt ic (Z.of_nat npad)) 1) <= 100).
  { intros hits npad ic Hp.
    destruct (nearest_hit_bound hits npad _ (fHitCnt_range ic npad))
      as [_ Hb].
    eapply Qle_trans; [exact Hb|].
    change 100 with (inject_Z 100). rewrite <- Zle_Qle. lia. }
  destruct (n =? 1)%Z eqn:N1.
  - rewrite !upd_same. split; lra.
  - assert (N2 : (n >? 1)%Z = true).
    { apply Z.eqb_neq in N1. rewrite Z.gtb_ltb. apply Z.ltb_lt. lia. }
    rewrite N2, !upd_same. split; apply B; assumption.
Qed.

(** With at most 101 paddles in the planes 2 and 3, no score exceeds
    100. *)
Lemma scin_bounds_paddles (s : THcHallCSpectrometer) :
  (GetNPaddles (fHodo s) 2 <= 101)%nat ->
  (GetNPaddles (fHodo s) 3 <= 101)%nat ->
  (forall u, In u (fTracks s) -> qualifies (cfg s) u = true ->
             Chi2PerDeg u < 1e10) ->
  scin_bounds (cfg s) (fTracks s) (fst (scin_loop s)).
Proof.
  intros H2 H3 Hchi. unfold scin_loop.
  apply (for_tracks_inv
           (fun done st => scin_bounds (cfg s) done (fst st))).
  - intros j u Hn. destruct j; discriminate.
  - intros done a rest [w x] Hl IH. cbn [fst snd] in *.
    assert (Hn1 : (1 <= fNtracks s)%Z).
    { unfold fNtracks. rewrite Hl, length_app. simpl. lia. }
    destruct (qualifies (cfg s) a) eqn:Hq.
    + rewrite (scin_track_qualified _ _ _ _ _ _ Hq). cbn [fst snd].
      destruct (scin_scores_frame (cfg s) (fHodo s) (fNtracks s)
                  (length done) a w) as (Hfr & _ & _).
      destruct (scin_select_arrays (length done) (Chi2PerDeg a)
                  (scin_scores (cfg s) (fHodo s) (fNtracks s)
                     (length done) a w, x)) as [Ay Ax].
      cbn [fst] in Ay, Ax.
      intros j u Hn Hqu. rewrite Ay, Ax.
      apply nth_error_snoc_inv in Hn. destruct Hn as [Hn|[-> ->]].
      * destruct (Hfr j) as [-> ->].
        { assert (j < length done)%nat by (eapply nth_error_lt, Hn). lia. }
        apply (IH j u Hn Hqu).
      * destruct (scin_scores_bound (cfg s) (fHodo s) (fNtracks s)
                    (length done) a w Hn1 H2 H3) as [By Bx].
        split; [exact By|]. split; [exact Bx|].
        apply Hchi; [|exact Hq]. rewrite Hl. apply in_or_app.
        right. now left.
    + rewrite (scin_track_skip _ _ _ _ _ _ Hq).
      intros j u Hn Hqu. apply nth_error_snoc_inv in Hn.
      destruct Hn as [Hn|[-> ->]]; [apply (IH j u Hn Hqu) | congruence].
Qed.

(** TrackCalc with the scintillator mode alone. *)
Lemma TrackCalc_scin_only (s : THcHallCSpectrometer) :
  fSelUsingScin (cfg s) = 1%Z -> fSelUsingPrune (cfg s) <> 1%Z ->
  snd (TrackCalc s) = SelectUsingScin s.
Proof.
  intros Hscin Hprune. rewrite TrackCalc_blocks.
  assert (HA : blockA s = s).
  { unfold blockA. now rewrite Hscin. }
  rewrite HA. unfold blockB. rewrite Hscin. simpl.
  unfold blockC. destruct (SelectUsingScin_setup s) as (Hc & _).
  rewrite Hc. destruct (Z.eqb_spec (fSelUsingPrune (cfg s)) 1);
    [contradiction | reflexivity].
Qed.

End ScinProofs.

(** C4 (amended).  In the scintillator selection (prune mode off), when
    the planes 2 and 3 have at most 101 paddles each (so that no distance
    exceeds 100, the value the running minima start from) and a non-zero
    paddle spacing, some candidate passes the degrees-of-freedom cut and
    the range cuts, and every such candidate has a non-zero number of
    degrees of freedom and a chi-square per degree of freedom below 1e10
    (the value the running chi-square minimum starts from): the golden
    track is a qualifying candidate whose pair of stored scores (fY2D,
    fX2D: the values the loop writes for the candidate, from the paddles
    marked hit during its own walk) is lexicographically minimal among
    the qualifying candidates, and among those sharing that pair it has
    the smallest chi-square per degree of freedom. *)
Theorem C4_scin_choice (E : Externals) (s : THcHallCSpectrometer) :
  fSelUsingScin (cfg s) = 1%Z -> fSelUsingPrune (cfg s) <> 1%Z ->
  (GetNPaddles (fHodo s) 2 <= 101)%nat ->
  (GetNPaddles (fHodo s) 3 <= 101)%nat ->
  spacing_defined (fHodo s) ->
  (exists j u, nth_error (fTracks s) j = Some u
               /\ qualifies (cfg s) u = true) ->
  (forall u, In u (fTracks s) -> qualifies (cfg s) u = true ->
             chi2_defined u) ->
  (forall u, In u (fTracks s) -> qualifies (cfg s) u = true ->
             Chi2PerDeg u < 1e10) ->
  exists g t,
    fGoldenTrack (snd (TrackCalc s)) = Some g /\
    nth_error (fTracks s) g = Some t /\ qualifies (cfg s) t = true /\
    forall j u, nth_error (fTracks s) j = Some u ->
                qualifies (cfg s) u = true ->
                no_worse (fst (scin_loop s)) g t j u.
Proof.
  intros Hscin Hprune H2 H3 _ (j0 & u0 & Hn0 & Hq0) _ Hchi.
  assert (Hb := scin_bounds_paddles s H2 H3 Hchi).
  rewrite (TrackCalc_scin_only s Hscin Hprune).
  destruct (scin_loop_chosen s Hb)
    as [(Hnone & _)|(g & t & Hn & Hq & HG & Hgold & _ & _ & _ & Hbest)].
  - rewrite (Hnone j0 u0 Hn0) in Hq0. discriminate.
  - exists g, t. unfold SelectUsingScin.
    assert (Hne : (fNtracks s >? 0)%Z = true).
    { apply fNtracks_pos. intro K. rewrite K in Hn0.
      destruct j0; discriminate. }
    rewrite Hne. cbv zeta.
    assert (Hgood : (fGoodTrack (snd (scin_loop s)) =? -1)%Z = false).
    { rewrite HG. apply Z.eqb_neq. lia. }
    rewrite Hgood. auto.
Qed.

Lemma C4_scin_choice_witness :
  exists g t,
    fGoldenTrack (snd (@TrackCalc sample_externals ev_scin_two)) = Some g /\
    nth_error (fTracks ev_scin_two) g = Some t /\
    @qualifies (cfg ev_scin_two) t = true /\
    forall j u, nth_error (fTracks ev_scin_two) j = Some u ->
                @qualifies (cfg ev_scin_two) u = true ->
                no_worse (fst (@scin_loop sample_externals ev_scin_two))
                  g t j u.
Proof.
  apply (C4_scin_choice sample_externals ev_scin_two).
  - reflexivity.
  - discriminate.
  - apply Nat.leb_le. reflexivity.
  - apply Nat.leb_le. reflexivity.
  - split; discriminate.
  - exists 0%nat, (sample_track 4 (-4) 5 0). split; reflexivity.
  - intros u [<-|[<-|[]]] _; discriminate.
  - intros u [<-|[<-|[]]] _; reflexivity.
Defined.

(** C4 as the specification words it fails in two ways.  Where a qualifying
    candidate has a chi-square per degree of freedom of 1e10 or more: both
    candidates of [ev_scin_sentinel] qualify, the first has the pair (0,0)
    and the second the pair (4,4), and the second becomes golden.  Where a
    distance exceeds 100: both candidates of [ev_scin_wide] qualify, with
    the pairs (150,0) and (120,0); neither is taken by the first loop and
    the second loop makes the first golden. *)
Lemma C4_counterexample_sentinel :
  (map (@qualifies (cfg ev_scin_sentinel)) (fTracks ev_scin_sentinel)
   = [true; true] /\
   fY2D (fst (@scin_loop sample_externals ev_scin_sentinel)) 0 == 0 /\
   fX2D (fst (@scin_loop sample_externals ev_scin_sentinel)) 0 == 0 /\
   fY2D (fst (@scin_loop sample_externals ev_scin_sentinel)) 1 == 4 /\
   fX2D (fst (@scin_loop sample_externals ev_scin_sentinel)) 1 == 4 /\
   fGoldenTrack (snd (@TrackCalc sample_externals ev_scin_sentinel))
   = Some 1%nat) /\
  (map (@qualifies (cfg ev_scin_wide)) (fTracks ev_scin_wide)
   = [true; true] /\
   fY2D (fst (@scin_loop sample_externals ev_scin_wide)) 0 == 150 /\
   fX2D (fst (@scin_loop sample_externals ev_scin_wide)) 0 == 0 /\
   fY2D (fst (@scin_loop sample_externals ev_scin_wide)) 1 == 120 /\
   fX2D (fst (@scin_loop sample_externals ev_scin_wide)) 1 == 0 /\
   fGoldenTrack (snd (@TrackCalc sample_externals ev_scin_wide))
   = Some 0%nat).
Proof. vm_compute. repeat split. Qed.

(** C5 (amended).  In the scintillator selection (prune mode off), if no
    candidate passes the combined degrees-of-freedom and range cuts, all
    candidates are scanned again with the degrees-of-freedom cut alone,
    and -- the candidates passing it having a non-zero number of degrees
    of freedom -- whenever one of them has a chi-square per degree of
    freedom below 1e10, the first candidate with the smallest chi-square
    per degree of freedom among those passing becomes golden.  For an
    empty candidate set the golden reference is NULL. *)
Theorem C5_scin_fallback (E : Externals) (s : THcHallCSpectrometer) :
  fSelUsingScin (cfg s) = 1%Z -> fSelUsingPrune (cfg s) <> 1%Z ->
  (forall t, In t (fTracks s) -> qualifies (cfg s) t = false) ->
  (forall t, In t (fTracks s) -> passes_ndof (sel (cfg s)) t = true ->
             chi2_defined t) ->
  let s' := snd (TrackCalc s) in
  (fTracks s = [] -> fGoldenTrack s' = None) /\
  (forall j u,
      nth_error (fTracks s) j = Some u ->
      passes_ndof (sel (cfg s)) u = true -> Chi2PerDeg u < 1e10 ->
      exists g t,
        fGoldenTrack s' = Some g /\ nth_error (fTracks s) g = Some t /\
        passes_ndof (sel (cfg s)) t = true /\
        (forall j' u', nth_error (fTracks s) j' = Some u' ->
                       passes_ndof (sel (cfg s)) u' = true ->
                       Chi2PerDeg t <= Chi2PerDeg u') /\
        (forall j' u', (j' < g)%nat -> nth_error (fTracks s) j' = Some u' ->
                       passes_ndof (sel (cfg s)) u' = true ->
                       Chi2PerDeg t < Chi2PerDeg u')).
Proof.
  intros Hscin Hprune Hnone _ s'. unfold s'.
  rewrite (TrackCalc_scin_only s Hscin Hprune). unfold SelectUsingScin.
  split.
  - intro Hnil. apply fNtracks_zero in Hnil. rewrite Hnil. reflexivity.
  - intros j u Hn Hp Hlt.
    assert (Hne : (fNtracks s >? 0)%Z = true).
    { apply fNtracks_pos. intro K. rewrite K in Hn.
      destruct j; discriminate. }
    rewrite Hne. cbv zeta. rewrite (scin_loop_none s Hnone).
    cbn [snd scin_init fGoodTrack set_fGoodTrack fTracks cfg set_fChi2Min].
    simpl (-1 =? -1)%Z. cbv iota.
    match goal with
    | |- context [for_tracks ?l (scin_fallback_track ?c) ?x0] =>
        destruct (scin_fallback_inv c l x0 eq_refl) as [Hlow Hcase]
    end.
    cbv zeta in Hlow, Hcase.
    destruct Hcase as [[Hc _]|(g & t & Hg & Hng & Hpg & Hm & Hlt' & Hfirst)].
    + specialize (Hlow j u Hn Hp). rewrite Hc in Hlow. lra.
    + exists g, t. repeat (split; [assumption|]). split; [|exact Hfirst].
      intros j' u' Hn' Hp'. rewrite <- Hm. apply (Hlow j' u' Hn' Hp').
Qed.

Lemma C5_scin_fallback_witness :
  exists g t,
    fGoldenTrack (snd (@TrackCalc sample_externals ev_scin_unqualified))
    = Some g /\
    nth_error (fTracks ev_scin_unqualified) g = Some t /\
    forall j' u', nth_error (fTracks ev_scin_unqualified) j' = Some u' ->
                  passes_ndof (sel (cfg ev_scin_unqualified)) u' = true ->
                  Chi2PerDeg t <= Chi2PerDeg u'.
Proof.
  destruct (C5_scin_fallback sample_externals ev_scin_unqualified
              eq_refl ltac:(discriminate)) as [_ H].
  - intros t [<-|[<-|[]]]; reflexivity.
  - intros t [<-|[<-|[]]] _; discriminate.
  - destruct (H 1%nat (sample_track 0 0 3 7) eq_refl eq_refl eq_refl)
      as (g & t & Hg & Hn & _ & Hmin & _).
    exists g, t. auto.
Defined.

(** C5 as the specification words it fails: with a non-empty candidate set
    and no candidate passing the degrees-of-freedom cut, or none of those
    passing below 1e10, TrackCalc leaves the golden reference as it found
    it. *)
Lemma C5_counterexample_stale_golden :
  (forall t, In t (fTracks ev_scin_stale) ->
             passes_ndof (sel (cfg ev_scin_stale)) t = false) /\
  fGoldenTrack ev_scin_stale = Some 3%nat /\
  fGoldenTrack (snd (@TrackCalc sample_externals ev_scin_stale))
  = Some 3%nat /\
  map (passes_ndof (sel (cfg ev_scin_stale_sentinel)))
    (fTracks ev_scin_stale_sentinel) = [true] /\
  map (@qualifies (cfg ev_scin_stale_sentinel))
    (fTracks ev_scin_stale_sentinel) = [false] /\
  fGoldenTrack (snd (@TrackCalc sample_externals ev_scin_stale_sentinel))
  = Some 3%nat.
Proof.
  split; [intros t [<-|[]]; reflexivity|]. vm_compute. repeat split.
Qed.




(** ** The running hit index of the scintillator selection *)

Section HitIndex.
Context {E : Externals}.

(** One walk over the planes advances the hit index by the number of
    hits of the event. *)
Lemma mark_hits_index (hodo : THcHodoscope) (nplanes : Z)
  (x y : nat -> Z) (raw : Z) :
  snd (mark_hits hodo nplanes (x, y, raw))
  = (raw + total_hits hodo nplanes)%Z.
Proof.
  unfold mark_hits, total_hits.
  apply (for_loop_inv
           (fun i (st : (nat -> Z) * (nat -> Z) * Z) =>
              snd st
              = (raw + for_loop i
                         (fun ip n => (n + Z.of_nat (GetNScinHits hodo ip))%Z)
                         0%Z)%Z)).
  - unfold for_loop. simpl. lia.
  - intros i st _ Hst. rewrite for_loop_S, Z.add_assoc, <- Hst.
    apply (for_loop_inv
             (fun j (st' : (nat -> Z) * (nat -> Z) * Z) =>
                snd st' = (snd st + Z.of_nat j)%Z)).
    + simpl. lia.
    + intros j [[x1 y1] r1] _ Hj. simpl in *. lia.
Qed.

(** A qualifying candidate leaves the hit index advanced by the number
    of hits of the event: the next qualifying candidate starts its walk
    at the position where this one ended. *)
Lemma scin_scores_index (c : Config) (hodo : THcHodoscope) (n : Z)
  (k : nat) (t : THaTrack) (w : ScinLocals) :
  fRawIndex (scin_scores c hodo n k t w)
  = (fRawIndex w + total_hits hodo (fNPlanes c))%Z.
Proof.
  unfold scin_scores.
  match goal with
  | |- context [mark_hits hodo (fNPlanes c) (?x, ?y, ?r)] =>
      assert (H := mark_hits_index hodo (fNPlanes c) x y r);
      destruct (mark_hits hodo (fNPlanes c) (x, y, r)) as [[x1 y1] r1]
  end.
  simpl in *. exact H.
Qed.

End HitIndex.

(** ** What the two selections do when nothing is below the starting
    minimum *)

(** X16.  Scintillator selection: with a non-empty candidate set, no
    qualifying candidate, and no candidate that passes the
    degrees-of-freedom cut with a chi-square per degree of freedom below
    1e10, TrackCalc does not assign the golden reference: it keeps the
    value it had at entry. *)
Lemma scin_golden_left (E : Externals) (s : THcHallCSpectrometer) :
  fSelUsingScin (cfg s) = 1%Z -> fSelUsingPrune (cfg s) <> 1%Z ->
  fTracks s <> [] ->
  (forall t, In t (fTracks s) -> qualifies (cfg s) t = false) ->
  (forall j u, nth_error (fTracks s) j = Some u ->
               passes_ndof (sel (cfg s)) u = true ->
               1e10 <= Chi2PerDeg u) ->
  fGoldenTrack (snd (TrackCalc s)) = fGoldenTrack s.
Proof.
  intros Hscin Hprune Hne Hnone Hbig.
  rewrite (TrackCalc_scin_only s Hscin Hprune). unfold SelectUsingScin.
  apply fNtracks_pos in Hne. rewrite Hne. cbv zeta.
  rewrite (scin_loop_none s Hnone).
  cbn [snd scin_init fGoodTrack set_fGoodTrack fTracks cfg set_fChi2Min].
  simpl (-1 =? -1)%Z. cbv iota.
  match goal with
  | |- context [for_tracks ?l (scin_fallback_track ?c) ?x0] =>
      destruct (scin_fallback_inv c l x0 eq_refl) as [_ Hcase]
  end.
  cbv zeta in Hcase.
  destruct Hcase as [[_ Hg]|(g & t & _ & Hng & Hpg & _ & Hlt & _)].
  - exact Hg.
  - specialize (Hbig g t Hng Hpg). lra.
Qed.


(** ** The coefficient file (ReadDatabase) *)

Section FileProofs.
Context {D : DBExternals}.

Lemma split_lines_tail (tl : String.string) :
  one_line tl = true -> split_lines tl = ([], tl).
Proof.
  induction tl as [|c r IH]; simpl; intro H; [reflexivity|].
  apply andb_prop in H. destruct H as [Hc Hr].
  rewrite (IH Hr). apply negb_true_iff in Hc. now rewrite Hc.
Qed.

Lemma split_lines_line (l rest : String.string)
  (ls : list String.string) (tl : String.string) :
  one_line l = true -> split_lines rest = (ls, tl) ->
  split_lines (String.append l (String.String newline rest)) = (l :: ls, tl).
Proof.
  intros Hl Hrest. induction l as [|c r IH]; simpl.
  - rewrite Hrest. reflexivity.
  - simpl in Hl. apply andb_prop in Hl. destruct Hl as [Hc Hr].
    rewrite (IH Hr). apply negb_true_iff in Hc. now rewrite Hc.
Qed.

(** Splitting the text of a file gives its lines back. *)
Lemma split_lines_file_text (ls : list String.string) (tl : String.string) :
  forallb one_line ls = true -> one_line tl = true ->
  split_lines (file_text ls tl) = (ls, tl).
Proof.
  intros Hls Htl. induction ls as [|l ls IH]; simpl.
  - now apply split_lines_tail.
  - simpl in Hls. apply andb_prop in Hls. destruct Hls as [Hl Hls].
    apply split_lines_line; [exact Hl | exact (IH Hls)].
Qed.

(** [getline_while] is the loop of the source: one test of the guard,
    the body, one [getline], and the loop again. *)
Lemma getline_while_eq {A : Type} (cond : String.string -> bool)
  (body : String.string -> A -> A) (f : ifstream) (line : String.string)
  (acc : A) :
  getline_while cond body f line acc
  = if good f && cond line
    then let (f', line') := getline f line in
         getline_while cond body f' line' (body line acc)
    else (f, line, acc).
Proof.
  destruct f as [ls tl g]. unfold getline_while, getline. simpl.
  destruct g; simpl; [|reflexivity].
  destruct ls as [|l ls]; simpl; destruct (cond line); reflexivity.
Qed.

Lemma getline_loop_stop {A : Type} (cond : String.string -> bool)
  (body : String.string -> A -> A) (pre : list String.string)
  (l : String.string) (rest : list String.string) (tl line : String.string)
  (acc : A) :
  cond line = true -> forallb cond pre = true -> cond l = false ->
  getline_loop cond body (pre ++ l :: rest) tl line acc
  = ({| rest_lines := rest; rest_tail := tl; good := true |}, l,
     fold_left (fun a x => body x a) (line :: pre) acc).
Proof.
  revert line acc. induction pre as [|p pre IH]; intros line acc Hc Hpre Hl.
  - simpl. rewrite Hc. destruct rest; simpl; rewrite Hl; reflexivity.
  - simpl in Hpre. apply andb_prop in Hpre. destruct Hpre as [Hp Hpre].
    simpl. rewrite Hc. rewrite (IH p (body line acc) Hp Hpre Hl).
    reflexivity.
Qed.

Lemma getline_loop_eof {A : Type} (cond : String.string -> bool)
  (body : String.string -> A -> A) (ls : list String.string)
  (tl line : String.string) (acc : A) :
  cond line = true -> forallb cond ls = true ->
  getline_loop cond body ls tl line acc
  = ({| rest_lines := []; rest_tail := String.EmptyString; good := false |},
     tl, fold_left (fun a x => body x a) (line :: ls) acc).
Proof.
  revert line acc. induction ls as [|p ls IH]; intros line acc Hc Hls.
  - simpl. rewrite Hc. reflexivity.
  - simpl in Hls. apply andb_prop in Hls. destruct Hls as [Hp Hls].
    simpl. rewrite Hc. rewrite (IH p (body line acc) Hp Hls). reflexivity.
Qed.

Lemma separator_no_comment (l : String.string) :
  is_separator l = true -> is_comment l = false.
Proof.
  unfold is_separator, is_comment. destruct l as [|c r]; simpl.
  - discriminate.
  - destruct (Ascii.eqb_spec c " "%char) as [->|Hc]; simpl.
    + reflexivity.
    + discriminate.
Qed.

Lemma no_separator_forallb (ls : list String.string) :
  existsb is_separator ls = false ->
  forallb (fun l => negb (is_separator l)) ls = true.
Proof.
  induction ls as [|l ls IH]; simpl; [reflexivity|].
  intro H. apply orb_false_elim in H. destruct H as [Hl Hls].
  rewrite Hl, (IH Hls). reflexivity.
Qed.

(** The first two loops: everything before the first separator line is
    skipped, comment or not. *)
Lemma skip_to_separator (pre : list String.string) (sep : String.string)
  (rest : list String.string) (tl line : String.string) :
  is_comment line = true ->
  existsb is_separator pre = false -> is_separator sep = true ->
  forall f1 line1 x,
    getline_loop is_comment (fun _ (u : unit) => u)
      (pre ++ sep :: rest) tl line tt = (f1, line1, x) ->
    getline_while (fun l => negb (is_separator l)) (fun _ (u : unit) => u)
      f1 line1 tt
    = ({| rest_lines := rest; rest_tail := tl; good := true |}, sep, tt).
Proof.
  revert line. induction pre as [|p pre IH];
    intros line Hline Hpre Hsep f1 line1 x Hrun.
  - simpl in Hrun. rewrite Hline in Hrun.
    assert (Hs := separator_no_comment sep Hsep).
    destruct rest; simpl in Hrun; rewrite Hs in Hrun;
      inversion Hrun; subst; unfold getline_while; simpl;
      rewrite Hsep; reflexivity.
  - simpl in Hpre. apply orb_false_elim in Hpre. destruct Hpre as [Hp Hpre].
    simpl in Hrun. rewrite Hline in Hrun.
    destruct (is_comment p) eqn:Hcp.
    + exact (IH p Hcp Hpre Hsep f1 line1 x Hrun).
    + assert (Hstop : getline_loop is_comment (fun _ (u : unit) => u)
                        (pre ++ sep :: rest) tl p tt
                      = ({| rest_lines := pre ++ sep :: rest;
                            rest_tail := tl; good := true |}, p, tt)).
      { destruct pre; simpl; rewrite Hcp; reflexivity. }
      rewrite Hstop in Hrun.
      injection Hrun as Hf1 Hline1 _. subst f1 line1.
      unfold getline_while. simpl.
      rewrite (getline_loop_stop (fun l => negb (is_separator l))
                 (fun _ (u : unit) => u) pre sep rest tl p tt).
      * match goal with
        | |- (_, _, ?u) = _ => destruct u
        end. reflexivity.
      * now rewrite Hp.
      * now apply no_separator_forallb.
      * now rewrite Hsep.
Qed.

Lemma skip_no_separator (ls : list String.string) (tl line : String.string) :
  is_comment line = true -> existsb is_separator ls = false ->
  forall f1 line1 x,
    getline_loop is_comment (fun _ (u : unit) => u) ls tl line tt
    = (f1, line1, x) ->
    good (fst (fst (getline_while (fun l => negb (is_separator l))
                      (fun _ (u : unit) => u) f1 line1 tt))) = false.
Proof.
  revert line. induction ls as [|p ls IH];
    intros line Hline Hls f1 line1 x Hrun.
  - simpl in Hrun. rewrite Hline in Hrun.
    injection Hrun as Hf1 _ _. subst f1. reflexivity.
  - simpl in Hls. apply orb_false_elim in Hls. destruct Hls as [Hp Hls].
    simpl in Hrun. rewrite Hline in Hrun.
    destruct (is_comment p) eqn:Hcp.
    + exact (IH p Hcp Hls f1 line1 x Hrun).
    + assert (Hstop : getline_loop is_comment (fun _ (u : unit) => u)
                        ls tl p tt
                      = ({| rest_lines := ls; rest_tail := tl;
                            good := true |}, p, tt)).
      { destruct ls; simpl; rewrite Hcp; reflexivity. }
      rewrite Hstop in Hrun.
      injection Hrun as Hf1 Hline1 _. subst f1 line1.
      unfold getline_while. simpl.
      rewrite (getline_loop_eof (fun l => negb (is_separator l))
                 (fun _ (u : unit) => u) ls tl p tt).
      * reflexivity.
      * now rewrite Hp.
      * now apply no_separator_forallb.
Qed.

Lemma fold_table (l : list String.string) (n : Z) (ts : list reconTerm) :
  fold_left
    (fun a x =>
       (fun l (table : Z * list reconTerm) =>
          ((fst table + 1)%Z, snd table ++ [sscanf_term l])) x a)
    l (n, ts)
  = ((n + Z.of_nat (length l))%Z, ts ++ map sscanf_term l).
Proof.
  revert n ts. induction l as [|x l IH]; intros n ts.
  - simpl. now rewrite Z.add_0_r, app_nil_r.
  - cbn [fold_left]. rewrite IH. cbn [fst snd length map].
    rewrite <- app_assoc. f_equal. lia.
Qed.

(** A file with both separator lines: the table is the scan of the
    lines between them, whatever comes before, after, or in the header. *)
Lemma read_coefficients_complete (pre : list String.string)
  (sep1 : String.string) (data : list String.string) (sep2 : String.string)
  (post : list String.string) (tl : String.string) :
  existsb is_separator pre = false -> is_separator sep1 = true ->
  existsb is_separator data = false -> is_separator sep2 = true ->
  read_coefficients
    {| rest_lines := pre ++ sep1 :: data ++ sep2 :: post;
       rest_tail := tl; good := true |}
  = ({| rest_lines := post; rest_tail := tl; good := true |},
     (Z.of_nat (length data), map sscanf_term data)).
Proof.
  intros Hpre Hs1 Hdata Hs2. unfold read_coefficients.
  unfold getline_while at 1. cbn [good rest_lines rest_tail].
  destruct (getline_loop is_comment (fun _ (u : unit) => u)
              (pre ++ sep1 :: data ++ sep2 :: post) tl "!"%string tt)
    as [[f1 line1] x] eqn:H1.
  rewrite (skip_to_separator pre sep1 (data ++ sep2 :: post) tl "!"%string
             eq_refl Hpre Hs1 f1 line1 x H1).
  unfold getline. cbn [good rest_lines rest_tail].
  destruct data as [|d data]; cbn [app].
  - unfold getline_while. cbn [good rest_lines rest_tail].
    destruct post; simpl; rewrite Hs2; reflexivity.
  - simpl in Hdata. apply orb_false_elim in Hdata.
    destruct Hdata as [Hd Hdata].
    unfold getline_while. cbn [good rest_lines rest_tail].
    rewrite getline_loop_stop;
      [ | now rewrite Hd | now apply no_separator_forallb
        | now rewrite Hs2 ].
    rewrite fold_table. reflexivity.
Qed.

(** A file that ends before the second separator line: the stream is
    not good at the end, and the table holds the scan of every complete
    line after the first separator; the characters after the last
    newline are not scanned. *)
Lemma read_coefficients_truncated (pre : list String.string)
  (sep1 : String.string) (data : list String.string) (tl : String.string) :
  existsb is_separator pre = false -> is_separator sep1 = true ->
  existsb is_separator data = false ->
  read_coefficients
    {| rest_lines := pre ++ sep1 :: data; rest_tail := tl; good := true |}
  = ({| rest_lines := []; rest_tail := String.EmptyString; good := false |},
     (Z.of_nat (length data), map sscanf_term data)).
Proof.
  intros Hpre Hs1 Hdata. unfold read_coefficients.
  unfold getline_while at 1. cbn [good rest_lines rest_tail].
  destruct (getline_loop is_comment (fun _ (u : unit) => u)
              (pre ++ sep1 :: data) tl "!"%string tt)
    as [[f1 line1] x] eqn:H1.
  rewrite (skip_to_separator pre sep1 data tl "!"%string
             eq_refl Hpre Hs1 f1 line1 x H1).
  unfold getline. cbn [good rest_lines rest_tail].
  destruct data as [|d data].
  - reflexivity.
  - simpl in Hdata. apply orb_false_elim in Hdata.
    destruct Hdata as [Hd Hdata].
    unfold getline_while. cbn [good rest_lines rest_tail].
    rewrite getline_loop_eof;
      [ | now rewrite Hd | now apply no_separator_forallb ].
    rewrite fold_table. reflexivity.
Qed.

(** A file without a separator line: nothing is scanned. *)
Lemma read_coefficients_no_header (ls : list String.string)
  (tl : String.string) :
  existsb is_separator ls = false ->
  exists f,
    read_coefficients {| rest_lines := ls; rest_tail := tl; good := true |}
    = (f, (0%Z, [])) /\ good f = false.
Proof.
  intro Hls. unfold read_coefficients.
  unfold getline_while at 1. cbn [good rest_lines rest_tail].
  destruct (getline_loop is_comment (fun _ (u : unit) => u)
              ls tl "!"%string tt) as [[f1 line1] x] eqn:H1.
  assert (Hbad := skip_no_separator ls tl "!"%string eq_refl Hls
                    f1 line1 x H1).
  destruct (getline_while (fun l => negb (is_separator l))
              (fun _ (u : unit) => u) f1 line1 tt) as [[f2 line2] y].
  cbn [fst] in Hbad. unfold getline. rewrite Hbad.
  unfold getline_while. rewrite Hbad. exists f2. now split.
Qed.

Lemma first_separator (ls : list String.string) :
  existsb is_separator ls = false \/
  exists pre sep rest,
    ls = pre ++ sep :: rest /\ existsb is_separator pre = false
    /\ is_separator sep = true.
Proof.
  induction ls as [|l ls IH].
  - now left.
  - destruct (is_separator l) eqn:Hl.
    + right. exists [], l, ls. now repeat split.
    + destruct IH as [IH|(pre & sep & rest & -> & Hpre & Hsep)].
      * left. simpl. now rewrite Hl.
      * right. exists (l :: pre), sep, rest. repeat split; [|exact Hsep].
        simpl. now rewrite Hl.
Qed.

Lemma filter_none (ls : list String.string) :
  existsb is_separator ls = false -> filter is_separator ls = [].
Proof.
  induction ls as [|l ls IH]; simpl; [reflexivity|].
  intro H. apply orb_false_elim in H. destruct H as [Hl Hls].
  rewrite Hl. exact (IH Hls).
Qed.

(** The stream is good at the end exactly when the file has two
    separator lines, each ended by a newline. *)
Lemma read_coefficients_good (ls : list String.string) (tl : String.string) :
  good (fst (read_coefficients
               {| rest_lines := ls; rest_tail := tl; good := true |}))
  = true
  <-> (2 <= length (filter is_separator ls))%nat.
Proof.
  destruct (first_separator ls) as [Hnone|(pre & s1 & rest & -> & Hpre & Hs1)].
  - destruct (read_coefficients_no_header ls tl Hnone) as (f & Hf & Hbad).
    rewrite Hf. cbn [fst]. rewrite Hbad, (filter_none ls Hnone). simpl.
    split; [discriminate|lia].
  - rewrite filter_app, (filter_none pre Hpre). cbn [app filter].
    rewrite Hs1. cbn [length].
    destruct (first_separator rest)
      as [Hnone|(data & s2 & post & -> & Hdata & Hs2)].
    + rewrite (read_coefficients_truncated pre s1 rest tl Hpre Hs1 Hnone).
      rewrite (filter_none rest Hnone). simpl. split; [discriminate|lia].
    + rewrite (read_coefficients_complete pre s1 data s2 post tl
                 Hpre Hs1 Hdata Hs2).
      rewrite filter_app, (filter_none data Hdata). cbn [app filter].
      rewrite Hs2. simpl. split; [lia|reflexivity].
Qed.

End FileProofs.

(** X1.  ReadDatabase returns kOK exactly when the hodoscope is found, the
    coefficient file can be opened, and the file holds at least two
    separator lines (lines that begin with the four characters " ---"),
    each of them ended by a newline.  A separator that is the last line of
    the file and has no newline after it does not count. *)
Theorem ReadDatabase_status (D : DBExternals) (det : option THcHodoscope)
  (db : DBValues) (fs : String.string -> option String.string)
  (u : SpectrometerSetup) :
  fst (ReadDatabase det db fs u) = kOK <->
  exists hod content,
    det = Some hod /\ fs (reconCoeffFilename db) = Some content /\
    (2 <= length (filter is_separator (fst (split_lines content))))%nat.
Proof.
  unfold ReadDatabase. destruct det as [hod|].
  - destruct (fs (reconCoeffFilename db)) as [content|].
    + assert (G := read_coefficients_good (fst (split_lines content))
                     (snd (split_lines content))).
      unfold ifstream_open.
      destruct (read_coefficients _) as [ifile table].
      cbn [fst] in G. destruct (good ifile); cbn [negb fst].
      * split; [|reflexivity]. intros _. exists hod, content.
        repeat split. now apply G.
      * split; [discriminate|].
        intros (hod' & content' & _ & Hc & Hn).
        injection Hc as <-. apply G in Hn. discriminate.
    + cbn [fst]. split; [discriminate|].
      intros (hod' & content' & _ & Hc & _). discriminate.
  - cbn [fst]. split; [discriminate|].
    intros (hod' & content' & Hd & _). discriminate.
Qed.

(** X2.  For a file made of any lines without a separator, a separator
    line, data lines, a second separator line and anything after it,
    ReadDatabase returns kOK, the table holds one term per data line, in
    the order of the file, each the scan of its line, and the counter is
    the number of data lines.  Comment lines, the header and what follows
    the second separator add nothing. *)
Theorem ReadDatabase_table (D : DBExternals) (hod : THcHodoscope)
  (db : DBValues) (fs : String.string -> option String.string)
  (u : SpectrometerSetup)
  (pre : list String.string) (sep1 : String.string)
  (data : list String.string) (sep2 : String.string)
  (post : list String.string) (tl : String.string) :
  fs (reconCoeffFilename db)
  = Some (file_text (pre ++ sep1 :: data ++ sep2 :: post) tl) ->
  forallb one_line (pre ++ sep1 :: data ++ sep2 :: post) = true ->
  one_line tl = true ->
  existsb is_separator pre = false -> is_separator sep1 = true ->
  existsb is_separator data = false -> is_separator sep2 = true ->
  fst (ReadDatabase (Some hod) db fs u) = kOK /\
  fReconTerms (recon (cfg (spectro (snd (ReadDatabase (Some hod) db fs u)))))
  = map sscanf_term data /\
  fNReconTerms (snd (ReadDatabase (Some hod) db fs u))
  = Z.of_nat (length data).
Proof.
  intros Hfs Hls Htl Hpre Hs1 Hdata Hs2. unfold ReadDatabase.
  rewrite Hfs. unfold ifstream_open.
  rewrite (split_lines_file_text _ tl Hls Htl). cbn [fst snd].
  rewrite (read_coefficients_complete pre sep1 data sep2 post tl
             Hpre Hs1 Hdata Hs2).
  cbn [good negb fst snd]. repeat split.
Qed.

Lemma ReadDatabase_table_witness :
  let fs := one_file "hms_recon_coeff.dat"%string
              (file_text sample_lines ""%string) in
  let r := @ReadDatabase sample_db_externals (Some hodo_nohit) sample_db fs
             sample_setup in
  fst r = kOK /\
  fReconTerms (recon (cfg (spectro (snd r))))
  = map (@sscanf_term sample_db_externals)
      [" 1.0 0.0 0.0 0.0 10000"; " 0.0 1.0 0.0 0.0 00100"]%string /\
  fNReconTerms (snd r) = 2%Z.
Proof.
  intros fs r.
  exact (ReadDatabase_table sample_db_externals hodo_nohit sample_db fs
           sample_setup
           (firstn 3 sample_lines) " ------------------------------"%string
           [" 1.0 0.0 0.0 0.0 10000"; " 0.0 1.0 0.0 0.0 00100"]%string
           " ------------------------------"%string [] ""%string
           eq_refl eq_refl eq_refl eq_refl eq_refl eq_refl eq_refl).
Defined.

(** X3.  A file that ends before a second separator line ended by a
    newline: ReadDatabase returns kInitError and does not record it in
    fStatus; the terms scanned so far stay in the table, one per complete
    line after the first separator, and the characters after the last
    newline are never scanned, not even when they are the closing
    separator. *)
Theorem ReadDatabase_truncated (D : DBExternals) (hod : THcHodoscope)
  (db : DBValues) (fs : String.string -> option String.string)
  (u : SpectrometerSetup)
  (pre : list String.string) (sep1 : String.string)
  (data : list String.string) (tl : String.string) :
  fs (reconCoeffFilename db)
  = Some (file_text (pre ++ sep1 :: data) tl) ->
  forallb one_line (pre ++ sep1 :: data) = true -> one_line tl = true ->
  existsb is_separator pre = false -> is_separator sep1 = true ->
  existsb is_separator data = false ->
  fst (ReadDatabase (Some hod) db fs u) = kInitError /\
  fStatus (snd (ReadDatabase (Some hod) db fs u)) = fStatus u /\
  fReconTerms (recon (cfg (spectro (snd (ReadDatabase (Some hod) db fs u)))))
  = map sscanf_term data /\
  fNReconTerms (snd (ReadDatabase (Some hod) db fs u))
  = Z.of_nat (length data).
Proof.
  intros Hfs Hls Htl Hpre Hs1 Hdata. unfold ReadDatabase.
  rewrite Hfs. unfold ifstream_open.
  rewrite (split_lines_file_text _ tl Hls Htl). cbn [fst snd].
  rewrite (read_coefficients_truncated pre sep1 data tl Hpre Hs1 Hdata).
  cbn [good negb fst snd]. repeat split.
Qed.

Lemma ReadDatabase_truncated_witness :
  let fs := one_file "hms_recon_coeff.dat"%string
              (file_text (firstn 6 sample_lines) " ---"%string) in
  let r := @ReadDatabase sample_db_externals (Some hodo_nohit) sample_db fs
             sample_setup in
  fst r = kInitError /\
  fStatus (snd r) = kOK /\
  fReconTerms (recon (cfg (spectro (snd r))))
  = map (@sscanf_term sample_db_externals)
      [" 1.0 0.0 0.0 0.0 10000"; " 0.0 1.0 0.0 0.0 00100"]%string /\
  fNReconTerms (snd r) = 2%Z.
Proof.
  intros fs r.
  exact (ReadDatabase_truncated sample_db_externals hodo_nohit sample_db fs
           sample_setup
           (firstn 3 sample_lines) " ------------------------------"%string
           [" 1.0 0.0 0.0 0.0 10000"; " 0.0 1.0 0.0 0.0 00100"]%string
           " ---"%string
           eq_refl eq_refl eq_refl eq_refl eq_refl eq_refl).
Defined.

(** X4.  Whenever the hodoscope is found, the counter fNReconTerms and the
    size of the table agree after ReadDatabase, whatever the file holds
    and whatever the call returns; the table found at entry is dropped,
    not extended. *)
Theorem ReadDatabase_counter (D : DBExternals) (hod : THcHodoscope)
  (db : DBValues) (fs : String.string -> option String.string)
  (u : SpectrometerSetup) :
  table_counted (snd (ReadDatabase (Some hod) db fs u)) /\
  forall terms,
    snd (ReadDatabase (Some hod) db fs
           (set_table u (fNReconTerms u) terms))
    = snd (ReadDatabase (Some hod) db fs u).
Proof.
  split.
  - unfold ReadDatabase, table_counted.
    destruct (fs (reconCoeffFilename db)) as [content|]; [|reflexivity].
    unfold ifstream_open.
    destruct (first_separator (fst (split_lines content)))
      as [Hnone|(pre & s1 & rest & Hsplit & Hpre & Hs1)].
    + destruct (read_coefficients_no_header _ (snd (split_lines content))
                  Hnone) as (f & Hf & Hbad).
      rewrite Hf. cbn [fst snd]. rewrite Hbad. reflexivity.
    + rewrite Hsplit.
      destruct (first_separator rest)
        as [Hnone|(data & s2 & post & -> & Hdata & Hs2)].
      * rewrite (read_coefficients_truncated pre s1 rest _ Hpre Hs1 Hnone).
        cbn. now rewrite length_map.
      * rewrite (read_coefficients_complete pre s1 data s2 post _
                   Hpre Hs1 Hdata Hs2).
        cbn. now rewrite length_map.
  - intro terms. unfold ReadDatabase.
    destruct (fs (reconCoeffFilename db)) as [content|]; [|reflexivity].
    destruct (read_coefficients (ifstream_open content)) as [ifile table].
    destruct (negb (good ifile)); reflexivity.
Qed.

(** The reconstruction members after ReadDatabase, once the hodoscope is
    found: the rotation members are the zeros that
    InitializeReconstruction stores, nothing in the file being read into
    them; the offsets are the values of the parameter store and the central
    momentum is corrected by its offset. *)
Lemma ReadDatabase_recon (D : DBExternals) (hod : THcHodoscope)
  (db : DBValues) (fs : String.string -> option String.string)
  (u : SpectrometerSetup) :
  exists terms,
    recon (cfg (spectro (snd (ReadDatabase (Some hod) db fs u))))
    = {| fReconTerms := terms;
         fAngSlope_x := 0; fAngSlope_y := 0;
         fAngOffset_x := 0; fAngOffset_y := 0;
         fDetOffset_x := 0; fDetOffset_y := 0;
         fZTrueFocus := 0;
         fThetaOffset := theta_offset db; fPhiOffset := phi_offset db;
         fDeltaOffset := delta_offset db;
         fPcentral := pcentral db * (1 + pcentral_offset db / 100) |}.
Proof.
  unfold ReadDatabase.
  destruct (fs (reconCoeffFilename db)) as [content|].
  - destruct (read_coefficients (ifstream_open content)) as [ifile table].
    exists (snd table). destruct (negb (good ifile)); reflexivity.
  - exists []. reflexivity.
Qed.

(** X5.  ReadDatabase followed by FindVertices.  Whenever the hodoscope is
    found, the focal-plane rotation and offsets are zero after
    ReadDatabase, whatever the file holds: FindVertices evaluates the
    polynomial at (x/100, theta, y/100, phi, 0), and the momentum it
    assigns is pcentral * (1 + pcentral_offset/100) * (1 + delta/100),
    with pcentral and pcentral_offset as the parameter store gives them. *)
Theorem ReadDatabase_then_FindVertices (D : DBExternals) (E : Externals)
  (hod : THcHodoscope) (db : DBValues)
  (fs : String.string -> option String.string) (u : SpectrometerSetup)
  (t : THaTrack) (k : nat) :
  let r := recon (cfg (spectro (snd (ReadDatabase (Some hod) db fs u)))) in
  hut_rot_of r (hut_of r t) k
  == array5 (GetX t / 100) (GetTheta t) (GetY t / 100) (GetPhi t) 0 k /\
  GetP (FindVertices_track r t)
  == pcentral db * (1 + pcentral_offset db / 100)
     * (1 + GetDp (FindVertices_track r t) / 100).
Proof.
  intro r. destruct (ReadDatabase_recon D hod db fs u) as (terms & Hr).
  fold r in Hr. rewrite Hr. split.
  - unfold hut_rot_of, hut_of, array5.
    cbn [fZTrueFocus fDetOffset_x fDetOffset_y fAngOffset_x fAngOffset_y
         fAngSlope_x fAngSlope_y].
    destruct k as [|[|[|[|k]]]]; field.
  - unfold FindVertices_track. cbn. reflexivity.
Qed.

(** ** More on FindVertices *)

Section VertexProofs.
Context {E : Externals}.

Lemma spec_sum_app (x : nat -> Q) (l1 l2 : list reconTerm) (k : nat) :
  spec_sum x (l1 ++ l2) k == spec_sum x l1 k + spec_sum x l2 k.
Proof.
  induction l1 as [|t l1 IH]; simpl.
  - ring.
  - rewrite IH. ring.
Qed.

Lemma spec_sum_perm (x : nat -> Q) (l1 l2 : list reconTerm) (k : nat) :
  Permutation l1 l2 -> spec_sum x l1 k == spec_sum x l2 k.
Proof.
  induction 1 as [|t l1 l2 _ IH|t u l|l1 l2 l3 _ IH1 _ IH2]; simpl.
  - reflexivity.
  - now rewrite IH.
  - ring.
  - now rewrite IH1.
Qed.

(** The target-frame quantities depend on the table through the four
    sums only. *)
Lemma FindVertices_track_sums (r r' : Recon) (t : THaTrack) :
  fThetaOffset r' = fThetaOffset r -> fPhiOffset r' = fPhiOffset r ->
  fDeltaOffset r' = fDeltaOffset r -> fPcentral r' = fPcentral r ->
  (forall k, (k < 4)%nat ->
             cosy_sums (hut_rot_of r' (hut_of r' t)) (fReconTerms r') k
             == cosy_sums (hut_rot_of r (hut_of r t)) (fReconTerms r) k) ->
  same_target (FindVertices_track r t) (FindVertices_track r' t).
Proof.
  intros H1 H2 H3 H4 Hs. unfold same_target, FindVertices_track. cbn.
  rewrite H1, H2, H3, H4.
  rewrite (Hs 0%nat), (Hs 1%nat), (Hs 2%nat), (Hs 3%nat) by lia.
  repeat split; reflexivity.
Qed.

End VertexProofs.

(** X6.  FindVertices returns 0 and writes the target-frame quantities
    only: the array keeps its length, every track keeps its focal-plane
    coordinates, its fit quality and what the other detectors stored, and
    gets the target x = 0; the configuration, the thresholds, the
    hodoscope and the golden reference are not touched.  Running it a
    second time on its own result changes nothing. *)
Theorem FindVertices_frame (E : Externals) (s : THcHallCSpectrometer) :
  let s' := snd (FindVertices s) in
  fst (FindVertices s) = 0%Z /\
  length (fTracks s') = length (fTracks s) /\
  (forall i t, nth_error (fTracks s) i = Some t ->
     exists t', nth_error (fTracks s') i = Some t' /\
                same_focal_plane t t' /\ GetTX t' = 0) /\
  cfg s' = cfg s /\ prune s' = prune s /\ fHodo s' = fHodo s /\
  fGoldenTrack s' = fGoldenTrack s /\ fTrk s' = fTrk s /\
  fTrkIfo s' = fTrkIfo s /\
  FindVertices s' = FindVertices s.
Proof.
  intro s'. subst s'. unfold FindVertices, FindVertices_tracks.
  cbn [fst snd set_fTracks fTracks cfg prune fHodo fGoldenTrack fTrk fTrkIfo].
  repeat split.
  - apply length_map.
  - intros i t Ht. exists (FindVertices_track (recon (cfg s)) t). split.
    + rewrite nth_error_map, Ht. reflexivity.
    + split; [repeat split | reflexivity].
  - f_equal. unfold set_fTracks. cbn. f_equal. rewrite map_map.
    apply map_ext. intro t. reflexivity.
Qed.

(** X7.  With an empty table, which is what InitializeReconstruction
    leaves until a coefficient file has been read, FindVertices gives
    every track the same target-frame quantities, whatever its focal-plane
    coordinates: target y = 0, target theta = phi-offset, target phi =
    theta-offset, delta = delta-offset and momentum = central momentum
    times (1 + delta-offset/100). *)
Theorem FindVertices_empty_table (E : Externals) (r : Recon) (t : THaTrack) :
  fReconTerms r = [] ->
  let t' := FindVertices_track r t in
  GetTY t' == 0 /\ GetTTheta t' == fPhiOffset r /\
  GetTPhi t' == fThetaOffset r /\ GetDp t' == fDeltaOffset r /\
  GetP t' == fPcentral r * (1 + fDeltaOffset r / 100).
Proof.
  intros Hr t'. subst t'. unfold FindVertices_track. rewrite Hr. cbn.
  split; [ring|split; [ring|split; [ring|split; [ring|field]]]].
Qed.

Lemma FindVertices_empty_table_witness :
  let r := recon (cfg (spectro (InitializeReconstruction sample_setup))) in
  let t' := @FindVertices_track sample_externals r track_x2 in
  GetTY t' == 0 /\ GetTTheta t' == fPhiOffset r /\
  GetTPhi t' == fThetaOffset r /\ GetDp t' == fDeltaOffset r /\
  GetP t' == fPcentral r * (1 + fDeltaOffset r / 100).
Proof.
  intros r t'.
  exact (FindVertices_empty_table sample_externals r track_x2 eq_refl).
Defined.

(** X8.  The order of the terms in the table does not matter, and the
    table acts term by term: a permutation of the table gives the same
    target-frame quantities, and each of the four sums over a table made
    of two parts is the sum of the sums over the parts. *)
Theorem FindVertices_term_order (E : Externals) (r : Recon)
  (terms' : list reconTerm) (t : THaTrack) :
  Permutation (fReconTerms r) terms' ->
  same_target (FindVertices_track r t)
    (FindVertices_track (set_fReconTerms r terms') t) /\
  forall (x : nat -> Q) (l1 l2 : list reconTerm) (k : nat),
    (k < 4)%nat ->
    cosy_sums x (l1 ++ l2) k == cosy_sums x l1 k + cosy_sums x l2 k.
Proof.
  intro Hp. split.
  - apply FindVertices_track_sums; try reflexivity.
    intros k Hk. cbn [set_fReconTerms fReconTerms].
    change (hut_rot_of (set_fReconTerms r terms')
              (hut_of (set_fReconTerms r terms') t))
      with (hut_rot_of r (hut_of r t)).
    rewrite !cosy_sums_spec by exact Hk.
    symmetry. now apply spec_sum_perm.
  - intros x l1 l2 k Hk. rewrite !cosy_sums_spec by exact Hk.
    apply spec_sum_app.
Qed.

Lemma FindVertices_term_order_witness :
  let r := set_fReconTerms recon_single [single_term; second_term] in
  same_target
    (@FindVertices_track sample_externals r track_x2)
    (@FindVertices_track sample_externals
       (set_fReconTerms r [second_term; single_term]) track_x2).
Proof.
  intro r.
  exact (proj1 (FindVertices_term_order sample_externals r
                  [second_term; single_term] track_x2
                  (perm_swap second_term single_term []))).
Defined.

(** X9.  The fifth coordinate, the raster position, is fixed at zero in
    FindVertices.  With a [pow] that gives 0 for a zero base and a
    positive exponent, and a table without negative raster exponents, the
    terms that involve the raster never contribute: dropping them from the
    table gives the same target-frame quantities. *)
Theorem FindVertices_raster_terms (E : Externals) (r : Recon)
  (t : THaTrack) :
  (forall x e, x == 0 -> (0 < e)%Z -> pow x e == 0) ->
  (forall u, In u (fReconTerms r) -> (0 <= Exp u 4%nat)%Z) ->
  same_target (FindVertices_track r t)
    (FindVertices_track (set_fReconTerms r (raster_free (fReconTerms r))) t).
Proof.
  intros Hpow Hexp.
  apply FindVertices_track_sums; try reflexivity.
  intros k Hk. cbn [set_fReconTerms fReconTerms].
  change (hut_rot_of (set_fReconTerms r (raster_free (fReconTerms r)))
            (hut_of (set_fReconTerms r (raster_free (fReconTerms r))) t))
    with (hut_rot_of r (hut_of r t)).
  rewrite !cosy_sums_spec by exact Hk.
  assert (H4 : hut_rot_of r (hut_of r t) 4%nat == 0).
  { unfold hut_rot_of, hut_of, array5. field. }
  generalize dependent (hut_rot_of r (hut_of r t)). intros x H4.
  induction (fReconTerms r) as [|u l IH]; [reflexivity|].
  assert (Hl : forall v, In v l -> (0 <= Exp v 4%nat)%Z)
    by (intros v Hv; apply Hexp; now right).
  specialize (IH Hl). unfold raster_free in *. cbn [filter spec_sum fold_right].
  destruct (Z.eqb_spec (Exp u 4%nat) 0) as [He|He].
  - cbn [spec_sum fold_right]. fold (spec_sum x l k).
    fold (spec_sum x (filter (fun t0 => (Exp t0 4%nat =? 0)%Z) l) k).
    rewrite IH. reflexivity.
  - fold (spec_sum x l k).
    fold (spec_sum x (filter (fun t0 => (Exp t0 4%nat =? 0)%Z) l) k).
    rewrite IH.
    assert (Hm : spec_monomial x u == 0).
    { unfold spec_monomial.
      assert (Hf : spec_factor (x 4%nat) (Exp u 4%nat) == 0).
      { unfold spec_factor. apply Z.eqb_neq in He. rewrite He.
        apply Hpow; [exact H4|]. apply Z.eqb_neq in He.
        specialize (Hexp u (or_introl eq_refl)). lia. }
      rewrite Hf. ring. }
    rewrite Hm. ring.
Qed.

Lemma FindVertices_raster_terms_witness :
  let r := set_fReconTerms recon_single [raster_term; single_term] in
  same_target
    (@FindVertices_track sample_externals r track_x2)
    (@FindVertices_track sample_externals
       (set_fReconTerms r [single_term]) track_x2).
Proof.
  intro r.
  apply (FindVertices_raster_terms sample_externals r track_x2).
  - intros x e Hx He. change (Qpower x e == 0). rewrite Hx.
    apply Qpower_0. lia.
  - intros u [<-|[<-|[]]]; simpl; lia.
Defined.

(** ** More on the track sorting flag and on TrackCalc *)

(** X10.  SetTrSorting and GetTrSorting.  With a non-zero sorting bit, the
    flag read back is the flag that was set, the constructor leaves
    sorting on, and SetTrSorting changes no property bit outside
    kSortTracks and no other member. *)
Theorem SetTrSorting_round_trip (E : Externals) (c : Config) (set : bool) :
  kSortTracks <> 0%Z ->
  GetTrSorting (SetTrSorting c set) = set /\
  GetTrSorting (Constructor c) = true /\
  (forall n, (0 <= n)%Z -> Z.testbit kSortTracks n = false ->
             Z.testbit (fProperties (SetTrSorting c set)) n
             = Z.testbit (fProperties c) n) /\
  recon (SetTrSorting c set) = recon c /\
  fPartMass (SetTrSorting c set) = fPartMass c /\
  fSelUsingScin (SetTrSorting c set) = fSelUsingScin c /\
  fSelUsingPrune (SetTrSorting c set) = fSelUsingPrune c /\
  fNPlanes (SetTrSorting c set) = fNPlanes c /\
  sel (SetTrSorting c set) = sel c.
Proof.
  intro Hk. destruct (GetTrSorting_SetTrSorting c Hk) as [Hon Hoff].
  split; [|split; [|split]].
  - destruct set; assumption.
  - exact Hon.
  - intros n Hn Hbit. unfold SetTrSorting. destruct set; cbn [fProperties].
    + rewrite Z.lor_spec, Hbit. apply orb_false_r.
    + rewrite Z.land_spec, Z.lnot_spec, Hbit by exact Hn. apply andb_true_r.
  - repeat split.
Qed.

Lemma SetTrSorting_round_trip_witness :
  @GetTrSorting sample_externals
    (@SetTrSorting sample_externals (sample_cfg 16389 0 0) false) = false /\
  fProperties (@SetTrSorting sample_externals (sample_cfg 16389 0 0) false)
  = 5%Z.
Proof.
  destruct (SetTrSorting_round_trip sample_externals (sample_cfg 16389 0 0)
              false ltac:(discriminate)) as (H & _ & _ & _).
  split; [exact H | reflexivity].
Defined.

(** X11.  With flag values for which none of the three guards holds (for
    instance fSelUsingScin = 2 with fSelUsingPrune = 0), TrackCalc runs no
    selection at all: it returns 0 and leaves the object, golden track
    included, as it found it. *)
Theorem TrackCalc_idle (E : Externals) (s : THcHallCSpectrometer) :
  ~ strategy_active (cfg s) -> TrackCalc s = (0%Z, s).
Proof.
  unfold strategy_active. intro H. unfold TrackCalc.
  destruct (Z.eqb_spec (fSelUsingScin (cfg s)) 0) as [A1|A1];
    destruct (Z.eqb_spec (fSelUsingPrune (cfg s)) 0) as [A2|A2];
    cbn [andb]; try (exfalso; apply H; tauto);
    destruct (Z.eqb_spec (fSelUsingScin (cfg s)) 1) as [B|B];
    try (exfalso; apply H; tauto);
    destruct (Z.eqb_spec (fSelUsingPrune (cfg s)) 1) as [C|C];
    try (exfalso; apply H; tauto); reflexivity.
Qed.

Lemma TrackCalc_idle_witness :
  let s := sample_state (sample_cfg 0 2 0) prune_low hodo_nohit
             [track_chi2 1] (Some 3%nat) in
  @TrackCalc sample_externals s = (0%Z, s).
Proof.
  intro s. apply (TrackCalc_idle sample_externals s).
  intros [[H _]|[H|H]]; discriminate.
Defined.

Section EmptyEvent.
Context {E : Externals}.

(** The three blocks on an event without candidates. *)
Lemma blockA_empty (s : THcHallCSpectrometer) :
  fTracks s = [] ->
  fTracks (blockA s) = [] /\ cfg (blockA s) = cfg s /\
  fTrk (blockA s) = fTrk s /\ fTrkIfo (blockA s) = fTrkIfo s /\
  (fSelUsingScin (cfg s) = 0%Z /\ fSelUsingPrune (cfg s) = 0%Z ->
   fGoldenTrack (blockA s) = None) /\
  (~ (fSelUsingScin (cfg s) = 0%Z /\ fSelUsingPrune (cfg s) = 0%Z) ->
   fGoldenTrack (blockA s) = fGoldenTrack s).
Proof.
  intro Hnil. unfold blockA, SortedFirst, fNtracks.
  destruct (Z.eqb_spec (fSelUsingScin (cfg s)) 0) as [A1|A1];
    destruct (Z.eqb_spec (fSelUsingPrune (cfg s)) 0) as [A2|A2];
    cbn [andb]; try (repeat split; try assumption; tauto).
  destruct (GetTrSorting (cfg s)); cbn [fTracks set_fTracks];
    rewrite Hnil; cbn; repeat split; tauto.
Qed.

Lemma blockB_empty (s : THcHallCSpectrometer) :
  fTracks s = [] ->
  fTracks (blockB s) = [] /\ cfg (blockB s) = cfg s /\
  fTrk (blockB s) = fTrk s /\ fTrkIfo (blockB s) = fTrkIfo s /\
  (fSelUsingScin (cfg s) = 1%Z -> fGoldenTrack (blockB s) = None) /\
  (fSelUsingScin (cfg s) <> 1%Z ->
   fGoldenTrack (blockB s) = fGoldenTrack s).
Proof.
  intro Hnil. unfold blockB, SelectUsingScin, fNtracks.
  destruct (Z.eqb_spec (fSelUsingScin (cfg s)) 1) as [B|B].
  - rewrite Hnil. cbn. repeat split; tauto.
  - repeat split; try assumption; tauto.
Qed.

Lemma blockC_empty (s : THcHallCSpectrometer) :
  fTracks s = [] ->
  fTracks (blockC s) = [] /\ cfg (blockC s) = cfg s /\
  fTrk (blockC s) = fTrk s /\ fTrkIfo (blockC s) = fTrkIfo s /\
  (fSelUsingPrune (cfg s) = 1%Z -> fGoldenTrack (blockC s) = None) /\
  (fSelUsingPrune (cfg s) <> 1%Z ->
   fGoldenTrack (blockC s) = fGoldenTrack s).
Proof.
  intro Hnil. unfold blockC, SelectUsingPrune, fNtracks.
  destruct (Z.eqb_spec (fSelUsingPrune (cfg s)) 1) as [C|C].
  - cbn [fTracks set_prune]. rewrite Hnil. cbn. repeat split; tauto.
  - repeat split; try assumption; tauto.
Qed.

End EmptyEvent.

(** X12.  An event without candidates, with one of the strategies running:
    the golden reference is cleared, but fTrk and the copy fTrkIfo are
    not: they keep what the previous event left in them. *)
Theorem TrackCalc_empty_event (E : Externals) (s : THcHallCSpectrometer) :
  fTracks s = [] -> strategy_active (cfg s) ->
  fGoldenTrack (snd (TrackCalc s)) = None /\
  fTrk (snd (TrackCalc s)) = fTrk s /\
  fTrkIfo (snd (TrackCalc s)) = fTrkIfo s /\
  fTracks (snd (TrackCalc s)) = [].
Proof.
  intros Hnil Hact. rewrite TrackCalc_blocks.
  destruct (blockA_empty s Hnil) as (A1 & A2 & A3 & A4 & A5 & A6).
  destruct (blockB_empty (blockA s) A1) as (B1 & B2 & B3 & B4 & B5 & B6).
  destruct (blockC_empty (blockB (blockA s)) B1)
    as (C1 & C2 & C3 & C4 & C5 & C6).
  rewrite C3, B3, A3, C4, B4, A4. repeat split; try exact C1.
  rewrite B2, A2 in C5, C6. rewrite A2 in B5, B6.
  destruct (Z.eqb_spec (fSelUsingPrune (cfg s)) 1) as [HC|HC].
  - now apply C5.
  - rewrite (C6 HC).
    destruct (Z.eqb_spec (fSelUsingScin (cfg s)) 1) as [HB|HB].
    + now apply B5.
    + rewrite (B6 HB). apply A5.
      unfold strategy_active in Hact. tauto.
Qed.

Lemma TrackCalc_empty_event_witness :
  fGoldenTrack (snd (@TrackCalc sample_externals (ev_empty_after 0 1)))
  = None /\
  fTrk (snd (@TrackCalc sample_externals (ev_empty_after 0 1)))
  = Some 3%nat /\
  fTrkIfo (snd (@TrackCalc sample_externals (ev_empty_after 0 1)))
  = Some (track_chi2 7) /\
  fTracks (snd (@TrackCalc sample_externals (ev_empty_after 0 1))) = [].
Proof.
  apply (TrackCalc_empty_event sample_externals (ev_empty_after 0 1)).
  - reflexivity.
  - right. right. reflexivity.
Defined.

Section GoldenProofs.
Context {E : Externals}.

Lemma SetGolden_is (x : THcHallCSpectrometer) (g : nat) (t : THaTrack) :
  nth_error (fTracks x) g = Some t -> golden_is (SetGolden x g) g t.
Proof.
  intro H. unfold golden_is, SetGolden. cbn. repeat split; assumption.
Qed.

Lemma SortedFirst_golden (s : THcHallCSpectrometer) :
  fTracks s <> [] -> exists t, golden_is (SortedFirst s) 0 t.
Proof.
  intro Hne. unfold SortedFirst.
  set (s1 := if GetTrSorting (cfg s) then set_fTracks s (Sort (fTracks s))
             else s).
  assert (H1 : fTracks s1 <> []).
  { unfold s1. destruct (GetTrSorting (cfg s)); [|exact Hne].
    cbn. intro H0. assert (Hp := Sort_perm (fTracks s)).
    rewrite H0 in Hp. apply Permutation_nil in Hp. contradiction. }
  assert (Hn := proj2 (fNtracks_pos s1) H1). rewrite Hn.
  destruct (fTracks s1) as [|t l] eqn:Ht; [contradiction|].
  exists t. apply SetGolden_is. rewrite Ht. reflexivity.
Qed.

Lemma SelectUsingPrune_golden (s : THcHallCSpectrometer) :
  fTracks s <> [] -> exists g t, golden_is (SelectUsingPrune s) g t.
Proof.
  intro Hne. unfold SelectUsingPrune. cbv zeta.
  assert (Hn : (fNtracks (set_prune s (clamp_prune (prune s))) >? 0)%Z
               = true) by (apply fNtracks_pos; exact Hne).
  rewrite Hn. cbn [fTracks set_fGoodTrack set_fChi2Min set_prune].
  match goal with
  | |- context [for_tracks ?l (prune_pick_track ?w) ?x0] =>
      destruct (prune_pick_inv w l x0 eq_refl) as [_ Hcase];
      destruct (prune_pick_setup w l x0) as (_ & _ & _ & Htr);
      set (x2 := for_tracks l (prune_pick_track w) x0) in *
  end.
  cbv zeta in Hcase. cbn [fTracks set_fGoodTrack set_fChi2Min set_prune]
    in Htr.
  destruct Hcase as [[_ Hg]|(g & t & Hg & Hnth & _)].
  - destruct (fTracks s) as [|t l] eqn:Ht; [contradiction|].
    exists 0%nat, t. rewrite Hg. cbn [fGoodTrack set_fGoodTrack].
    apply SetGolden_is. rewrite Htr. reflexivity.
  - exists g, t. rewrite Hg, Nat2Z.id. apply SetGolden_is.
    rewrite Htr. exact Hnth.
Qed.

Lemma golden_candidate_setup (c : Config) (s x y : THcHallCSpectrometer) :
  fTracks y = fTracks x -> fGoldenTrack y = fGoldenTrack x ->
  fTrk y = fTrk x -> fTrkIfo y = fTrkIfo x ->
  golden_candidate c s x -> golden_candidate c s y.
Proof.
  intros H1 H2 H3 H4 [(A & B & C)|(g & t & (A & B & C & D) & Hp)].
  - left. unfold golden_untouched. rewrite H2, H3, H4. now repeat split.
  - right. exists g, t. unfold golden_is. rewrite H1, H2, H3, H4.
    now repeat split.
Qed.

Lemma scin_select_golden (c : Config) (s : THcHallCSpectrometer)
  (k : nat) (a : THaTrack) (w : ScinLocals) (x : THcHallCSpectrometer) :
  fTracks x = fTracks s -> nth_error (fTracks s) k = Some a ->
  passes_ndof (sel c) a = true ->
  golden_candidate c s x ->
  golden_candidate c s (snd (scin_select k (Chi2PerDeg a) (w, x))).
Proof.
  intros Htr Hk Hp Hx. unfold scin_select.
  repeat match goal with
         | |- context [if ?b then _ else _] => destruct b
         end;
    cbn [snd];
    try (apply (golden_candidate_setup c s x); try reflexivity; exact Hx);
    right; exists k, a; (split; [|exact Hp]);
    cbn [fGoodTrack set_fGoodTrack set_fChi2Min]; rewrite Nat2Z.id;
    apply SetGolden_is; cbn [fTracks set_fGoodTrack set_fChi2Min];
    rewrite Htr; exact Hk.
Qed.

Lemma scin_loop_golden (s : THcHallCSpectrometer) :
  golden_candidate (cfg s) s (snd (scin_loop s)).
Proof.
  unfold scin_loop.
  apply (for_tracks_inv
           (fun _ st => same_setup (snd st) s
                        /\ golden_candidate (cfg s) s (snd st))).
  - split; [repeat split|]. left. repeat split.
  - intros done a rest st Hl [Hs Hg]. split.
    + eapply same_setup_trans; [apply scin_track_setup | exact Hs].
    + unfold scin_track.
      destruct (passes_ndof (sel (cfg s)) a) eqn:Hp; [|exact Hg].
      destruct (passes_ranges (sel (cfg s)) a); [|exact Hg].
      destruct Hs as (_ & _ & _ & Htr).
      apply scin_select_golden; try assumption.
      rewrite Hl. rewrite nth_error_app2 by lia.
      now rewrite Nat.sub_diag.
Qed.

Lemma scin_fallback_golden (s x0 : THcHallCSpectrometer) :
  same_setup x0 s -> golden_candidate (cfg s) s x0 ->
  golden_candidate (cfg s) s
    (for_tracks (fTracks s) (scin_fallback_track (cfg s)) x0).
Proof.
  intros H0 G0.
  apply (for_tracks_inv
           (fun _ st => same_setup st s /\ golden_candidate (cfg s) s st));
    [split; assumption|].
  intros done a rest st Hl [Hs Hg]. split.
  - eapply same_setup_trans; [apply scin_fallback_track_setup | exact Hs].
  - unfold scin_fallback_track.
    destruct (passes_ndof (sel (cfg s)) a) eqn:Hp; [|exact Hg].
    destruct (Qltb (Chi2PerDeg a) (fChi2Min st)); [|exact Hg].
    right. exists (length done), a. split; [|exact Hp].
    cbn [fGoodTrack set_fGoodTrack set_fChi2Min]. rewrite Nat2Z.id.
    apply SetGolden_is. cbn [fTracks set_fGoodTrack set_fChi2Min].
    destruct Hs as (_ & _ & _ & Htr). rewrite Htr, Hl.
    rewrite nth_error_app2 by lia. now rewrite Nat.sub_diag.
Qed.

Lemma SelectUsingScin_golden (s : THcHallCSpectrometer) :
  fTracks s <> [] -> golden_candidate (cfg s) s (SelectUsingScin s).
Proof.
  intro Hne. unfold SelectUsingScin.
  apply fNtracks_pos in Hne. rewrite Hne.
  assert (Hs := scin_loop_setup s). assert (Hg := scin_loop_golden s).
  destruct (fGoodTrack (snd (scin_loop s)) =? -1)%Z; [|exact Hg].
  destruct Hs as (Hc & Hp & Hh & Htr). rewrite Hc, Htr.
  apply scin_fallback_golden.
  - repeat split; assumption.
  - apply (golden_candidate_setup (cfg s) s (snd (scin_loop s)));
      try reflexivity. exact Hg.
Qed.

End GoldenProofs.

(** X13.  Strategy A and the prune selection always end with a valid
    golden track for a non-empty event: the golden reference is a slot of
    the track array, fTrk is the same slot and fTrkIfo is a copy of the
    track in it.  With exactly one candidate, that candidate is the golden
    track, whatever the cuts and its chi-square. *)
Theorem TrackCalc_golden_in_range (E : Externals)
  (s : THcHallCSpectrometer) :
  fTracks s <> [] ->
  (fSelUsingScin (cfg s) = 0%Z /\ fSelUsingPrune (cfg s) = 0%Z)
  \/ fSelUsingPrune (cfg s) = 1%Z ->
  (exists g t, golden_is (snd (TrackCalc s)) g t) /\
  (forall t, fTracks s = [t] -> golden_is (snd (TrackCalc s)) 0 t).
Proof.
  intros Hne Hmode.
  assert (Hgt : (exists g t, golden_is (snd (TrackCalc s)) g t)
                /\ (fSelUsingPrune (cfg s) = 1%Z ->
                    fTracks (snd (TrackCalc s)) = fTracks s)
                /\ (fSelUsingPrune (cfg s) <> 1%Z ->
                    Permutation (fTracks (snd (TrackCalc s))) (fTracks s))).
  { rewrite TrackCalc_blocks. destruct Hmode as [[Hscin Hprune]|Hprune].
    - assert (HA : blockA s = SortedFirst s).
      { unfold blockA. now rewrite Hscin, Hprune. }
      destruct (SortedFirst_cfg s) as [Hc _].
      rewrite HA. unfold blockB. rewrite Hc, Hscin. cbn [Z.eqb].
      unfold blockC. rewrite Hc, Hprune. cbn [Z.eqb].
      split; [|split].
      + destruct (SortedFirst_golden s Hne) as (t & Ht). now exists 0%nat, t.
      + intro K. discriminate.
      + intros _. unfold SortedFirst.
        destruct (GetTrSorting (cfg s));
          match goal with
          | |- context [(?n >? 0)%Z] => destruct (n >? 0)%Z
          end; cbn; auto using Sort_perm.
    - assert (HA : blockA s = s).
      { unfold blockA. rewrite Hprune. now rewrite andb_false_r. }
      rewrite HA. destruct (blockB_setup E s) as (Hc & _ & _ & Htr).
      unfold blockC. rewrite Hc, Hprune. cbn [Z.eqb Pos.eqb].
      split; [|split].
      + apply SelectUsingPrune_golden. now rewrite Htr.
      + intros _.
        destruct (SelectUsingPrune_frame (blockB s)) as (_ & _ & _ & H).
        now rewrite H.
      + intro K. contradiction. }
  destruct Hgt as ((g & t & Hg) & Hsame & Hperm). split.
  - now exists g, t.
  - intros t1 Hone.
    assert (Hl : fTracks (snd (TrackCalc s)) = [t1]).
    { destruct (Z.eq_dec (fSelUsingPrune (cfg s)) 1) as [K|K].
      - now rewrite (Hsame K).
      - specialize (Hperm K). rewrite Hone in Hperm.
        apply Permutation_sym, Permutation_length_1_inv in Hperm.
        exact Hperm. }
    destruct Hg as (G1 & G2 & G3 & G4). rewrite Hl in G4.
    destruct g as [|g]; [|destruct g; discriminate].
    cbn in G4. injection G4 as <-. unfold golden_is.
    rewrite Hl. now repeat split.
Qed.

Lemma TrackCalc_golden_in_range_witness :
  golden_is (snd (@TrackCalc sample_externals
                    (sample_state (sample_cfg_mass4 0 1) prune_floor
                       hodo_nohit [prune_track 1 1 2e10] None)))
    0 (prune_track 1 1 2e10).
Proof.
  apply (TrackCalc_golden_in_range sample_externals
           (sample_state (sample_cfg_mass4 0 1) prune_floor hodo_nohit
              [prune_track 1 1 2e10] None)).
  - discriminate.
  - right. reflexivity.
  - reflexivity.
Defined.

(** X15.  The scintillator selection on a non-empty event either leaves
    the golden reference, fTrk and fTrkIfo exactly as they were at entry,
    or sets the three of them, consistently, to a candidate of the event
    that passes the degrees-of-freedom cut: a candidate that fails this
    cut is never made golden. *)
Theorem scin_golden_candidate (E : Externals) (s : THcHallCSpectrometer) :
  fSelUsingScin (cfg s) = 1%Z -> fSelUsingPrune (cfg s) <> 1%Z ->
  fTracks s <> [] ->
  golden_candidate (cfg s) s (snd (TrackCalc s)).
Proof.
  intros Hscin Hprune Hne.
  rewrite (TrackCalc_scin_only s Hscin Hprune).
  now apply SelectUsingScin_golden.
Qed.

Lemma scin_golden_candidate_witness :
  golden_candidate (cfg ev_scin_one_of_two) ev_scin_one_of_two
    (snd (@TrackCalc sample_externals ev_scin_one_of_two)).
Proof.
  apply (scin_golden_candidate sample_externals ev_scin_one_of_two).
  - reflexivity.
  - discriminate.
  - discriminate.
Defined.

Lemma scin_golden_left_witness :
  fGoldenTrack (snd (@TrackCalc sample_externals ev_scin_stale_sentinel))
  = Some 3%nat.
Proof.
  apply (scin_golden_left sample_externals ev_scin_stale_sentinel).
  - reflexivity.
  - discriminate.
  - discriminate.
  - intros t [<-|[]]. reflexivity.
  - intros j u Hn _. destruct j as [|j]; [|destruct j; discriminate Hn].
    injection Hn as <-. unfold Qle. cbn. lia.
Defined.


(** X14.  TrackCalc never writes to a track or to the hodoscope.  The
    track array is reordered in one case only, the sort of Strategy A with
    sorting enabled; in every other case, the two selections included, it
    is after the call exactly what it was before. *)
Theorem TrackCalc_track_array (E : Externals) (s : THcHallCSpectrometer) :
  fHodo (snd (TrackCalc s)) = fHodo s /\
  fTracks (snd (TrackCalc s))
  = (if (fSelUsingScin (cfg s) =? 0)%Z && (fSelUsingPrune (cfg s) =? 0)%Z
        && GetTrSorting (cfg s)
     then Sort (fTracks s) else fTracks s).
Proof.
  rewrite TrackCalc_blocks.
  destruct (SelectUsingPrune_frame (blockB (blockA s)))
    as (_ & _ & C3 & C4).
  assert (HC : fHodo (blockC (blockB (blockA s))) = fHodo (blockB (blockA s))
               /\ fTracks (blockC (blockB (blockA s)))
                  = fTracks (blockB (blockA s))).
  { unfold blockC.
    destruct (fSelUsingPrune (cfg (blockB (blockA s))) =? 1)%Z;
      split; auto. }
  destruct HC as [HC1 HC2].
  destruct (blockB_setup E (blockA s)) as (_ & _ & B3 & B4).
  rewrite HC1, HC2, B3, B4. unfold blockA, SortedFirst.
  destruct ((fSelUsingScin (cfg s) =? 0)%Z
            && (fSelUsingPrune (cfg s) =? 0)%Z); cbn [andb];
    [|split; reflexivity].
  destruct (GetTrSorting (cfg s));
    match goal with
    | |- context [(?n >? 0)%Z] => destruct (n >? 0)%Z
    end; split; reflexivity.
Qed.

(** ** The distance scores of the scintillator selection *)

Section ScoreProofs.
Context {E : Externals}.

Lemma Qeqb_count (x : Q) (m : nat) (k : Z) :
  x == inject_Z (Z.of_nat m) ->
  Qeqb x (inject_Z k) = (Z.of_nat m =? k)%Z.
Proof.
  intro H. destruct (Z.eqb_spec (Z.of_nat m) k) as [K|K].
  - apply Qeqb_eq. rewrite H, K. reflexivity.
  - destruct (Qeqb x (inject_Z k)) eqn:Hx; [|reflexivity].
    apply Qeqb_eq in Hx. rewrite H in Hx. unfold Qeq in Hx. cbn in Hx.
    lia.
Qed.

Lemma hit_paddles_S (hits : nat -> Z) (n : nat) :
  hit_paddles hits (S n)
  = hit_paddles hits n ++ (if (hits n =? 0)%Z then [n] else []).
Proof.
  unfold hit_paddles. rewrite seq_S, filter_app. cbn [filter Nat.add].
  destruct (hits n =? 0)%Z; reflexivity.
Qed.

(** The state [(fZap, ft)] of the paddle loop after [n] paddles: [ft]
    counts the hit paddles met so far and [fZap] is the smallest distance
    among the first six of them. *)
Lemma nearest_hit_inv (hits : nat -> Z) (cnt : Z) (n : nat) :
  let st :=
    for_loop n
      (fun i st =>
         let '(fZap, ft) := st in
         if (hits i =? 0)%Z then
           let d := inject_Z (TMath.AbsInt (cnt - Z.of_nat i - 1)) in
           let ft := ft + 1 in
           let fZap := if Qeqb ft 1 then d else fZap in
           let fZap := if Qeqb ft 2 && Qltb d fZap then d else fZap in
           let fZap := if Qeqb ft 3 && Qltb d fZap then d else fZap in
           let fZap := if Qeqb ft 4 && Qltb d fZap then d else fZap in
           let fZap := if Qeqb ft 5 && Qltb d fZap then d else fZap in
           let fZap := if Qeqb ft 6 && Qltb d fZap then d else fZap in
           (fZap, ft)
         else st)
      (0, 0) in
  let h := hit_paddles hits n in
  snd st == inject_Z (Z.of_nat (length h)) /\
  (h = [] -> fst st = 0) /\
  (forall i, In i (firstn 6 h) -> fst st <= paddle_distance cnt i) /\
  (h <> [] -> exists i, In i (firstn 6 h)
                        /\ fst st = paddle_distance cnt i).
Proof.
  cbv zeta.
  apply (for_loop_inv
           (fun n st =>
              snd st == inject_Z (Z.of_nat (length (hit_paddles hits n))) /\
              (hit_paddles hits n = [] -> fst st = 0) /\
              (forall i, In i (firstn 6 (hit_paddles hits n)) ->
                         fst st <= paddle_distance cnt i) /\
              (hit_paddles hits n <> [] ->
               exists i, In i (firstn 6 (hit_paddles hits n))
                         /\ fst st = paddle_distance cnt i))).
  - cbn. split; [reflexivity|]. split; [reflexivity|].
    split; [intros i []|]. intro K. now contradiction K.
  - intros i [fZap ft] _ (Hft & Hnone & Hle & Hex). cbn [fst snd] in *.
    rewrite hit_paddles_S.
    destruct (hits i =? 0)%Z eqn:Hh.
    2:{ rewrite app_nil_r. repeat split; assumption. }
    set (h := hit_paddles hits i) in *.
    fold (paddle_distance cnt i). set (d := paddle_distance cnt i).
    assert (Hft' : ft + 1 == inject_Z (Z.of_nat (S (length h)))).
    { rewrite Hft, Nat2Z.inj_succ, <- Z.add_1_r, inject_Z_plus.
      reflexivity. }
    assert (Q1 : Qeqb (ft + 1) 1 = (Z.of_nat (S (length h)) =? 1)%Z)
      by exact (Qeqb_count _ _ 1%Z Hft').
    assert (Q2 : Qeqb (ft + 1) 2 = (Z.of_nat (S (length h)) =? 2)%Z)
      by exact (Qeqb_count _ _ 2%Z Hft').
    assert (Q3 : Qeqb (ft + 1) 3 = (Z.of_nat (S (length h)) =? 3)%Z)
      by exact (Qeqb_count _ _ 3%Z Hft').
    assert (Q4 : Qeqb (ft + 1) 4 = (Z.of_nat (S (length h)) =? 4)%Z)
      by exact (Qeqb_count _ _ 4%Z Hft').
    assert (Q5 : Qeqb (ft + 1) 5 = (Z.of_nat (S (length h)) =? 5)%Z)
      by exact (Qeqb_count _ _ 5%Z Hft').
    assert (Q6 : Qeqb (ft + 1) 6 = (Z.of_nat (S (length h)) =? 6)%Z)
      by exact (Qeqb_count _ _ 6%Z Hft').
    rewrite Q1, Q2, Q3, Q4, Q5, Q6. clear Q1 Q2 Q3 Q4 Q5 Q6.
    rewrite length_app. cbn [length]. rewrite Nat.add_1_r.
    split; [exact Hft'|].
    split; [intro K; destruct h; discriminate|].
    destruct h as [|a0 h0] eqn:Hhl.
    { (* the first hit paddle *)
      cbn. split.
      - intros j [<-|[]]. apply Qle_refl.
      - intros _. exists i. split; [now left | reflexivity]. }
    assert (Hne : a0 :: h0 <> []) by discriminate.
    specialize (Hex Hne). clear Hnone.
    destruct (le_lt_dec 6 (length (a0 :: h0))) as [Hbig|Hsmall].
    + (* six hit paddles already seen: nothing changes *)
      assert (Hf : firstn 6 ((a0 :: h0) ++ [i]) = firstn 6 (a0 :: h0)).
      { rewrite firstn_app.
        replace (6 - length (a0 :: h0))%nat with 0%nat by lia.
        cbn [firstn]. now rewrite app_nil_r. }
      rewrite Hf.
      assert (Hk : forall k, (1 <= k <= 6)%Z ->
                   (Z.of_nat (S (length (a0 :: h0))) =? k)%Z = false)
        by (intros k Hk; apply Z.eqb_neq; lia).
      rewrite !Hk by lia. cbn [andb fst].
      split; [exact Hle|]. intros _. exact Hex.
    + (* between two and six: the minimum is updated *)
      assert (Hf : firstn 6 ((a0 :: h0) ++ [i]) = (a0 :: h0) ++ [i]).
      { apply firstn_all2. rewrite length_app. cbn [length] in *. lia. }
      assert (Hf0 : firstn 6 (a0 :: h0) = a0 :: h0)
        by (apply firstn_all2; lia).
      rewrite Hf. rewrite Hf0 in Hle, Hex.
      assert (Hmin :
        fst (let fZap0 := fZap in
             (if Qltb d fZap0 then d else fZap0, ft + 1))
        = (if Qltb d fZap then d else fZap)) by reflexivity.
      assert (Hval :
        forall z, z = (if Qltb d fZap then d else fZap) ->
          (forall j, In j ((a0 :: h0) ++ [i]) -> z <= paddle_distance cnt j)
          /\ (exists j, In j ((a0 :: h0) ++ [i])
                        /\ z = paddle_distance cnt j)).
      { intros z ->. destruct (Qltb d fZap) eqn:Hlt.
        - apply Qltb_lt in Hlt. split.
          + intros j Hj. apply in_app_or in Hj. destruct Hj as [Hj|[<-|[]]].
            * specialize (Hle j Hj). lra.
            * apply Qle_refl.
          + exists i. split; [apply in_or_app; right; now left|reflexivity].
        - apply Qltb_ge in Hlt. split.
          + intros j Hj. apply in_app_or in Hj. destruct Hj as [Hj|[<-|[]]].
            * exact (Hle j Hj).
            * exact Hlt.
          + destruct Hex as (j & Hj & Hz). exists j.
            split; [apply in_or_app; now left | exact Hz]. }
      cbn [length] in Hsmall.
      destruct h0 as [|a1 [|a2 [|a3 [|a4 [|a5 h5]]]]];
        cbn [length] in Hsmall; try lia;
        cbn [length Z.of_nat Pos.of_succ_nat Pos.succ Z.eqb Pos.eqb andb fst];
        (destruct (Hval _ eq_refl) as [H1 H2];
         split; [exact H1 | intros _; exact H2]).
Qed.

End ScoreProofs.

(** X18.  The distance score of a plane is the smallest distance, in
    paddles, between the predicted counter and the first six hit paddles
    of the plane, in paddle order; hit paddles after the sixth are not
    looked at, and a plane without a hit gives the score 0. *)
Theorem nearest_hit_first_six (hits : nat -> Z) (npad : nat) (fHitCnt : Z) :
  let l := firstn 6 (hit_paddles hits npad) in
  (l = [] -> nearest_hit hits npad fHitCnt = 0) /\
  (forall i, In i l ->
             nearest_hit hits npad fHitCnt <= paddle_distance fHitCnt i) /\
  (l <> [] ->
   exists i, In i l /\ nearest_hit hits npad fHitCnt
                       = paddle_distance fHitCnt i).
Proof.
  intro l. subst l.
  destruct (nearest_hit_inv hits fHitCnt npad) as (_ & H0 & Hle & Hex).
  fold (nearest_hit hits npad fHitCnt) in H0, Hle, Hex.
  split; [|split].
  - intro K. apply H0. destruct (hit_paddles hits npad); [reflexivity|].
    discriminate.
  - exact Hle.
  - intro K. apply Hex. intro K0. rewrite K0 in K. now apply K.
Qed.

(** X19.  For an event with candidates, the two scores stored for a
    candidate lie between 0 and the number of paddles of the plane less
    one (0 for a plane without paddles): the predicted counter is clamped
    to the paddles of the plane before the distances are taken. *)
Theorem scin_scores_range (E : Externals) (c : Config) (hodo : THcHodoscope)
  (n : Z) (k : nat) (t : THaTrack) (w : ScinLocals) :
  (1 <= n)%Z ->
  let w' := scin_scores c hodo n k t w in
  0 <= fY2D w' k /\
  fY2D w' k <= inject_Z (Z.max 0 (Z.of_nat (GetNPaddles hodo 3) - 1)) /\
  0 <= fX2D w' k /\
  fX2D w' k <= inject_Z (Z.max 0 (Z.of_nat (GetNPaddles hodo 2) - 1)).
Proof.
  intros Hn w'. subst w'. unfold scin_scores.
  destruct (mark_hits hodo (fNPlanes c) _) as [[x y] raw].
  cbn [fY2D fX2D].
  assert (B : forall hits npad ic,
             0 <= nearest_hit hits npad
                    (TMath.MaxInt (TMath.MinInt ic (Z.of_nat npad)) 1)
             /\ nearest_hit hits npad
                  (TMath.MaxInt (TMath.MinInt ic (Z.of_nat npad)) 1)
                <= inject_Z (Z.max 0 (Z.of_nat npad - 1))).
  { intros hits npad ic.
    exact (nearest_hit_bound hits npad _ (fHitCnt_range ic npad)). }
  assert (Z0 : forall m : Z, 0 <= inject_Z (Z.max 0 m)).
  { intro m. change 0 with (inject_Z 0). rewrite <- Zle_Qle. lia. }
  destruct (n =? 1)%Z eqn:N1.
  - rewrite !upd_same. repeat split; try apply Qle_refl; apply Z0.
  - assert (N2 : (n >? 1)%Z = true).
    { apply Z.eqb_neq in N1. rewrite Z.gtb_ltb. apply Z.ltb_lt. lia. }
    rewrite N2, !upd_same. repeat split; apply B.
Qed.

Lemma scin_scores_range_witness :
  let w' := @scin_scores sample_externals (cfg ev_scin_two) hodo_pad4 2 1
              (sample_track 0 0 1 0) (fst (scin_init ev_scin_two)) in
  0 <= fY2D w' 1 /\ fY2D w' 1 <= 9 /\ 0 <= fX2D w' 1 /\ fX2D w' 1 <= 9.
Proof.
  intro w'.
  exact (scin_scores_range sample_externals (cfg ev_scin_two) hodo_pad4 2 1
           (sample_track 0 0 1 0) (fst (scin_init ev_scin_two))
           ltac:(lia)).
Defined.

Section IndexProofs.
Context {E : Externals}.

Lemma scin_select_index (k : nat) (chi : Q)
  (st : ScinLocals * THcHallCSpectrometer) :
  fRawIndex (fst (scin_select k chi st)) = fRawIndex (fst st).
Proof.
  destruct st as [w x]. unfold scin_select.
  repeat match goal with
         | |- context [if ?b then _ else _] => destruct b
         end; reflexivity.
Qed.

End IndexProofs.

(** X20.  The running index into the flat hit list is set to -1 once per
    event and advanced by every qualifying candidate by the number of hits
    of the event: after the loop over the candidates it is -1 plus the
    number of qualifying candidates times the number of hits, so the k-th
    qualifying candidate (counted from 0) reads the positions k*N to
    (k+1)*N - 1 of the list, N being the number of hits. *)
Theorem scin_loop_index (E : Externals) (s : THcHallCSpectrometer) :
  fRawIndex (fst (scin_loop s))
  = (-1 + Z.of_nat (length (filter (qualifies (cfg s)) (fTracks s)))
          * total_hits (fHodo s) (fNPlanes (cfg s)))%Z.
Proof.
  unfold scin_loop.
  apply (for_tracks_inv
           (fun done st =>
              fRawIndex (fst st)
              = (-1 + Z.of_nat (length (filter (qualifies (cfg s)) done))
                      * total_hits (fHodo s) (fNPlanes (cfg s)))%Z)).
  - cbn. lia.
  - intros done a rest st _ IH. rewrite filter_app, length_app.
    cbn [filter]. destruct (qualifies (cfg s) a) eqn:Hq.
    + rewrite (scin_track_qualified _ _ _ _ _ _ Hq).
      rewrite scin_select_index. cbn [fst].
      rewrite scin_scores_index, IH. cbn [length]. lia.
    + rewrite (scin_track_skip _ _ _ _ _ _ Hq), IH. cbn [length]. lia.
Qed.

(** ** The prune selection when some candidate passes every cut *)

Section AllPass.
Context {E : Externals}.

Lemma firstn_snoc {A : Type} (l : list A) (k : nat) (c : A) :
  nth_error l k = Some c -> firstn (S k) l = firstn k l ++ [c].
Proof.
  revert k. induction l as [|a l IH]; intros k H.
  - destruct k; discriminate.
  - destruct k as [|k].
    + cbn in H. injection H as ->. reflexivity.
    + cbn in H. change (a :: firstn (S k) l = a :: (firstn k l ++ [c])).
      f_equal. exact (IH k H).
Qed.

Lemma passes_all_prefix (cuts : list PruneCut) (k : nat) (t : THaTrack) :
  passes_all cuts t = true -> passes_all (firstn k cuts) t = true.
Proof.
  unfold passes_all. revert k. induction cuts as [|c cuts IH]; intros k H.
  - destruct k; reflexivity.
  - destruct k as [|k]; [reflexivity|].
    cbn in H. apply andb_prop in H. destruct H as [H1 H2].
    cbn. rewrite H1. exact (IH k H2).
Qed.

(** With a candidate that passes every cut, every block finds a kept
    candidate that passes its cut and is enforced: after [k] blocks a
    candidate is kept exactly when it passes the first [k] cuts, and its
    rejection code is the sum of the contributions of those it fails. *)
Lemma prune_after_all_pass (s : THcHallCSpectrometer) (t0 : THaTrack)
  (k : nat) :
  In t0 (fTracks s) -> passes_all (prune_cuts s) t0 = true ->
  (k <= length (prune_cuts s))%nat ->
  forall j u, nth_error (fTracks s) j = Some u ->
    fKeep (prune_after k s) j = passes_all (firstn k (prune_cuts s)) u /\
    fReject (prune_after k s) j = reject_code (firstn k (prune_cuts s)) u.
Proof.
  intros Hin Hall. induction k as [|k IH]; intros Hk j u Hj.
  - unfold prune_after. cbn [firstn fold_left].
    destruct (prune_init_kept (fTracks s) j u Hj) as [H1 H2].
    rewrite H1, H2. split; reflexivity.
  - assert (Hc : exists c, nth_error (prune_cuts s) k = Some c).
    { destruct (nth_error (prune_cuts s) k) as [c|] eqn:Hn;
        [now exists c|]. apply nth_error_None in Hn. lia. }
    destruct Hc as (c & Hc).
    assert (Hcin : In c (prune_cuts s)) by (eapply nth_error_In; exact Hc).
    rewrite (prune_after_S s k c Hc), (firstn_snoc _ _ _ Hc).
    assert (IHk := IH ltac:(lia)).
    assert (Hgood : (count_good (fTracks s) c (prune_after k s) >? 0)%Z
                    = true).
    { apply count_good_pos. destruct (In_nth_error _ _ Hin) as (i0 & Hi0).
      exists i0, t0. split; [exact Hi0|]. split.
      - destruct (IHk i0 t0 Hi0) as [K _]. rewrite K.
        now apply passes_all_prefix.
      - unfold passes_all in Hall.
        exact (proj1 (forallb_forall _ _) Hall c Hcin). }
    unfold apply_cut. rewrite Hgood.
    destruct (reject_failing_spec (fTracks s) c (prune_after k s) j u Hj)
      as [K1 K2].
    destruct (IHk j u Hj) as [I1 I2].
    rewrite K1, K2, I1, I2. unfold passes_all, reject_code.
    rewrite forallb_app, fold_left_app. cbn [forallb fold_left].
    rewrite andb_true_r.
    destruct (cut_pass c u) eqn:Hp.
    + rewrite (prune_cuts_exclusive s c u Hcin Hp).
      rewrite andb_true_r. split; reflexivity.
    + rewrite (prune_cuts_exhaustive s c u Hcin Hp).
      rewrite andb_false_r. split; reflexivity.
Qed.

Lemma prune_final_all_pass (s : THcHallCSpectrometer) (t0 : THaTrack) :
  In t0 (fTracks s) -> passes_all (prune_cuts_clamped s) t0 = true ->
  forall j u, nth_error (fTracks s) j = Some u ->
    fKeep (prune_final s) j = passes_all (prune_cuts_clamped s) u /\
    fReject (prune_final s) j = reject_code (prune_cuts_clamped s) u.
Proof.
  intros Hin Hall j u Hj. unfold prune_final, prune_cuts_clamped in *.
  cbv zeta.
  set (s1 := set_prune s (clamp_prune (prune s))) in *.
  destruct (prune_after_all_pass s1 t0 (length (prune_cuts s1)) Hin Hall
              (le_n _) j u Hj) as [K1 K2].
  rewrite firstn_all in K1, K2. split; assumption.
Qed.

(** The golden reference of the prune selection, from the final
    workspace: when a kept candidate is below 1e10, it is the first kept
    candidate with the smallest chi-square per degree of freedom. *)
Lemma prune_golden_kept_min (s : THcHallCSpectrometer) (j : nat)
  (u : THaTrack) :
  fSelUsingPrune (cfg s) = 1%Z ->
  nth_error (fTracks s) j = Some u -> fKeep (prune_final s) j = true ->
  Chi2PerDeg u < 1e10 ->
  exists g t,
    fGoldenTrack (snd (TrackCalc s)) = Some g /\
    nth_error (fTracks s) g = Some t /\
    fKeep (prune_final s) g = true /\
    (forall j' u', nth_error (fTracks s) j' = Some u' ->
                   fKeep (prune_final s) j' = true ->
                   Chi2PerDeg t <= Chi2PerDeg u').
Proof.
  intros Hprune Hn Hk Hlt.
  assert (Hg : fGoldenTrack (snd (TrackCalc s))
               = fGoldenTrack (SelectUsingPrune s)).
  { rewrite TrackCalc_blocks.
    assert (HA : blockA s = s).
    { unfold blockA. rewrite Hprune. now rewrite andb_false_r. }
    rewrite HA. assert (HB := blockB_setup E s).
    unfold blockC. destruct HB as (Hc & HB). rewrite Hc, Hprune. simpl.
    apply SelectUsingPrune_golden_setup. split; assumption. }
  rewrite Hg. unfold SelectUsingPrune. cbv zeta.
  assert (Hne : (fNtracks (set_prune s (clamp_prune (prune s))) >? 0)%Z
                = true).
  { apply fNtracks_pos. simpl. intro K. rewrite K in Hn.
    destruct j; discriminate. }
  rewrite Hne. rewrite SelectUsingPrune_work. simpl fTracks.
  match goal with
  | |- context [for_tracks ?l (prune_pick_track ?w) ?x0] =>
      destruct (prune_pick_inv w l x0 eq_refl) as [Hlow Hcase]
  end.
  simpl in Hlow, Hcase.
  destruct Hcase as [[Hc _]|(g & t & Hgood & Hng & Hkg & Hm & _ & _)].
  - specialize (Hlow j u Hn Hk). rewrite Hc in Hlow. lra.
  - exists g, t. simpl. rewrite Hgood, Nat2Z.id.
    split; [reflexivity|]. split; [exact Hng|]. split; [exact Hkg|].
    intros j' u' Hn' Hk'. rewrite <- Hm. apply (Hlow j' u' Hn' Hk').
Qed.

End AllPass.

(** X21.  For an event on every candidate of which the beta from the
    momentum is a number: when at least one candidate passes all eleven
    cuts (with the thresholds raised to their floors), no block is
    skipped: at the end a candidate is kept exactly when it passes every
    cut, and its rejection code is the sum of the contributions of the
    cuts it fails. *)
Theorem prune_all_pass (E : Externals) (s : THcHallCSpectrometer)
  (t0 : THaTrack) (j : nat) (u : THaTrack) :
  beta_defined_event s ->
  In t0 (fTracks s) -> passes_all (prune_cuts_clamped s) t0 = true ->
  nth_error (fTracks s) j = Some u ->
  fKeep (prune_final s) j = passes_all (prune_cuts_clamped s) u /\
  fReject (prune_final s) j = reject_code (prune_cuts_clamped s) u.
Proof.
  intros _ Hin Hall Hj. exact (prune_final_all_pass s t0 Hin Hall j u Hj).
Qed.

Lemma prune_all_pass_witness :
  fKeep (@prune_final sample_externals ev_prune_three) 0 = false /\
  fReject (@prune_final sample_externals ev_prune_three) 0 = 1%Z.
Proof.
  apply (prune_all_pass sample_externals ev_prune_three (prune_track 0 0 5)
           0%nat (prune_track 1 0 1)).
  - intros t [<-|[<-|[<-|[]]]]; vm_compute; discriminate.
  - right. left. reflexivity.
  - reflexivity.
  - reflexivity.
Defined.

(** X22.  In prune mode, for an event on every candidate of which the
    beta from the momentum is a number: when some candidate passes all
    eleven cuts and has a chi-square per degree of freedom below 1e10, the
    golden track passes all eleven cuts and has the smallest chi-square
    per degree of freedom among the candidates that pass them all. *)
Theorem prune_golden_all_pass (E : Externals) (s : THcHallCSpectrometer)
  (t0 : THaTrack) :
  fSelUsingPrune (cfg s) = 1%Z ->
  beta_defined_event s ->
  In t0 (fTracks s) -> passes_all (prune_cuts_clamped s) t0 = true ->
  Chi2PerDeg t0 < 1e10 ->
  exists g t,
    fGoldenTrack (snd (TrackCalc s)) = Some g /\
    nth_error (fTracks s) g = Some t /\
    passes_all (prune_cuts_clamped s) t = true /\
    forall u, In u (fTracks s) -> passes_all (prune_cuts_clamped s) u = true ->
              Chi2PerDeg t <= Chi2PerDeg u.
Proof.
  intros Hprune _ Hin Hall Hlt.
  destruct (In_nth_error _ _ Hin) as (j0 & Hj0).
  assert (Hk0 : fKeep (prune_final s) j0 = true).
  { destruct (prune_final_all_pass s t0 Hin Hall j0 t0 Hj0) as [K _].
    now rewrite K. }
  destruct (prune_golden_kept_min s j0 t0 Hprune Hj0 Hk0 Hlt)
    as (g & t & Hg & Hng & Hkg & Hmin).
  exists g, t. split; [exact Hg|]. split; [exact Hng|]. split.
  - destruct (prune_final_all_pass s t0 Hin Hall g t Hng) as [K _].
    now rewrite <- K.
  - intros u Hu Hpu. destruct (In_nth_error _ _ Hu) as (j & Hj).
    apply (Hmin j u Hj).
    destruct (prune_final_all_pass s t0 Hin Hall j u Hj) as [K _].
    now rewrite K.
Qed.

Lemma prune_golden_all_pass_witness :
  exists g t,
    fGoldenTrack (snd (@TrackCalc sample_externals ev_prune_three)) = Some g
    /\ nth_error (fTracks ev_prune_three) g = Some t
    /\ passes_all (@prune_cuts_clamped sample_externals ev_prune_three) t
       = true.
Proof.
  assert (Hbeta : @beta_defined_event sample_externals ev_prune_three).
  { intros t [<-|[<-|[<-|[]]]]; vm_compute; discriminate. }
  destruct (prune_golden_all_pass sample_externals ev_prune_three
              (prune_track 0 0 5) eq_refl Hbeta
              (or_intror (or_introl eq_refl)) eq_refl eq_refl)
    as (g & t & H1 & H2 & H3 & _).
  exists g, t. auto.
Defined.

Section RejectCode.
Context {E : Externals}.

Lemma b2z_range (b : bool) : (0 <= Z.b2z b <= 1)%Z.
Proof. destruct b; cbn; lia. Qed.

Local Open Scope Z_scope.

(** The sum of the contributions determines which of them are in
    it. *)
Lemma decode_pairs (x1 x2 x3 x4 x5 x6 x7 x8 x9 x10 x11
                    y1 y2 y3 y4 y5 y6 y7 y8 y9 y10 y11 : Z) :
  0 <= x1 <= 1 -> 0 <= x2 <= 1 -> 0 <= x3 <= 1 -> 0 <= x4 <= 1 ->
  0 <= x5 <= 1 -> 0 <= x6 <= 1 -> 0 <= x7 <= 1 -> 0 <= x8 <= 1 ->
  0 <= x9 <= 1 -> 0 <= x10 <= 1 -> 0 <= x11 <= 1 ->
  0 <= y1 <= 1 -> 0 <= y2 <= 1 -> 0 <= y3 <= 1 -> 0 <= y4 <= 1 ->
  0 <= y5 <= 1 -> 0 <= y6 <= 1 -> 0 <= y7 <= 1 -> 0 <= y8 <= 1 ->
  0 <= y9 <= 1 -> 0 <= y10 <= 1 -> 0 <= y11 <= 1 ->
  1 * x1 + (2 * x2 + (10 * x3 + (20 * x4 + (100 * x5 + (200 * x6
  + (100000 * x7 + (1000 * x8 + (2000 * x9 + (10000 * x10
  + (20000 * x11 + 0))))))))))
  = 1 * y1 + (2 * y2 + (10 * y3 + (20 * y4 + (100 * y5 + (200 * y6
  + (100000 * y7 + (1000 * y8 + (2000 * y9 + (10000 * y10
  + (20000 * y11 + 0)))))))))) ->
  x1 = y1 /\ x2 = y2 /\ x3 = y3 /\ x4 = y4 /\ x5 = y5 /\ x6 = y6 /\
  x7 = y7 /\ x8 = y8 /\ x9 = y9 /\ x10 = y10 /\ x11 = y11.
Proof.
  intros X1 X2 X3 X4 X5 X6 X7 X8 X9 X10 X11
         Y1 Y2 Y3 Y4 Y5 Y6 Y7 Y8 Y9 Y10 Y11 H.
  assert (L1 : x1 = y1 /\ x2 = y2).
  { assert (K : exists k, x1 + 2 * x2 - y1 - 2 * y2 = 10 * k).
    { exists ((y3 - x3) + 2 * (y4 - x4) + 10 * (y5 - x5) + 20 * (y6 - x6)
              + 10000 * (y7 - x7) + 100 * (y8 - x8) + 200 * (y9 - x9)
              + 1000 * (y10 - x10) + 2000 * (y11 - x11)). lia. }
    destruct K as [k K]. clear - K X1 X2 Y1 Y2. lia. }
  destruct L1 as [-> ->].
  assert (L2 : x3 = y3 /\ x4 = y4).
  { assert (K : exists k, x3 + 2 * x4 - y3 - 2 * y4 = 10 * k).
    { exists ((y5 - x5) + 2 * (y6 - x6)
              + 1000 * (y7 - x7) + 10 * (y8 - x8) + 20 * (y9 - x9)
              + 100 * (y10 - x10) + 200 * (y11 - x11)). lia. }
    destruct K as [k K]. clear - K X3 X4 Y3 Y4. lia. }
  destruct L2 as [-> ->].
  assert (L3 : x5 = y5 /\ x6 = y6).
  { assert (K : exists k, x5 + 2 * x6 - y5 - 2 * y6 = 10 * k).
    { exists (100 * (y7 - x7) + (y8 - x8) + 2 * (y9 - x9)
              + 10 * (y10 - x10) + 20 * (y11 - x11)). lia. }
    destruct K as [k K]. clear - K X5 X6 Y5 Y6. lia. }
  destruct L3 as [-> ->].
  assert (L4 : x8 = y8 /\ x9 = y9).
  { assert (K : exists k, x8 + 2 * x9 - y8 - 2 * y9 = 10 * k).
    { exists (10 * (y7 - x7) + (y10 - x10) + 2 * (y11 - x11)). lia. }
    destruct K as [k K]. clear - K X8 X9 Y8 Y9. lia. }
  destruct L4 as [-> ->].
  assert (L5 : x10 = y10 /\ x11 = y11).
  { assert (K : exists k, x10 + 2 * x11 - y10 - 2 * y11 = 10 * k).
    { exists (y7 - x7). lia. }
    destruct K as [k K]. clear - K X10 X11 Y10 Y11. lia. }
  destruct L5 as [-> ->].
  assert (x7 = y7) by lia. subst. repeat split.
Qed.

Local Close Scope Z_scope.

End RejectCode.

Section RejectDecode.
Context {E : Externals}.

(** What one block adds to the rejection code of a candidate. *)
Lemma apply_cut_reject (tracks : list THaTrack) (w : PruneWork)
  (c : PruneCut) (j : nat) (u : THaTrack) :
  nth_error tracks j = Some u ->
  fReject (apply_cut tracks w c) j
  = (fReject w j
     + cut_code c
       * Z.b2z ((count_good tracks c w >? 0)%Z && cut_fail c u))%Z.
Proof.
  intro Hj. unfold apply_cut.
  destruct (count_good tracks c w >? 0)%Z; cbn [andb].
  - destruct (reject_failing_spec tracks c w j u Hj) as [_ K].
    rewrite K. destruct (cut_fail c u); cbn [Z.b2z]; lia.
  - cbn [Z.b2z]. lia.
Qed.

End RejectDecode.

(** The case of one block: the cut is the one at its position of the
    list, and it is enforced. *)
Ltac pick_cut c0 G :=
  match goal with
  | Hc : nth_error _ _ = Some ?c, Henf : _ = true |- _ =>
      assert (c = c0)
        by (change (Some c0 = Some c) in Hc; congruence);
      subst c; rewrite Henf in G; cbn [andb] in G;
      apply Z.b2z_inj in G; exact G
  end.

(** X25.  The rejection code tells the failed cuts apart: the
    contributions 1, 2, 10, 20, 100, 200, 1000, 2000, 10000, 20000 and
    100000 are such that, in an event on every candidate of which the
    beta from the momentum is a number, two candidates with the same
    rejection code at the end of the pipeline fail exactly the same
    enforced cuts. *)
Theorem fReject_decode (E : Externals) (s : THcHallCSpectrometer)
  (j j' : nat) (u v : THaTrack) (k : nat) (c : PruneCut) :
  beta_defined_event s ->
  nth_error (fTracks s) j = Some u -> nth_error (fTracks s) j' = Some v ->
  fReject (prune_final s) j = fReject (prune_final s) j' ->
  nth_error (prune_cuts_clamped s) k = Some c ->
  kept_passes (fTracks s)
    (prune_after k (set_prune s (clamp_prune (prune s)))) c ->
  cut_fail c u = cut_fail c v.
Proof.
  intros _ Hj Hj' H Hc Henf. apply count_good_pos in Henf.
  unfold prune_final, prune_cuts_clamped in *. cbv zeta in H.
  set (s1 := set_prune s (clamp_prune (prune s))) in *.
  change (length (prune_cuts s1)) with 11%nat in H.
  assert (Hstep : forall i ci, nth_error (prune_cuts s1) i = Some ci ->
            forall jj uu, nth_error (fTracks s) jj = Some uu ->
            fReject (prune_after (S i) s1) jj
            = (fReject (prune_after i s1) jj
               + cut_code ci
                 * Z.b2z ((count_good (fTracks s) ci (prune_after i s1) >? 0)%Z
                          && cut_fail ci uu))%Z).
  { intros i ci Hi jj uu Hjj. rewrite (prune_after_S s1 i ci Hi).
    exact (apply_cut_reject (fTracks s) _ ci jj uu Hjj). }
  assert (H0 : forall jj uu, nth_error (fTracks s) jj = Some uu ->
                             fReject (prune_after 0 s1) jj = 0%Z).
  { intros jj uu Hjj. exact (proj2 (prune_init_kept (fTracks s) jj uu Hjj)). }
  rewrite (Hstep 10%nat _ eq_refl j u Hj), (Hstep 10%nat _ eq_refl j' v Hj'),
    (Hstep 9%nat _ eq_refl j u Hj), (Hstep 9%nat _ eq_refl j' v Hj'),
    (Hstep 8%nat _ eq_refl j u Hj), (Hstep 8%nat _ eq_refl j' v Hj'),
    (Hstep 7%nat _ eq_refl j u Hj), (Hstep 7%nat _ eq_refl j' v Hj'),
    (Hstep 6%nat _ eq_refl j u Hj), (Hstep 6%nat _ eq_refl j' v Hj'),
    (Hstep 5%nat _ eq_refl j u Hj), (Hstep 5%nat _ eq_refl j' v Hj'),
    (Hstep 4%nat _ eq_refl j u Hj), (Hstep 4%nat _ eq_refl j' v Hj'),
    (Hstep 3%nat _ eq_refl j u Hj), (Hstep 3%nat _ eq_refl j' v Hj'),
    (Hstep 2%nat _ eq_refl j u Hj), (Hstep 2%nat _ eq_refl j' v Hj'),
    (Hstep 1%nat _ eq_refl j u Hj), (Hstep 1%nat _ eq_refl j' v Hj'),
    (Hstep 0%nat _ eq_refl j u Hj), (Hstep 0%nat _ eq_refl j' v Hj'),
    (H0 j u Hj), (H0 j' v Hj') in H.
  clear Hstep H0.
  change (cut_code (prune_xptar (prune s1))) with 1%Z in H.
  change (cut_code (prune_yptar (prune s1))) with 2%Z in H.
  change (cut_code (prune_ytar (prune s1))) with 10%Z in H.
  change (cut_code (prune_delta (prune s1))) with 20%Z in H.
  change (cut_code (prune_beta (prune s1) (fPartMass (cfg s1))))
    with 100%Z in H.
  change (cut_code (prune_df (prune s1))) with 200%Z in H.
  change (cut_code (prune_npmt (prune s1))) with 100000%Z in H.
  change (cut_code (prune_chibeta (prune s1))) with 1000%Z in H.
  change (cut_code (prune_fptime (prune s1) (GetStartTimeCenter (fHodo s1))))
    with 2000%Z in H.
  change (cut_code prune_y2) with 10000%Z in H.
  change (cut_code prune_x2) with 20000%Z in H.
  assert (B := b2z_range).
  match type of H with
  | (0 + 1 * Z.b2z ?x1 + 2 * Z.b2z ?x2 + 10 * Z.b2z ?x3 + 20 * Z.b2z ?x4
     + 100 * Z.b2z ?x5 + 200 * Z.b2z ?x6 + 100000 * Z.b2z ?x7
     + 1000 * Z.b2z ?x8 + 2000 * Z.b2z ?x9 + 10000 * Z.b2z ?x10
     + 20000 * Z.b2z ?x11
     = 0 + 1 * Z.b2z ?y1 + 2 * Z.b2z ?y2 + 10 * Z.b2z ?y3 + 20 * Z.b2z ?y4
       + 100 * Z.b2z ?y5 + 200 * Z.b2z ?y6 + 100000 * Z.b2z ?y7
       + 1000 * Z.b2z ?y8 + 2000 * Z.b2z ?y9 + 10000 * Z.b2z ?y10
       + 20000 * Z.b2z ?y11)%Z =>
      destruct (decode_pairs _ _ _ _ _ _ _ _ _ _ _ _ _ _ _ _ _ _ _ _ _ _
                  (B x1) (B x2) (B x3) (B x4) (B x5) (B x6) (B x7) (B x8)
                  (B x9) (B x10) (B x11)
                  (B y1) (B y2) (B y3) (B y4) (B y5) (B y6) (B y7) (B y8)
                  (B y9) (B y10) (B y11) ltac:(lia))
        as (G1 & G2 & G3 & G4 & G5 & G6 & G7 & G8 & G9 & G10 & G11)
  end.
  clear H B.
  destruct k as [|k]; [pick_cut (prune_xptar (prune s1)) G1|].
  destruct k as [|k]; [pick_cut (prune_yptar (prune s1)) G2|].
  destruct k as [|k]; [pick_cut (prune_ytar (prune s1)) G3|].
  destruct k as [|k]; [pick_cut (prune_delta (prune s1)) G4|].
  destruct k as [|k];
    [pick_cut (prune_beta (prune s1) (fPartMass (cfg s1))) G5|].
  destruct k as [|k]; [pick_cut (prune_df (prune s1)) G6|].
  destruct k as [|k]; [pick_cut (prune_npmt (prune s1)) G7|].
  destruct k as [|k]; [pick_cut (prune_chibeta (prune s1)) G8|].
  destruct k as [|k];
    [pick_cut (prune_fptime (prune s1) (GetStartTimeCenter (fHodo s1)))
       G9|].
  destruct k as [|k]; [pick_cut (prune_y2) G10|].
  destruct k as [|k]; [pick_cut (prune_x2) G11|].
  destruct k; discriminate Hc.
Qed.

Lemma fReject_decode_witness :
  cut_fail (prune_xptar prune_floor) (prune_track 0 0 5)
  = cut_fail (prune_xptar prune_floor) (prune_track 0 0 3).
Proof.
  apply (fReject_decode sample_externals ev_prune_three 1 2
           (prune_track 0 0 5) (prune_track 0 0 3) 0
           (prune_xptar prune_floor)).
  - intros t [<-|[<-|[<-|[]]]]; vm_compute; discriminate.
  - reflexivity.
  - reflexivity.
  - reflexivity.
  - reflexivity.
  - exists 1%nat, (prune_track 0 0 5). repeat split.
Defined.

(** X24.  Every block of the prune selection writes its condition twice,
    once to count the kept candidates that pass and once, negated, to
    reject: for each of the eleven blocks the two tests are complementary
    -- in the beta block for a candidate whose beta from the momentum is
    a number -- so that an enforced block rejects exactly the candidates
    that do not pass its test. *)
Theorem prune_tests_complementary (E : Externals)
  (s : THcHallCSpectrometer) :
  Forall (fun c =>
            forall t,
              (c = prune_beta (prune s) (fPartMass (cfg s)) ->
               beta_defined (fPartMass (cfg s)) t) ->
              cut_fail c t = negb (cut_pass c t))
    (prune_cuts s).
Proof.
  apply Forall_forall. intros c Hc t _. destruct (cut_pass c t) eqn:Hp.
  - exact (prune_cuts_exclusive s c t Hc Hp).
  - exact (prune_cuts_exhaustive s c t Hc Hp).
Qed.

(** ** The scintillator selection without hits in the planes 2 and 3 *)

Section NoHits.
Context {E : Externals}.

Lemma mark_hits_none (hodo : THcHodoscope) (nplanes : Z)
  (x y : nat -> Z) (raw : Z) :
  GetNScinHits hodo 2 = 0%nat -> GetNScinHits hodo 3 = 0%nat ->
  fst (mark_hits hodo nplanes (x, y, raw)) = (x, y).
Proof.
  intros H2 H3. unfold mark_hits.
  apply (for_loop_inv (fun _ st => fst st = (x, y))); [reflexivity|].
  intros ip st _ Hst.
  apply (for_loop_inv (fun _ st => fst st = (x, y))); [exact Hst|].
  intros i [[x1 y1] r] Hi H1. cbn in H1. injection H1 as -> ->.
  destruct (Nat.eqb_spec ip 2) as [->|N2]; [rewrite H2 in Hi; lia|].
  destruct (Nat.eqb_spec ip 3) as [->|N3]; [rewrite H3 in Hi; lia|].
  reflexivity.
Qed.

Lemma reset_marks (n : nat) (a : nat -> Z) (j : nat) :
  (j < n)%nat -> for_loop n (fun j a => upd a j (-1)%Z) a j = (-1)%Z.
Proof.
  intro Hj.
  apply (for_loop_inv
           (fun i a' => forall j, (j < i)%nat -> a' j = (-1)%Z)
           n (fun j a => upd a j (-1)%Z) a); [intros; lia| |exact Hj].
  intros i a' _ IH j' Hj'. destruct (Nat.eq_dec j' i) as [->|Hne].
  - apply upd_same.
  - rewrite upd_other by exact Hne. apply IH. lia.
Qed.

Lemma hit_paddles_none (hits : nat -> Z) (n : nat) :
  (forall j, (j < n)%nat -> hits j = (-1)%Z) -> hit_paddles hits n = [].
Proof.
  induction n as [|n IH]; intro H; [reflexivity|].
  rewrite hit_paddles_S, IH by (intros j Hj; apply H; lia).
  rewrite (H n) by lia. reflexivity.
Qed.

Lemma nearest_hit_none (hits : nat -> Z) (n : nat) (cnt : Z) :
  hit_paddles hits n = [] -> nearest_hit hits n cnt = 0.
Proof.
  intro H. destruct (nearest_hit_inv hits cnt n) as (_ & H0 & _).
  exact (H0 H).
Qed.

Lemma scin_scores_no_hits (c : Config) (hodo : THcHodoscope) (n : Z)
  (k : nat) (t : THaTrack) (w : ScinLocals) :
  GetNScinHits hodo 2 = 0%nat -> GetNScinHits hodo 3 = 0%nat ->
  (1 <= n)%Z ->
  fY2D (scin_scores c hodo n k t w) k = 0 /\
  fX2D (scin_scores c hodo n k t w) k = 0.
Proof.
  intros H2 H3 Hn. unfold scin_scores.
  match goal with
  | |- context [mark_hits hodo (fNPlanes c) (?x0, ?y0, ?r0)] =>
      assert (Hm := mark_hits_none hodo (fNPlanes c) x0 y0 r0 H2 H3);
      destruct (mark_hits hodo (fNPlanes c) (x0, y0, r0)) as [[x y] raw]
  end.
  cbn [fst] in Hm. injection Hm as -> ->. cbn [fY2D fX2D].
  destruct (n =? 1)%Z eqn:N1.
  - rewrite !upd_same. split; reflexivity.
  - assert (N2 : (n >? 1)%Z = true).
    { apply Z.eqb_neq in N1. rewrite Z.gtb_ltb. apply Z.ltb_lt. lia. }
    rewrite N2, !upd_same.
    split; apply nearest_hit_none, hit_paddles_none; intros j Hj;
      now apply reset_marks.
Qed.

Lemma scin_loop_no_hits (s : THcHallCSpectrometer) :
  GetNScinHits (fHodo s) 2 = 0%nat -> GetNScinHits (fHodo s) 3 = 0%nat ->
  forall j u, nth_error (fTracks s) j = Some u ->
              qualifies (cfg s) u = true ->
              fY2D (fst (scin_loop s)) j = 0
              /\ fX2D (fst (scin_loop s)) j = 0.
Proof.
  intros H2 H3. unfold scin_loop.
  apply (for_tracks_inv
           (fun done st =>
              forall j u, nth_error done j = Some u ->
                          qualifies (cfg s) u = true ->
                          fY2D (fst st) j = 0 /\ fX2D (fst st) j = 0)).
  - intros j u Hn. destruct j; discriminate.
  - intros done a rest [w x] Hl IH. cbn [fst snd] in *.
    assert (Hn1 : (1 <= fNtracks s)%Z).
    { unfold fNtracks. rewrite Hl, length_app. simpl. lia. }
    destruct (qualifies (cfg s) a) eqn:Hq.
    + rewrite (scin_track_qualified _ _ _ _ _ _ Hq). cbn [fst snd].
      destruct (scin_scores_frame (cfg s) (fHodo s) (fNtracks s)
                  (length done) a w) as (Hfr & _ & _).
      destruct (scin_select_arrays (length done) (Chi2PerDeg a)
                  (scin_scores (cfg s) (fHodo s) (fNtracks s)
                     (length done) a w, x)) as [Ay Ax].
      cbn [fst] in Ay, Ax.
      intros j u Hn Hqu. rewrite Ay, Ax.
      apply nth_error_snoc_inv in Hn. destruct Hn as [Hn|[-> ->]].
      * destruct (Hfr j) as [-> ->].
        { assert (j < length done)%nat by (eapply nth_error_lt, Hn). lia. }
        apply (IH j u Hn Hqu).
      * apply scin_scores_no_hits; assumption.
    + rewrite (scin_track_skip _ _ _ _ _ _ Hq).
      intros j u Hn Hqu. apply nth_error_snoc_inv in Hn.
      destruct Hn as [Hn|[-> ->]]; [apply (IH j u Hn Hqu) | congruence].
Qed.

End NoHits.

(** X17.  Without a hit in the planes 2 and 3, every distance score is 0
    and the scintillator selection reduces to the chi-square: when some
    candidate passes the degrees-of-freedom cut and the range cuts, and
    every such candidate has a non-zero number of degrees of freedom and
    a chi-square per degree of freedom below 1e10, the golden track is one
    of them with the smallest chi-square per degree of freedom. *)
Theorem scin_no_hits (E : Externals) (s : THcHallCSpectrometer) :
  fSelUsingScin (cfg s) = 1%Z -> fSelUsingPrune (cfg s) <> 1%Z ->
  GetNScinHits (fHodo s) 2 = 0%nat -> GetNScinHits (fHodo s) 3 = 0%nat ->
  (exists u, In u (fTracks s) /\ qualifies (cfg s) u = true) ->
  (forall u, In u (fTracks s) -> qualifies (cfg s) u = true ->
             chi2_defined u) ->
  (forall u, In u (fTracks s) -> qualifies (cfg s) u = true ->
             Chi2PerDeg u < 1e10) ->
  exists g t,
    fGoldenTrack (snd (TrackCalc s)) = Some g /\
    nth_error (fTracks s) g = Some t /\ qualifies (cfg s) t = true /\
    forall u, In u (fTracks s) -> qualifies (cfg s) u = true ->
              Chi2PerDeg t <= Chi2PerDeg u.
Proof.
  intros Hscin Hprune H2 H3 (u0 & Hin0 & Hq0) _ Hchi.
  assert (Hz := scin_loop_no_hits s H2 H3).
  assert (Hb : scin_bounds (cfg s) (fTracks s) (fst (scin_loop s))).
  { intros j u Hn Hq. destruct (Hz j u Hn Hq) as [-> ->].
    split; [lra|]. split; [lra|]. apply Hchi; [|exact Hq].
    eapply nth_error_In. exact Hn. }
  destruct (In_nth_error _ _ Hin0) as (j0 & Hn0).
  rewrite (TrackCalc_scin_only s Hscin Hprune).
  destruct (scin_loop_chosen s Hb)
    as [(Hnone & _)|(g & t & Hn & Hq & HG & Hgold & _ & _ & _ & Hbest)].
  - rewrite (Hnone j0 u0 Hn0) in Hq0. discriminate.
  - exists g, t. unfold SelectUsingScin.
    assert (Hne : (fNtracks s >? 0)%Z = true).
    { apply fNtracks_pos. intro K. rewrite K in Hin0. contradiction. }
    rewrite Hne. cbv zeta.
    assert (Hgood : (fGoodTrack (snd (scin_loop s)) =? -1)%Z = false).
    { rewrite HG. apply Z.eqb_neq. lia. }
    rewrite Hgood. split; [exact Hgold|]. split; [exact Hn|].
    split; [exact Hq|]. intros u Hu Hqu.
    destruct (In_nth_error _ _ Hu) as (j & Hj).
    specialize (Hbest j u Hj Hqu). unfold no_worse in Hbest.
    destruct (Hz g t Hn Hq) as [Yg Xg]. destruct (Hz j u Hj Hqu) as [Yj Xj].
    rewrite Yg, Xg, Yj, Xj in Hbest.
    destruct Hbest as [K|[[_ K]|(_ & _ & K)]]; [lra|lra|exact K].
Qed.

Lemma scin_no_hits_witness :
  exists g t,
    fGoldenTrack
      (snd (@TrackCalc sample_externals
              (sample_state (sample_cfg 0 1 0) prune_floor hodo_nohit
                 [sample_track 4 (-4) 5 0; sample_track 0 0 1 0] None)))
    = Some g /\
    nth_error [sample_track 4 (-4) 5 0; sample_track 0 0 1 0] g = Some t /\
    Chi2PerDeg t <= 1.
Proof.
  destruct (scin_no_hits sample_externals
              (sample_state (sample_cfg 0 1 0) prune_floor hodo_nohit
                 [sample_track 4 (-4) 5 0; sample_track 0 0 1 0] None)
              eq_refl ltac:(discriminate) eq_refl eq_refl)
    as (g & t & Hg & Hn & _ & Hmin).
  - exists (sample_track 0 0 1 0). split; [right; now left | reflexivity].
  - intros u [<-|[<-|[]]] _; discriminate.
  - intros u [<-|[<-|[]]] _; reflexivity.
  - exists g, t. split; [exact Hg|]. split; [exact Hn|].
    apply (Hmin (sample_track 0 0 1 0)); [right; now left | reflexivity].
Defined.

(** ** The hit marks of one walk over the planes *)

Section MarkProofs.
Context {E : Externals}.

Lemma hits_before_S (hodo : THcHodoscope) (ip : nat) :
  hits_before hodo (S ip)
  = (hits_before hodo ip + Z.of_nat (GetNScinHits hodo ip))%Z.
Proof. unfold hits_before. now rewrite for_loop_S. Qed.

Lemma marked_by_zero (pad : Z -> Z) (base : Z) (x0 : nat -> Z) :
  marked_by pad base 0 x0 x0.
Proof.
  split.
  - intros p (i & Hi & _). lia.
  - reflexivity.
Qed.

(** One more hit: the paddle that the list answers at the next position
    gets the mark. *)
Lemma marked_by_step (pad : Z -> Z) (base : Z) (n : nat)
  (x0 x : nat -> Z) :
  marked_by pad base n x0 x ->
  marked_by pad base (S n) x0 (updZ x (pad (base + Z.of_nat n)%Z) 0%Z).
Proof.
  intros [M1 M2]. unfold updZ. split.
  - intros p (i & Hi & Hp).
    destruct (Z.ltb_spec (pad (base + Z.of_nat n)%Z) 0) as [Hneg|Hpos].
    + apply M1. exists i. split; [|exact Hp].
      destruct (Nat.eq_dec i n) as [->|Hne]; [lia|lia].
    + unfold upd. destruct (Nat.eqb_spec p (Z.to_nat (pad (base + Z.of_nat n)%Z)))
        as [_|Hne]; [reflexivity|].
      apply M1. exists i. split; [|exact Hp].
      destruct (Nat.eq_dec i n) as [->|Hin]; [|lia].
      exfalso. apply Hne. rewrite Hp. now rewrite Nat2Z.id.
  - intros p Hp.
    assert (Hn : pad (base + Z.of_nat n)%Z <> Z.of_nat p) by (apply Hp; lia).
    assert (Hx : x p = x0 p) by (apply M2; intros i Hi; apply Hp; lia).
    destruct (Z.ltb_spec (pad (base + Z.of_nat n)%Z) 0) as [Hneg|Hpos];
      [exact Hx|].
    unfold upd.
    destruct (Nat.eqb_spec p (Z.to_nat (pad (base + Z.of_nat n)%Z)))
      as [Heq|_]; [|exact Hx].
    exfalso. apply Hn. rewrite Heq. rewrite Z2Nat.id by lia. reflexivity.
Qed.

(** The state of the walk after the planes [0 .. ip-1]. *)
Lemma mark_hits_inv (hodo : THcHodoscope) (x0 y0 : nat -> Z) (raw0 : Z)
  (np : nat) :
  let st :=
    for_loop np
      (fun ip st =>
         for_loop (GetNScinHits hodo ip)
           (fun _ st =>
              let '(x, y, raw) := st in
              let raw := (raw + 1)%Z in
              let fGoodRawPad := GetGoodRawPad hodo raw in
              let x := if Nat.eqb ip 2 then updZ x fGoodRawPad 0%Z else x in
              let y := if Nat.eqb ip 3 then updZ y fGoodRawPad 0%Z else y in
              (x, y, raw))
           st)
      (x0, y0, raw0) in
  snd st = (raw0 + hits_before hodo np)%Z /\
  marked_by (GetGoodRawPad hodo) (raw0 + 1 + hits_before hodo 2)
    (if (2 <? np)%nat then GetNScinHits hodo 2 else 0%nat)
    x0 (fst (fst st)) /\
  marked_by (GetGoodRawPad hodo) (raw0 + 1 + hits_before hodo 3)
    (if (3 <? np)%nat then GetNScinHits hodo 3 else 0%nat)
    y0 (snd (fst st)).
Proof.
  cbv zeta.
  apply (for_loop_inv
           (fun np st =>
              snd st = (raw0 + hits_before hodo np)%Z /\
              marked_by (GetGoodRawPad hodo) (raw0 + 1 + hits_before hodo 2)
                (if (2 <? np)%nat then GetNScinHits hodo 2 else 0%nat)
                x0 (fst (fst st)) /\
              marked_by (GetGoodRawPad hodo) (raw0 + 1 + hits_before hodo 3)
                (if (3 <? np)%nat then GetNScinHits hodo 3 else 0%nat)
                y0 (snd (fst st)))).
  - cbn. split; [unfold hits_before, for_loop; cbn; lia|].
    split; apply marked_by_zero.
  - intros ip st _ (Hraw & Hx & Hy).
    assert (Hin :
      let st' :=
        for_loop (GetNScinHits hodo ip)
          (fun _ st =>
             let '(x, y, raw) := st in
             let raw := (raw + 1)%Z in
             let fGoodRawPad := GetGoodRawPad hodo raw in
             let x := if Nat.eqb ip 2 then updZ x fGoodRawPad 0%Z else x in
             let y := if Nat.eqb ip 3 then updZ y fGoodRawPad 0%Z else y in
             (x, y, raw))
          st in
      snd st' = (raw0 + hits_before hodo ip
                 + Z.of_nat (GetNScinHits hodo ip))%Z /\
      marked_by (GetGoodRawPad hodo) (raw0 + 1 + hits_before hodo 2)
        (if Nat.eqb ip 2 then GetNScinHits hodo ip
         else if (2 <? ip)%nat then GetNScinHits hodo 2 else 0%nat)
        x0 (fst (fst st')) /\
      marked_by (GetGoodRawPad hodo) (raw0 + 1 + hits_before hodo 3)
        (if Nat.eqb ip 3 then GetNScinHits hodo ip
         else if (3 <? ip)%nat then GetNScinHits hodo 3 else 0%nat)
        y0 (snd (fst st'))).
    { cbv zeta.
      apply (for_loop_inv
               (fun i st' =>
                  snd st' = (raw0 + hits_before hodo ip + Z.of_nat i)%Z /\
                  marked_by (GetGoodRawPad hodo)
                    (raw0 + 1 + hits_before hodo 2)
                    (if Nat.eqb ip 2 then i
                     else if (2 <? ip)%nat then GetNScinHits hodo 2
                          else 0%nat)
                    x0 (fst (fst st')) /\
                  marked_by (GetGoodRawPad hodo)
                    (raw0 + 1 + hits_before hodo 3)
                    (if Nat.eqb ip 3 then i
                     else if (3 <? ip)%nat then GetNScinHits hodo 3
                          else 0%nat)
                    y0 (snd (fst st')))).
      - split; [lia|].
        split.
        + destruct (Nat.eqb_spec ip 2) as [->|_]; [exact Hx | exact Hx].
        + destruct (Nat.eqb_spec ip 3) as [->|_]; [exact Hy | exact Hy].
      - intros i [[x y] raw] _ (Ir & Ix & Iy). cbn [fst snd] in *.
        split; [lia|]. split.
        + destruct (Nat.eqb_spec ip 2) as [->|_]; [|exact Ix].
          replace (raw + 1)%Z
            with (raw0 + 1 + hits_before hodo 2 + Z.of_nat i)%Z by lia.
          now apply marked_by_step.
        + destruct (Nat.eqb_spec ip 3) as [->|_]; [|exact Iy].
          replace (raw + 1)%Z
            with (raw0 + 1 + hits_before hodo 3 + Z.of_nat i)%Z by lia.
          now apply marked_by_step. }
    cbv zeta in Hin. destruct Hin as (Jr & Jx & Jy).
    split; [rewrite hits_before_S; lia|]. split.
    + destruct (Nat.eqb_spec ip 2) as [->|Hne]; [exact Jx|].
      replace (2 <? S ip)%nat with (2 <? ip)%nat; [exact Jx|].
      destruct (Nat.ltb_spec 2 ip), (Nat.ltb_spec 2 (S ip)); lia || reflexivity.
    + destruct (Nat.eqb_spec ip 3) as [->|Hne]; [exact Jy|].
      replace (3 <? S ip)%nat with (3 <? ip)%nat; [exact Jy|].
      destruct (Nat.ltb_spec 3 ip), (Nat.ltb_spec 3 (S ip)); lia || reflexivity.
Qed.

End MarkProofs.

(** X26.  One walk over the planes puts the mark 0 in f2XHits on exactly
    the paddles that the flat hit list answers at the positions of the hits
    of plane 2, and in f2YHits on those of plane 3, the positions being
    counted from the one after the running index; every other slot of the
    two arrays is left as it was, and the hits of the other planes only
    advance the index. *)
Theorem mark_hits_marks (hodo : THcHodoscope) (nplanes : Z)
  (x0 y0 : nat -> Z) (raw0 : Z) :
  let st := mark_hits hodo nplanes (x0, y0, raw0) in
  snd st = (raw0 + total_hits hodo nplanes)%Z /\
  marked_by (GetGoodRawPad hodo) (raw0 + 1 + hits_before hodo 2)
    (walked_hits hodo nplanes 2) x0 (fst (fst st)) /\
  marked_by (GetGoodRawPad hodo) (raw0 + 1 + hits_before hodo 3)
    (walked_hits hodo nplanes 3) y0 (snd (fst st)).
Proof.
  intro st. subst st. unfold mark_hits, total_hits, walked_hits.
  destruct (mark_hits_inv hodo x0 y0 raw0 (Z.to_nat nplanes))
    as (Hraw & Hx & Hy).
  split; [exact Hraw|]. split; [exact Hx | exact Hy].
Qed.
